(** * visage: the macOS windowing backend and the application editor

    A shallow embedding of [windowing_macos.mm] (the window registry
    [NativeWindowLookup], the view [VisageAppView], the window [WindowMac],
    the application delegate) and of [ApplicationEditor::drawWindow] from
    [visage_app/application_editor.cpp], followed by the properties the
    specification states about them.

    Conventions of the embedding:
    - a pointer is a machine address ([N], [0] is the null pointer); a
      pointer that the code dereferences is a non-null address ([positive]);
      a nullable reference is an [option];
    - [std::map<void*, WindowMac*>] is a [gmap];
    - [CGFloat] is IEEE binary64 and [float] is IEEE binary32, both as
      [spec_float] with the operations of [SpecFloat] at the precision of
      the type;
    - calls into Cocoa and into the framework's base classes that have an
      effect outside the modelled objects are recorded in a trace. *)

From Stdlib Require Import ZArith List Bool Lia.
From Stdlib Require Import Floats.SpecFloat.
From stdpp Require Import base option list gmap fin_maps strings.

Local Open Scope Z_scope.

(** ** Numbers *)

Module Float.

(** [float]: 24 bits of precision, exponent of infinity 128. *)
Definition prec32 : Z := 24.
Definition emax32 : Z := 128.
(** [double], [CGFloat]: 53 bits of precision, exponent of infinity 1024. *)
Definition prec64 : Z := 53.
Definition emax64 : Z := 1024.

Definition f32 := spec_float.
Definition f64 := spec_float.

Definition mul32 : f32 -> f32 -> f32 := SFmul prec32 emax32.
Definition div32 : f32 -> f32 -> f32 := SFdiv prec32 emax32.
Definition mul64 : f64 -> f64 -> f64 := SFmul prec64 emax64.
Definition sub64 : f64 -> f64 -> f64 := SFsub prec64 emax64.
Definition ltb64 : f64 -> f64 -> bool := SFltb.
Definition eqb32 : f32 -> f32 -> bool := SFeqb.

(** Conversion of a value to the format [(prec, emax)], rounding to
    nearest even: the implicit conversions [CGFloat -> float] (narrowing)
    and [float -> CGFloat] (exact). *)
Definition convert (prec emax : Z) (x : spec_float) : spec_float :=
  match x with
  | S754_finite s m e => binary_round prec emax s m e
  | _ => x
  end.

Definition to_f32 : f64 -> f32 := convert prec32 emax32.
Definition to_f64 : f32 -> f64 := convert prec64 emax64.

(** Integer to floating point. *)
Definition of_Z32 (z : Z) : f32 := binary_normalize prec32 emax32 z 0 false.
Definition of_Z64 (z : Z) : f64 := binary_normalize prec64 emax64 z 0 false.

Definition zero : spec_float := S754_zero false.
Definition one64 : f64 := of_Z64 1.
Definition one32 : f32 := of_Z32 1.

(** [std::round] followed by the conversion to [int]: round half away
    from zero.  The conversion of a NaN, an infinity or a value outside
    of [int] is undefined in C++; the model gives [0] for the first two
    and does not wrap the third. *)
Definition round_to_Z (x : spec_float) : Z :=
  match x with
  | S754_finite s m e =>
      let mag :=
        match e with
        | Zneg p => (Zpos m + 2 ^ (Zpos p - 1)) / 2 ^ Zpos p
        | _ => Zpos m * 2 ^ e
        end in
      if s then - mag else mag
  | _ => 0
  end.

End Float.

(** ** Pointers *)

(** [void*]: an address, [0] is [nullptr]. *)
Definition Handle := N.
(** [WindowMac*] where the code dereferences it. *)
Definition WindowPtr := positive.

(** ** The window registry: [NativeWindowLookup] *)

Inductive NSApplicationTerminateReply := NSTerminateCancel | NSTerminateNow.

Module NativeWindowLookup.
Section Registry.

(** What the registry calls on a [WindowMac*]. *)
Variable nativeHandle : WindowPtr -> Handle.
Variable closeRequested : WindowPtr -> bool.
Variable isShowing : WindowPtr -> bool.

(** The registry is [std::map<void*, WindowMac*> native_window_lookup_]. *)

(** [native_window_lookup_[window->nativeHandle()] = window] *)
Definition addWindow (window : WindowPtr) (native_window_lookup_ : gmap Handle WindowPtr)
  : gmap Handle WindowPtr :=
  <[nativeHandle window := window]> native_window_lookup_.

Definition removeWindow (window : WindowPtr) (native_window_lookup_ : gmap Handle WindowPtr)
  : gmap Handle WindowPtr :=
  if decide (is_Some (native_window_lookup_ !! nativeHandle window))
  then delete (nativeHandle window) native_window_lookup_
  else native_window_lookup_.

(** The loop returns at the first window that is showing. *)
Definition anyWindowOpen (native_window_lookup_ : gmap Handle WindowPtr) : bool :=
  map_fold (fun _ window found => if isShowing window then true else found)
           false native_window_lookup_.

(** The loop visits every entry; an entry whose [closeRequested()] is
    false sets [result] to false, no entry sets it back. *)
Definition requestAllToClose (native_window_lookup_ : gmap Handle WindowPtr) : bool :=
  map_fold (fun _ window result =>
              if negb (closeRequested window) then false else result)
           true native_window_lookup_.

Definition findWindow (handle : Handle) (native_window_lookup_ : gmap Handle WindowPtr)
  : option WindowPtr :=
  native_window_lookup_ !! handle.

(** [VisageAppDelegate applicationShouldTerminate:] *)
Definition applicationShouldTerminate (native_window_lookup_ : gmap Handle WindowPtr)
  : NSApplicationTerminateReply :=
  if requestAllToClose native_window_lookup_
  then NSTerminateNow else NSTerminateCancel.

(** A call of the registry made by a window's constructor, destructor or
    close path. *)
Inductive Call := CallAdd (window : WindowPtr) | CallRemove (window : WindowPtr).

Definition callee (c : Call) : WindowPtr :=
  match c with CallAdd w | CallRemove w => w end.

Definition call (c : Call) (m : gmap Handle WindowPtr)
  : gmap Handle WindowPtr :=
  match c with
  | CallAdd w => addWindow w m
  | CallRemove w => removeWindow w m
  end.

Definition calls (cs : list Call) (m : gmap Handle WindowPtr)
  : gmap Handle WindowPtr :=
  fold_left (fun m c => call c m) cs m.

(** A call that is a repeated [addWindow w], or that concerns a window
    with another handle, keeps the entry of [w]. *)
Definition keeps (w : WindowPtr) (c : Call) : Prop :=
  c = CallAdd w \/ nativeHandle (callee c) <> nativeHandle w.

End Registry.
End NativeWindowLookup.

(** ** Geometry *)

Import Float.

Record NSPoint := { ns_x : f64; ns_y : f64 }.
Record CGSize := { width : f64; height : f64 }.
Record NSRect := { rect_origin : NSPoint; rect_size : CGSize }.

Definition CGSizeMake (w h : f64) : CGSize := {| width := w; height := h |}.
Definition NSMakeRect (x y w h : f64) : NSRect :=
  {| rect_origin := {| ns_x := x; ns_y := y |}; rect_size := CGSizeMake w h |}.
Definition NSZeroRect : NSRect := NSMakeRect zero zero zero zero.

(** [visage::Point]: two [float]s; [operator*(float)] scales both. *)
Record Point := { pt_x : f32; pt_y : f32 }.
Definition Point_scale (p : Point) (s : f32) : Point :=
  {| pt_x := mul32 (pt_x p) s; pt_y := mul32 (pt_y p) s |}.

(** ** Cocoa objects *)

Definition NSWindowPtr := positive.
Definition NSViewPtr := positive.

(** [NSWindowStyleMask] and window levels. *)
Definition NSWindowStyleMaskBorderless : Z := 0.
Definition NSWindowStyleMaskTitled : Z := Z.shiftl 1 0.
Definition NSWindowStyleMaskClosable : Z := Z.shiftl 1 1.
Definition NSWindowStyleMaskMiniaturizable : Z := Z.shiftl 1 2.
Definition NSWindowStyleMaskResizable : Z := Z.shiftl 1 3.
Definition NSWindowStyleMaskFullSizeContentView : Z := Z.shiftl 1 15.
Definition NSNormalWindowLevel : Z := 0.
Definition NSStatusWindowLevel : Z := 25.
(** [NSWindowOcclusionStateVisible = 1 << 1] *)
Definition NSWindowOcclusionStateVisible : Z := Z.shiftl 1 1.

(** The part of an [NSWindow] that the backend reads or writes. *)
Record NSWindow := {
  styleMask : Z;
  level : Z;
  titlebarAppearsTransparent : bool;
  backingScaleFactor : f64;
  occlusionState : Z;
  isVisible : bool;
  contentView : option NSViewPtr;
  contentLayoutRect : NSRect
}.

Definition NSWindow_with_level (l : Z) (n : NSWindow) : NSWindow :=
  {| styleMask := styleMask n; level := l;
     titlebarAppearsTransparent := titlebarAppearsTransparent n;
     backingScaleFactor := backingScaleFactor n;
     occlusionState := occlusionState n; isVisible := isVisible n;
     contentView := contentView n; contentLayoutRect := contentLayoutRect n |}.

Definition NSWindow_with_titlebarAppearsTransparent (b : bool) (n : NSWindow)
  : NSWindow :=
  {| styleMask := styleMask n; level := level n;
     titlebarAppearsTransparent := b;
     backingScaleFactor := backingScaleFactor n;
     occlusionState := occlusionState n; isVisible := isVisible n;
     contentView := contentView n; contentLayoutRect := contentLayoutRect n |}.

Definition NSWindow_with_isVisible (b : bool) (n : NSWindow) : NSWindow :=
  {| styleMask := styleMask n; level := level n;
     titlebarAppearsTransparent := titlebarAppearsTransparent n;
     backingScaleFactor := backingScaleFactor n;
     occlusionState := occlusionState n; isVisible := b;
     contentView := contentView n; contentLayoutRect := contentLayoutRect n |}.

Definition NSWindow_with_contentView (v : option NSViewPtr) (n : NSWindow)
  : NSWindow :=
  {| styleMask := styleMask n; level := level n;
     titlebarAppearsTransparent := titlebarAppearsTransparent n;
     backingScaleFactor := backingScaleFactor n;
     occlusionState := occlusionState n; isVisible := isVisible n;
     contentView := v; contentLayoutRect := contentLayoutRect n |}.

Definition NSWindow_with_backingScaleFactor (s : f64) (n : NSWindow) : NSWindow :=
  {| styleMask := styleMask n; level := level n;
     titlebarAppearsTransparent := titlebarAppearsTransparent n;
     backingScaleFactor := s;
     occlusionState := occlusionState n; isVisible := isVisible n;
     contentView := contentView n; contentLayoutRect := contentLayoutRect n |}.

Definition NSWindow_with_occlusionState (o : Z) (n : NSWindow) : NSWindow :=
  {| styleMask := styleMask n; level := level n;
     titlebarAppearsTransparent := titlebarAppearsTransparent n;
     backingScaleFactor := backingScaleFactor n;
     occlusionState := o; isVisible := isVisible n;
     contentView := contentView n; contentLayoutRect := contentLayoutRect n |}.

(** The [CAMetalLayer] behind the view: the GPU surface. *)
Record CAMetalLayer := {
  contentsScale : f64;
  drawableSize : CGSize
}.

(** [VisageAppView]: the properties and instance variables the modelled
    methods use.  The view keeps its default bounds transform, so
    [self.bounds.size] is [self.frame.size]. *)
Record VisageAppView := {
  visage_window : option WindowPtr;
  allow_quit : bool;
  layer : option CAMetalLayer;
  window : option NSWindowPtr;
  frame_size : CGSize;
  draw_count : Z;
  last_render_us : Z;
  last_draw_log_us : Z;
  mouse_down_screen_position : NSPoint;
  (** the windows whose [NSWindowDidChangeOcclusionStateNotification] the
      notification centre delivers to this view *)
  occlusion_observed : list NSWindowPtr
}.

Definition bounds_size (v : VisageAppView) : CGSize := frame_size v.

Definition view_with_visage_window (w : option WindowPtr) (v : VisageAppView) :=
  {| visage_window := w; allow_quit := allow_quit v; layer := layer v;
     window := window v; frame_size := frame_size v; draw_count := draw_count v;
     last_render_us := last_render_us v; last_draw_log_us := last_draw_log_us v;
     mouse_down_screen_position := mouse_down_screen_position v;
     occlusion_observed := occlusion_observed v |}.

Definition view_with_allow_quit (b : bool) (v : VisageAppView) :=
  {| visage_window := visage_window v; allow_quit := b; layer := layer v;
     window := window v; frame_size := frame_size v; draw_count := draw_count v;
     last_render_us := last_render_us v; last_draw_log_us := last_draw_log_us v;
     mouse_down_screen_position := mouse_down_screen_position v;
     occlusion_observed := occlusion_observed v |}.

Definition view_with_layer (l : option CAMetalLayer) (v : VisageAppView) :=
  {| visage_window := visage_window v; allow_quit := allow_quit v; layer := l;
     window := window v; frame_size := frame_size v; draw_count := draw_count v;
     last_render_us := last_render_us v; last_draw_log_us := last_draw_log_us v;
     mouse_down_screen_position := mouse_down_screen_position v;
     occlusion_observed := occlusion_observed v |}.

Definition view_with_window (n : option NSWindowPtr) (v : VisageAppView) :=
  {| visage_window := visage_window v; allow_quit := allow_quit v;
     layer := layer v; window := n; frame_size := frame_size v;
     draw_count := draw_count v; last_render_us := last_render_us v;
     last_draw_log_us := last_draw_log_us v;
     mouse_down_screen_position := mouse_down_screen_position v;
     occlusion_observed := occlusion_observed v |}.

Definition view_with_frame_size (s : CGSize) (v : VisageAppView) :=
  {| visage_window := visage_window v; allow_quit := allow_quit v;
     layer := layer v; window := window v; frame_size := s;
     draw_count := draw_count v; last_render_us := last_render_us v;
     last_draw_log_us := last_draw_log_us v;
     mouse_down_screen_position := mouse_down_screen_position v;
     occlusion_observed := occlusion_observed v |}.

Definition view_with_draw_count (n : Z) (v : VisageAppView) :=
  {| visage_window := visage_window v; allow_quit := allow_quit v;
     layer := layer v; window := window v; frame_size := frame_size v;
     draw_count := n; last_render_us := last_render_us v;
     last_draw_log_us := last_draw_log_us v;
     mouse_down_screen_position := mouse_down_screen_position v;
     occlusion_observed := occlusion_observed v |}.

Definition view_with_last_render_us (n : Z) (v : VisageAppView) :=
  {| visage_window := visage_window v; allow_quit := allow_quit v;
     layer := layer v; window := window v; frame_size := frame_size v;
     draw_count := draw_count v; last_render_us := n;
     last_draw_log_us := last_draw_log_us v;
     mouse_down_screen_position := mouse_down_screen_position v;
     occlusion_observed := occlusion_observed v |}.

Definition view_with_last_draw_log_us (n : Z) (v : VisageAppView) :=
  {| visage_window := visage_window v; allow_quit := allow_quit v;
     layer := layer v; window := window v; frame_size := frame_size v;
     draw_count := draw_count v; last_render_us := last_render_us v;
     last_draw_log_us := n;
     mouse_down_screen_position := mouse_down_screen_position v;
     occlusion_observed := occlusion_observed v |}.

Definition view_with_mouse_down_screen_position (p : NSPoint) (v : VisageAppView) :=
  {| visage_window := visage_window v; allow_quit := allow_quit v;
     layer := layer v; window := window v; frame_size := frame_size v;
     draw_count := draw_count v; last_render_us := last_render_us v;
     last_draw_log_us := last_draw_log_us v;
     mouse_down_screen_position := p;
     occlusion_observed := occlusion_observed v |}.

Definition view_with_occlusion_observed (l : list NSWindowPtr) (v : VisageAppView) :=
  {| visage_window := visage_window v; allow_quit := allow_quit v;
     layer := layer v; window := window v; frame_size := frame_size v;
     draw_count := draw_count v; last_render_us := last_render_us v;
     last_draw_log_us := last_draw_log_us v;
     mouse_down_screen_position := mouse_down_screen_position v;
     occlusion_observed := l |}.

(** ** The window object *)

Inductive Decoration := Native | Client | Popup.

(** [WindowMac], with the members of its base class [Window] that the
    backend reads or writes. *)
Record WindowMac := {
  (* Window *)
  dpi_scale_ : f32;
  visible_ : bool;
  mouse_relative_mode_ : bool;
  (** what the window's close-request callback answers *)
  close_requested_ : bool;
  (* WindowMac *)
  window_handle_ : option NSWindowPtr;
  view_ : option NSViewPtr;
  parent_view_ : option NSViewPtr;
  decoration_ : Decoration;
  last_content_rect_ : NSRect
}.

Definition win_with_dpi_scale_ (s : f32) (w : WindowMac) :=
  {| dpi_scale_ := s; visible_ := visible_ w;
     mouse_relative_mode_ := mouse_relative_mode_ w;
     close_requested_ := close_requested_ w;
     window_handle_ := window_handle_ w; view_ := view_ w;
     parent_view_ := parent_view_ w; decoration_ := decoration_ w;
     last_content_rect_ := last_content_rect_ w |}.

Definition win_with_visible_ (b : bool) (w : WindowMac) :=
  {| dpi_scale_ := dpi_scale_ w; visible_ := b;
     mouse_relative_mode_ := mouse_relative_mode_ w;
     close_requested_ := close_requested_ w;
     window_handle_ := window_handle_ w; view_ := view_ w;
     parent_view_ := parent_view_ w; decoration_ := decoration_ w;
     last_content_rect_ := last_content_rect_ w |}.

Definition win_with_window_handle_ (h : option NSWindowPtr) (w : WindowMac) :=
  {| dpi_scale_ := dpi_scale_ w; visible_ := visible_ w;
     mouse_relative_mode_ := mouse_relative_mode_ w;
     close_requested_ := close_requested_ w;
     window_handle_ := h; view_ := view_ w;
     parent_view_ := parent_view_ w; decoration_ := decoration_ w;
     last_content_rect_ := last_content_rect_ w |}.

Definition win_with_view_ (v : option NSViewPtr) (w : WindowMac) :=
  {| dpi_scale_ := dpi_scale_ w; visible_ := visible_ w;
     mouse_relative_mode_ := mouse_relative_mode_ w;
     close_requested_ := close_requested_ w;
     window_handle_ := window_handle_ w; view_ := v;
     parent_view_ := parent_view_ w; decoration_ := decoration_ w;
     last_content_rect_ := last_content_rect_ w |}.

Definition win_with_last_content_rect_ (r : NSRect) (w : WindowMac) :=
  {| dpi_scale_ := dpi_scale_ w; visible_ := visible_ w;
     mouse_relative_mode_ := mouse_relative_mode_ w;
     close_requested_ := close_requested_ w;
     window_handle_ := window_handle_ w; view_ := view_ w;
     parent_view_ := parent_view_ w; decoration_ := decoration_ w;
     last_content_rect_ := r |}.

(** ** Calls that leave the modelled objects *)

Inductive Event :=
  (** calls of the framework's [Window] interface *)
  | DrawCallback (w : WindowPtr) (time : f64)
  | HandleResized (w : WindowPtr) (client_width client_height : Z)
  | NotifyShow (w : WindowPtr)
  | NotifyHide (w : WindowPtr)
  | HandleMouseDown (w : WindowPtr) (button : Z) (px py : f32) (buttons modifiers : Z)
  | HandleMouseUp (w : WindowPtr) (button : Z) (px py : f32) (buttons modifiers : Z)
  | HandleMouseMove (w : WindowPtr) (px py : f32) (buttons modifiers : Z)
  | HandleMouseLeave (w : WindowPtr) (buttons modifiers : Z)
  | HandleMouseWheel (w : WindowPtr) (delta_x delta_y precise_x precise_y px py : f32)
                     (buttons modifiers : Z) (momentum : bool)
  | HandleFileDrag (w : WindowPtr) (px py : f32) (files : list string)
  | HandleFileDrop (w : WindowPtr) (px py : f32) (files : list string)
  (** calls of Cocoa *)
  | CVDisplayLinkStart (v : NSViewPtr)
  | MakeFirstResponder (n : NSWindowPtr) (v : NSViewPtr)
  | MakeKeyWindow (n : NSWindowPtr)
  | OrderFront (n : NSWindowPtr)
  | MakeKeyAndOrderFront (n : NSWindowPtr)
  | OrderOut (n : NSWindowPtr)
  | ActivateIgnoringOtherApps
  | WarpMouseCursor (p : NSPoint)
  | BeginDraggingSession (v : NSViewPtr) (file : string)
  | AddSubview (parent child : NSViewPtr)
  | RemoveFromSuperview (v : NSViewPtr)
  | NSAppStop.

(** ** The process *)

Record World := {
  (** [visageDebugEnabled()]: [NUPG_VISAGE_DEBUG] is set, not empty and
      does not start with ['0'] *)
  debug_enabled : bool;
  (** [visage::time::microseconds()]: the value of the n-th reading *)
  microseconds : nat -> Z;
  clock_reads : nat;
  (** the function-local [static uint64_t last_..._us] of the rate-limited
      log lines, by name; a name not in the map is at its initial [0] *)
  statics : gmap string Z;
  (** the diagnostic log on [stderr]: the tags of its lines *)
  stderr : list string;
  (** the calls that left the modelled objects, in order *)
  trace : list Event;
  (** the next address the allocator gives out *)
  next_object : positive;
  (** [[NSScreen mainScreen].backingScaleFactor], the scale a new window
      starts with *)
  screen_scale : f64;
  (* NativeWindowLookup::instance() *)
  native_window_lookup_ : gmap Handle WindowPtr;
  (* WindowMac::running_event_loop_ *)
  running_event_loop_ : bool;
  (* the heap *)
  nswindows : gmap NSWindowPtr NSWindow;
  windows : gmap WindowPtr WindowMac;
  views : gmap NSViewPtr VisageAppView
}.

Definition world_with_clock_reads (n : nat) (s : World) : World :=
  {| debug_enabled := debug_enabled s; microseconds := microseconds s;
     clock_reads := n; statics := statics s; stderr := stderr s;
     trace := trace s; next_object := next_object s;
     screen_scale := screen_scale s;
     native_window_lookup_ := native_window_lookup_ s;
     running_event_loop_ := running_event_loop_ s; nswindows := nswindows s;
     windows := windows s; views := views s |}.

Definition world_with_statics (m : gmap string Z) (s : World) : World :=
  {| debug_enabled := debug_enabled s; microseconds := microseconds s;
     clock_reads := clock_reads s; statics := m; stderr := stderr s;
     trace := trace s; next_object := next_object s;
     screen_scale := screen_scale s;
     native_window_lookup_ := native_window_lookup_ s;
     running_event_loop_ := running_event_loop_ s; nswindows := nswindows s;
     windows := windows s; views := views s |}.

Definition world_with_stderr (l : list string) (s : World) : World :=
  {| debug_enabled := debug_enabled s; microseconds := microseconds s;
     clock_reads := clock_reads s; statics := statics s; stderr := l;
     trace := trace s; next_object := next_object s;
     screen_scale := screen_scale s;
     native_window_lookup_ := native_window_lookup_ s;
     running_event_loop_ := running_event_loop_ s; nswindows := nswindows s;
     windows := windows s; views := views s |}.

Definition world_with_trace (t : list Event) (s : World) : World :=
  {| debug_enabled := debug_enabled s; microseconds := microseconds s;
     clock_reads := clock_reads s; statics := statics s; stderr := stderr s;
     trace := t; next_object := next_object s;
     screen_scale := screen_scale s;
     native_window_lookup_ := native_window_lookup_ s;
     running_event_loop_ := running_event_loop_ s; nswindows := nswindows s;
     windows := windows s; views := views s |}.

Definition world_with_next_object (p : positive) (s : World) : World :=
  {| debug_enabled := debug_enabled s; microseconds := microseconds s;
     clock_reads := clock_reads s; statics := statics s; stderr := stderr s;
     trace := trace s; next_object := p; screen_scale := screen_scale s;
     native_window_lookup_ := native_window_lookup_ s;
     running_event_loop_ := running_event_loop_ s; nswindows := nswindows s;
     windows := windows s; views := views s |}.

Definition world_with_native_window_lookup_ (m : gmap Handle WindowPtr) (s : World) : World :=
  {| debug_enabled := debug_enabled s; microseconds := microseconds s;
     clock_reads := clock_reads s; statics := statics s; stderr := stderr s;
     trace := trace s; next_object := next_object s;
     screen_scale := screen_scale s; native_window_lookup_ := m;
     running_event_loop_ := running_event_loop_ s; nswindows := nswindows s;
     windows := windows s; views := views s |}.

Definition world_with_nswindows (m : gmap NSWindowPtr NSWindow) (s : World) : World :=
  {| debug_enabled := debug_enabled s; microseconds := microseconds s;
     clock_reads := clock_reads s; statics := statics s; stderr := stderr s;
     trace := trace s; next_object := next_object s;
     screen_scale := screen_scale s;
     native_window_lookup_ := native_window_lookup_ s;
     running_event_loop_ := running_event_loop_ s; nswindows := m;
     windows := windows s; views := views s |}.

Definition world_with_windows (m : gmap WindowPtr WindowMac) (s : World) : World :=
  {| debug_enabled := debug_enabled s; microseconds := microseconds s;
     clock_reads := clock_reads s; statics := statics s; stderr := stderr s;
     trace := trace s; next_object := next_object s;
     screen_scale := screen_scale s;
     native_window_lookup_ := native_window_lookup_ s;
     running_event_loop_ := running_event_loop_ s; nswindows := nswindows s;
     windows := m; views := views s |}.

Definition world_with_views (m : gmap NSViewPtr VisageAppView) (s : World) : World :=
  {| debug_enabled := debug_enabled s; microseconds := microseconds s;
     clock_reads := clock_reads s; statics := statics s; stderr := stderr s;
     trace := trace s; next_object := next_object s;
     screen_scale := screen_scale s;
     native_window_lookup_ := native_window_lookup_ s;
     running_event_loop_ := running_event_loop_ s; nswindows := nswindows s;
     windows := windows s; views := m |}.

(** ** The monad of the embedding

    A method is a function of the process state.  It has no result
    ([None]) where the C++ has no defined behaviour: a call through a null
    or dangling [WindowMac*], a message to a view that is not alive. *)

Definition M (A : Type) : Type := World -> option (A * World).

Definition ret {A} (a : A) : M A := fun s => Some (a, s).
Definition bind {A B} (m : M A) (k : A -> M B) : M B :=
  fun s => match m s with Some (a, s') => k a s' | None => None end.
Definition undefined {A} : M A := fun _ => None.
Definition gets {A} (f : World -> A) : M A := fun s => Some (f s, s).
Definition modify (f : World -> World) : M unit := fun s => Some (tt, f s).

Notation "'let*' x ':=' c 'in' k" := (bind c (fun x => k))
  (at level 10, x pattern, c at level 100, k at level 200).
Notation "c ';;' k" := (bind c (fun _ => k))
  (at level 100, k at level 200, right associativity).

Definition when (b : bool) (m : M unit) : M unit := if b then m else ret tt.

Definition emit (e : Event) : M unit :=
  modify (fun s => world_with_trace (trace s ++ [e]) s).

Definition alloc : M positive :=
  let* p := gets next_object in
  modify (world_with_next_object (Pos.succ p));;
  ret p.

(** Dereferencing. *)
Definition deref {A} (o : option A) : M A :=
  match o with Some a => ret a | None => undefined end.
Definition getView (self : NSViewPtr) : M VisageAppView :=
  let* m := gets views in deref (m !! self).
Definition putView (self : NSViewPtr) (v : VisageAppView) : M unit :=
  modify (fun s => world_with_views (<[self := v]> (views s)) s).
Definition getWindow (this : WindowPtr) : M WindowMac :=
  let* m := gets windows in deref (m !! this).
Definition putWindow (this : WindowPtr) (w : WindowMac) : M unit :=
  modify (fun s => world_with_windows (<[this := w]> (windows s)) s).
Definition getNSWindow (n : NSWindowPtr) : M NSWindow :=
  let* m := gets nswindows in deref (m !! n).
Definition putNSWindow (n : NSWindowPtr) (o : NSWindow) : M unit :=
  modify (fun s => world_with_nswindows (<[n := o]> (nswindows s)) s).

(** ** Diagnostics *)

Definition uint64 (z : Z) : Z := z mod 2 ^ 64.

(** [visage::time::microseconds()] *)
Definition time_microseconds : M Z :=
  let* f := gets microseconds in
  let* n := gets clock_reads in
  modify (world_with_clock_reads (S n));;
  ret (uint64 (f n)).

(** [shouldLogEvery(last_us, interval_us)]: the new value of [last_us] is
    returned with the answer. *)
Definition shouldLogEvery (last_us interval_us : Z) : M (bool * Z) :=
  let* now := time_microseconds in
  if interval_us <=? uint64 (now - last_us)
  then ret (true, now)
  else ret (false, last_us).

(** [shouldLogEvery] on a function-local static. *)
Definition shouldLogEvery_static (name : string) (interval_us : Z) : M bool :=
  let* m := gets statics in
  let* r := shouldLogEvery (default 0 (m !! name)) interval_us in
  modify (fun s => world_with_statics (<[name := snd r]> (statics s)) s);;
  ret (fst r).

(** [visageDebugLog(tag, ...)] *)
Definition visageDebugLog (tag : string) : M unit :=
  let* d := gets debug_enabled in
  when d (modify (fun s => world_with_stderr (stderr s ++ [tag]) s)).

(** [if (visageDebugEnabled()) { static uint64_t last = 0;
    if (shouldLogEvery(last, interval)) visageDebugLog(tag, ...); }] *)
Definition log_every (name : string) (interval_us : Z) (tag : string) : M unit :=
  let* d := gets debug_enabled in
  when d (let* b := shouldLogEvery_static name interval_us in
          when b (visageDebugLog tag)).

(** ** The framework's event constants

    [visage::kMouseButton...] and [visage::kModifier...] are declared in
    the framework's event header; the backend only combines them. *)
Class EventConstants := {
  kMouseButtonLeft : Z;
  kMouseButtonRight : Z;
  kMouseButtonMiddle : Z;
  kModifierCmd : Z;
  kModifierMacCtrl : Z;
  kModifierOption : Z;
  kModifierShift : Z
}.

Definition NSEventModifierFlagShift : Z := Z.shiftl 1 17.
Definition NSEventModifierFlagControl : Z := Z.shiftl 1 18.
Definition NSEventModifierFlagOption : Z := Z.shiftl 1 19.
Definition NSEventModifierFlagCommand : Z := Z.shiftl 1 20.

(** An [NSEvent] (or, for a drag, the [NSDraggingInfo]) as the view reads
    it, with the class-level state it samples while handling it. *)
Record NSEvent := {
  (** [[self convertPoint:[event locationInWindow] fromView:nil]], for a
      drag [[self convertPoint:[sender draggingLocation] fromView:nil]] *)
  view_location : NSPoint;
  modifierFlags : Z;
  buttonNumber : Z;
  deltaX : f64;
  deltaY : f64;
  hasPreciseScrollingDeltas : bool;
  scrollingDeltaX : f64;
  scrollingDeltaY : f64;
  (** [[event momentumPhase] != NSEventPhaseNone] *)
  in_momentum_phase : bool;
  (** [[NSEvent pressedMouseButtons]] *)
  pressedMouseButtons : Z;
  (** [[self mouseScreenPosition]] *)
  mouseScreenPosition : NSPoint;
  (** [[self dropFileList:sender]] *)
  dropFileList : list string
}.

(** ** The base class [Window] *)

(** Modelled from the spec: [Window::setDpiScale], [dpiScale],
    [setVisible], [isVisible], [mouseRelativeMode] and [closeRequested] are
    members of the base class in [visage_windowing/windowing.h], which is
    not among the sources; the spec's data model gives a window a DPI scale
    and a visibility flag that the backend propagates to, and a
    close-request predicate that may veto. *)
Definition setDpiScale (this : WindowPtr) (scale : f32) : M unit :=
  let* w := getWindow this in putWindow this (win_with_dpi_scale_ scale w).

Definition dpiScale (this : WindowPtr) : M f32 :=
  let* w := getWindow this in ret (dpi_scale_ w).

Definition setVisible (this : WindowPtr) (visible : bool) : M unit :=
  let* w := getWindow this in putWindow this (win_with_visible_ visible w).

Definition isVisible_ (this : WindowPtr) : M bool :=
  let* w := getWindow this in ret (visible_ w).

Definition mouseRelativeMode (this : WindowPtr) : M bool :=
  let* w := getWindow this in ret (mouse_relative_mode_ w).

(** The handlers and notifications of [Window] are the framework's side;
    a call through a live window is recorded. *)
Definition call_window (this : WindowPtr) (e : Event) : M unit :=
  getWindow this;; emit e.

Definition drawCallback (this : WindowPtr) (time : f64) : M unit :=
  call_window this (DrawCallback this time).
Definition handleResized (this : WindowPtr) (w h : Z) : M unit :=
  call_window this (HandleResized this w h).
Definition notifyShow (this : WindowPtr) : M unit :=
  call_window this (NotifyShow this).
Definition notifyHide (this : WindowPtr) : M unit :=
  call_window this (NotifyHide this).

(** ** [WindowMac]: queries *)

(** [nativeHandle()] is the view: the delegate recovers the window with
    [findWindow((__bridge void* )view)] of the native window's content
    view.  A window without a view has the null handle. *)
Definition nativeHandle_of (w : WindowMac) : Handle :=
  match view_ w with Some v => Npos v | None => 0%N end.

Definition isPopup_of (w : WindowMac) : bool :=
  match decoration_ w with Popup => true | _ => false end.

(** Modelled from the spec: [isEmbedded()] is declared in
    [windowing_macos.h], which is not among the sources; by the spec's data
    model the parent-view reference is non-null only in embedded mode, and
    the constructor of an embedded window is the one that sets it. *)
Definition isEmbedded_of (w : WindowMac) : bool :=
  match parent_view_ w with Some _ => true | None => false end.

Definition isPopup (this : WindowPtr) : M bool :=
  let* w := getWindow this in ret (isPopup_of w).
Definition isEmbedded (this : WindowPtr) : M bool :=
  let* w := getWindow this in ret (isEmbedded_of w).

(** What the registry calls on a [WindowMac*], read from the heap. *)
Definition nativeHandle_in (s : World) (p : WindowPtr) : Handle :=
  match windows s !! p with Some w => nativeHandle_of w | None => 0%N end.

Definition isShowing_in (s : World) (p : WindowPtr) : bool :=
  match windows s !! p with
  | Some w =>
      match window_handle_ w with
      | Some n => match nswindows s !! n with
                  | Some o => isVisible o
                  | None => false
                  end
      | None => false
      end
  | None => false
  end.

Definition closeRequested_in (s : World) (p : WindowPtr) : bool :=
  match windows s !! p with Some w => close_requested_ w | None => true end.

Definition registry_addWindow (this : WindowPtr) : M unit :=
  getWindow this;;
  modify (fun s => world_with_native_window_lookup_
                     (NativeWindowLookup.addWindow (nativeHandle_in s) this
                        (native_window_lookup_ s)) s).

Definition registry_removeWindow (this : WindowPtr) : M unit :=
  getWindow this;;
  modify (fun s => world_with_native_window_lookup_
                     (NativeWindowLookup.removeWindow (nativeHandle_in s) this
                        (native_window_lookup_ s)) s).

Definition registry_anyWindowOpen : M bool :=
  gets (fun s => NativeWindowLookup.anyWindowOpen (isShowing_in s)
                   (native_window_lookup_ s)).

(** [VisageAppDelegate applicationShouldTerminate:] on the registry of the
    process. *)
Definition applicationShouldTerminate : M NSApplicationTerminateReply :=
  gets (fun s => NativeWindowLookup.applicationShouldTerminate
                   (closeRequested_in s) (native_window_lookup_ s)).

(** ** [WindowMac]: the methods the view calls back *)

(** A message to [window_handle_] when it is [nil] does nothing. *)
Definition on_handle (h : option NSWindowPtr) (f : NSWindowPtr -> M unit) : M unit :=
  match h with Some n => f n | None => ret tt end.

Definition resetBackingScale (this : WindowPtr) : M unit :=
  let* w := getWindow this in
  on_handle (window_handle_ w) (fun n =>
    let* o := getNSWindow n in
    setDpiScale this (to_f32 (backingScaleFactor o))).

Definition setParentWindow (this : WindowPtr) (window : NSWindowPtr) : M unit :=
  let* w := getWindow this in
  match parent_view_ w with
  | None => ret tt
  | Some _ =>
      putWindow this (win_with_window_handle_ (Some window) w);;
      on_handle (view_ w) (fun v => emit (MakeFirstResponder window v));;
      emit ActivateIgnoringOtherApps;;
      resetBackingScale this
  end.

Definition hide (this : WindowPtr) : M unit :=
  let* w := getWindow this in
  match window_handle_ w, parent_view_ w with
  | Some n, None =>
      let* o := getNSWindow n in
      putNSWindow n (NSWindow_with_isVisible false o);;
      emit (OrderOut n);;
      notifyHide this
  | _, _ => ret tt
  end.

Definition closeWindow (this : WindowPtr) : M unit :=
  let* w := getWindow this in
  let* rect := match window_handle_ w with
               | Some n => let* o := getNSWindow n in ret (contentLayoutRect o)
               | None => ret NSZeroRect
               end in
  putWindow this (win_with_last_content_rect_ rect w);;
  registry_removeWindow this;;
  hide this;;
  let* w := getWindow this in
  putWindow this (win_with_window_handle_ None w);;
  let* running := gets running_event_loop_ in
  let* open := registry_anyWindowOpen in
  when (running && negb open) (emit NSAppStop).

(** ** [VisageAppView] *)

(** [makeBackingLayer]: a fresh [CAMetalLayer]; a new layer has contents
    scale 1 and an empty drawable. *)
Definition makeBackingLayer : CAMetalLayer :=
  {| contentsScale := one64; drawableSize := CGSizeMake zero zero |}.

Definition updateMetalLayerDrawableSize (self : NSViewPtr) : M unit :=
  let* v := getView self in
  match layer v with
  | None => ret tt
  | Some metalLayer =>
      let* scale :=
        match window v with
        | Some n => let* o := getNSWindow n in ret (backingScaleFactor o)
        | None =>
            if ltb64 zero (contentsScale metalLayer)
            then ret (contentsScale metalLayer)
            else ret one64
        end in
      let size := bounds_size v in
      putView self
        (view_with_layer
           (Some {| contentsScale := scale;
                    drawableSize := CGSizeMake (mul64 (width size) scale)
                                               (mul64 (height size) scale) |}) v);;
      log_every "updateMetalLayerDrawableSize.last_resize_log_us" 1000000 "drawable"
  end.

(** [[super setFrameSize:newSize]] stores the size. *)
Definition setFrameSize (self : NSViewPtr) (newSize : CGSize) : M unit :=
  let* v := getView self in
  putView self (view_with_frame_size newSize v);;
  updateMetalLayerDrawableSize self.

(** [initWithFrame:inWindow:].  [setWantsLayer:YES] makes the view ask
    [makeBackingLayer] for its layer. *)
Definition initWithFrame (frame_rect : NSRect) (window_ : option WindowPtr)
  : M NSViewPtr :=
  let* self := alloc in
  putView self
    {| visage_window := window_; allow_quit := false;
       layer := None; window := None;
       frame_size := rect_size frame_rect;
       draw_count := 0; last_render_us := 0; last_draw_log_us := 0;
       mouse_down_screen_position := {| ns_x := zero; ns_y := zero |};
       occlusion_observed := [] |};;
  let* v := getView self in
  putView self (view_with_layer (Some makeBackingLayer) v);;
  updateMetalLayerDrawableSize self;;
  emit (CVDisplayLinkStart self);;
  visageDebugLog "view";;
  ret self.

Definition drawWindow (self : NSViewPtr) : M unit :=
  let* v := getView self in
  match visage_window v with
  | Some w =>
      let* t := time_microseconds in
      drawCallback w (SFdiv prec64 emax64 (of_Z64 t) (of_Z64 1000000))
  | None => log_every "drawWindow.last_missing_log_us" 1000000 "drawWindow"
  end.

Definition displayLayer (self : NSViewPtr) : M unit :=
  let* v := getView self in
  putView self (view_with_draw_count (uint64 (draw_count v + 1)) v);;
  let* start_us := time_microseconds in
  drawWindow self;;
  let* end_us := time_microseconds in
  let duration_us := uint64 (end_us - start_us) in
  let* v := getView self in
  putView self (view_with_last_render_us end_us v);;
  let* d := gets debug_enabled in
  when d
    (let* slow_or_due :=
       if 12000 <? duration_us then ret true
       else
         let* v := getView self in
         let* r := shouldLogEvery (last_draw_log_us v) 1000000 in
         putView self (view_with_last_draw_log_us (snd r) v);;
         ret (fst r) in
     when slow_or_due (visageDebugLog "displayLayer")).

Definition viewDidChangeBackingProperties (self : NSViewPtr) : M unit :=
  updateMetalLayerDrawableSize self;;
  let* v := getView self in
  match visage_window v with
  | Some w => resetBackingScale w
  | None => ret tt
  end;;
  log_every "viewDidChangeBackingProperties.last_backing_log_us" 1000000 "backing".

Definition viewWillMoveToWindow (self : NSViewPtr) (new_window : option NSWindowPtr)
  : M unit :=
  let* v := getView self in
  match new_window with
  | Some n =>
      (* setAcceptsMouseMovedEvents:, setIgnoresMouseEvents: change nothing
         that the model keeps *)
      emit (MakeFirstResponder n self);;
      match visage_window v with
      | Some w => setParentWindow w n
      | None => ret tt
      end;;
      let* embedded :=
        match visage_window v with
        | Some w => isEmbedded w
        | None => ret false
        end in
      (if negb embedded then
         let* v := getView self in
         putView self
           (view_with_occlusion_observed (occlusion_observed v ++ [n]) v)
       else
         match visage_window v with
         | Some w => setVisible w true
         | None => ret tt
         end);;
      visageDebugLog "window"
  | None =>
      match visage_window v with
      | Some w => closeWindow w
      | None => ret tt
      end
  end.

(** [windowOcclusionChanged:], for the notification of window [n]. *)
Definition windowOcclusionChanged (self : NSViewPtr) (n : NSWindowPtr) : M unit :=
  let* v := getView self in
  let* o := getNSWindow n in
  let occlusion := occlusionState o in
  let visible := negb (Z.land occlusion NSWindowOcclusionStateVisible =? 0) in
  match visage_window v with
  | Some w => setVisible w visible
  | None => ret tt
  end;;
  visageDebugLog "occlusion".

(** *** Pointer events *)

Definition eventPosition (self : NSViewPtr) (event : NSEvent) : M Point :=
  let* v := getView self in
  let view_location := view_location event in
  let view_height := height (frame_size v) in
  let* w := deref (visage_window v) in
  let* scale := dpiScale w in
  let result :=
    Point_scale {| pt_x := to_f32 (ns_x view_location);
                   pt_y := to_f32 (sub64 view_height (ns_y view_location)) |}
                scale in
  log_every "eventPosition.last_coord_log_us" 2000000 "eventPos";;
  ret result.

Definition dragPosition (self : NSViewPtr) (sender : NSEvent) : M Point :=
  let* v := getView self in
  let drag_point := view_location sender in
  let view_height := height (frame_size v) in
  let* w := deref (visage_window v) in
  let* scale := dpiScale w in
  ret (Point_scale {| pt_x := to_f32 (ns_x drag_point);
                      pt_y := to_f32 (sub64 view_height (ns_y drag_point)) |}
                   scale).

Section Input.
Context {K : EventConstants}.

Definition flag (word bit value : Z) : Z :=
  if Z.land word bit =? 0 then 0 else value.

Definition mouseButtonState (event : NSEvent) : Z :=
  let buttons := pressedMouseButtons event in
  Z.lor (Z.lor (flag buttons (Z.shiftl 1 0) kMouseButtonLeft)
               (flag buttons (Z.shiftl 1 1) kMouseButtonRight))
        (flag buttons (Z.shiftl 1 2) kMouseButtonMiddle).

Definition keyboardModifiers (event : NSEvent) : Z :=
  let flags := modifierFlags event in
  Z.lor (Z.lor (Z.lor (flag flags NSEventModifierFlagCommand kModifierCmd)
                      (flag flags NSEventModifierFlagControl kModifierMacCtrl))
               (flag flags NSEventModifierFlagOption kModifierOption))
        (flag flags NSEventModifierFlagShift kModifierShift).

Definition checkRelativeMode (self : NSViewPtr) : M unit :=
  let* v := getView self in
  let* w := deref (visage_window v) in
  let* relative := mouseRelativeMode w in
  when relative (emit (WarpMouseCursor (mouse_down_screen_position v))).

Definition makeKeyWindow (self : NSViewPtr) : M unit :=
  let* v := getView self in
  let* w := deref (visage_window v) in
  let* popup := isPopup w in
  when (negb popup) (on_handle (window v) (fun n => emit (MakeKeyWindow n))).

Definition kPreciseScrollingScale : f32 :=
  SFdiv prec32 emax32 (of_Z32 8) (of_Z32 1000).

Definition scrollWheel (self : NSViewPtr) (event : NSEvent) : M unit :=
  let* point := eventPosition self event in
  let delta_x := to_f32 (deltaX event) in
  let delta_y := to_f32 (deltaY event) in
  let precise_x :=
    if hasPreciseScrollingDeltas event
    then to_f32 (mul64 (scrollingDeltaX event) (to_f64 kPreciseScrollingScale))
    else delta_x in
  let precise_y :=
    if hasPreciseScrollingDeltas event
    then to_f32 (mul64 (scrollingDeltaY event) (to_f64 kPreciseScrollingScale))
    else delta_y in
  let* v := getView self in
  let* w := deref (visage_window v) in
  call_window w (HandleMouseWheel w delta_x delta_y precise_x precise_y
                   (pt_x point) (pt_y point)
                   (mouseButtonState event) (keyboardModifiers event)
                   (in_momentum_phase event)).

(** The body shared by the handlers that forward a move. *)
Definition forwardMouseMove (self : NSViewPtr) (event : NSEvent) : M unit :=
  let* point := eventPosition self event in
  let* v := getView self in
  let* w := deref (visage_window v) in
  call_window w (HandleMouseMove w (pt_x point) (pt_y point)
                   (mouseButtonState event) (keyboardModifiers event)).

Definition mouseMoved (self : NSViewPtr) (event : NSEvent) : M unit :=
  let* point := eventPosition self event in
  log_every "mouseMoved.last_log_us" 1000000 "mouseMoved";;
  let* v := getView self in
  let* w := deref (visage_window v) in
  call_window w (HandleMouseMove w (pt_x point) (pt_y point)
                   (mouseButtonState event) (keyboardModifiers event)).

Definition mouseEntered (self : NSViewPtr) (event : NSEvent) : M unit :=
  forwardMouseMove self event.

Definition mouseExited (self : NSViewPtr) (event : NSEvent) : M unit :=
  let* v := getView self in
  let* w := deref (visage_window v) in
  call_window w (HandleMouseLeave w (mouseButtonState event)
                   (keyboardModifiers event)).

(** The body shared by the three button-down handlers, up to
    [makeKeyWindow]. *)
Definition forwardMouseDown (button : Z) (self : NSViewPtr) (event : NSEvent)
  : M unit :=
  let* point := eventPosition self event in
  let* v := getView self in
  putView self
    (view_with_mouse_down_screen_position (mouseScreenPosition event) v);;
  let* w := deref (visage_window v) in
  call_window w (HandleMouseDown w button (pt_x point) (pt_y point)
                   (mouseButtonState event) (keyboardModifiers event));;
  makeKeyWindow self.

Definition forwardMouseUp (button : Z) (self : NSViewPtr) (event : NSEvent)
  : M unit :=
  let* point := eventPosition self event in
  let* v := getView self in
  let* w := deref (visage_window v) in
  call_window w (HandleMouseUp w button (pt_x point) (pt_y point)
                   (mouseButtonState event) (keyboardModifiers event)).

(** [mouseDown:].  [drag_source] is what [isDragDropSource()] and
    [startDragDropSource()] answer: the file to drag, if the frame under
    the pointer is a drag source. *)
Definition mouseDown (drag_source : option string) (self : NSViewPtr)
           (event : NSEvent) : M unit :=
  let* point := eventPosition self event in
  let* v := getView self in
  putView self
    (view_with_mouse_down_screen_position (mouseScreenPosition event) v);;
  log_every "mouseDown.last_log_us" 100000 "mouseDown";;
  let* w := deref (visage_window v) in
  call_window w (HandleMouseDown w kMouseButtonLeft (pt_x point) (pt_y point)
                   (mouseButtonState event) (keyboardModifiers event));;
  makeKeyWindow self;;
  match drag_source with
  | Some file => emit (BeginDraggingSession self file)
  | None => ret tt
  end.

Definition mouseUp := forwardMouseUp kMouseButtonLeft.

Definition mouseDragged (self : NSViewPtr) (event : NSEvent) : M unit :=
  forwardMouseMove self event;; checkRelativeMode self.

Definition rightMouseDown := forwardMouseDown kMouseButtonRight.
Definition rightMouseUp := forwardMouseUp kMouseButtonRight.
Definition rightMouseDragged := mouseDragged.

Definition otherMouseDown (self : NSViewPtr) (event : NSEvent) : M unit :=
  if negb (buttonNumber event =? 2) then ret tt
  else forwardMouseDown kMouseButtonMiddle self event.

Definition otherMouseUp (self : NSViewPtr) (event : NSEvent) : M unit :=
  if negb (buttonNumber event =? 2) then ret tt
  else forwardMouseUp kMouseButtonMiddle self event.

Definition otherMouseDragged := mouseDragged.

(** [dragFiles:] (entered and updated) and [performDragOperation:]; the
    answer of the window's handler decides only the returned drag
    operation. *)
Definition dragFiles (self : NSViewPtr) (sender : NSEvent) : M unit :=
  let* drag_point := dragPosition self sender in
  let* v := getView self in
  let* w := deref (visage_window v) in
  call_window w (HandleFileDrag w (pt_x drag_point) (pt_y drag_point)
                   (dropFileList sender)).

Definition performDragOperation (self : NSViewPtr) (sender : NSEvent) : M unit :=
  let* drag_point := dragPosition self sender in
  let* v := getView self in
  let* w := deref (visage_window v) in
  call_window w (HandleFileDrop w (pt_x drag_point) (pt_y drag_point)
                   (dropFileList sender)).

(** The pointer events AppKit sends to the view. *)
Inductive PointerEvent :=
  | MouseMoved | MouseEntered | MouseExited
  | MouseDown (drag_source : option string) | MouseUp | MouseDragged
  | RightMouseDown | RightMouseUp | RightMouseDragged
  | OtherMouseDown | OtherMouseUp | OtherMouseDragged
  | ScrollWheel
  | DraggingEntered | DraggingUpdated | PerformDragOperation.

Definition dispatch (k : PointerEvent) : NSViewPtr -> NSEvent -> M unit :=
  match k with
  | MouseMoved => mouseMoved
  | MouseEntered => mouseEntered
  | MouseExited => mouseExited
  | MouseDown drag_source => mouseDown drag_source
  | MouseUp => mouseUp
  | MouseDragged => mouseDragged
  | RightMouseDown => rightMouseDown
  | RightMouseUp => rightMouseUp
  | RightMouseDragged => rightMouseDragged
  | OtherMouseDown => otherMouseDown
  | OtherMouseUp => otherMouseUp
  | OtherMouseDragged => otherMouseDragged
  | ScrollWheel => scrollWheel
  | DraggingEntered | DraggingUpdated => dragFiles
  | PerformDragOperation => performDragOperation
  end.

(** The events that make the view call a handler with a position: all but
    the exit of the pointer, and the other-button events of a button that
    is not the middle one. *)
Definition has_position (k : PointerEvent) (event : NSEvent) : bool :=
  match k with
  | MouseExited => false
  | OtherMouseDown | OtherMouseUp => buttonNumber event =? 2
  | _ => true
  end.

End Input.

(** ** AppKit's side of the view hierarchy *)

(** [[window setContentView:view]]: AppKit announces the move to the view,
    puts the view in the window and sizes it to the content area. *)
Definition setContentView (n : NSWindowPtr) (view : NSViewPtr) : M unit :=
  let* o := getNSWindow n in
  putNSWindow n (NSWindow_with_contentView (Some view) o);;
  viewWillMoveToWindow view (Some n);;
  let* v := getView view in
  putView view (view_with_window (Some n) v);;
  setFrameSize view (rect_size (contentLayoutRect o)).

(** [[parent addSubview:view]], where [parent_window] is the window the
    parent view is in, if it is in one. *)
Definition addSubview (parent : NSViewPtr) (parent_window : option NSWindowPtr)
           (view : NSViewPtr) : M unit :=
  emit (AddSubview parent view);;
  match parent_window with
  | Some n =>
      viewWillMoveToWindow view (Some n);;
      let* v := getView view in
      putView view (view_with_window (Some n) v)
  | None => ret tt
  end.

(** [[view removeFromSuperview]] *)
Definition removeFromSuperview (view : NSViewPtr) : M unit :=
  emit (RemoveFromSuperview view);;
  let* v := getView view in
  match window v with
  | Some _ =>
      viewWillMoveToWindow view None;;
      let* v := getView view in
      putView view (view_with_window None v)
  | None => ret tt
  end.

(** Core Animation asks the layer for [n] redraws in a row. *)
Fixpoint redraws (n : nat) (self : NSViewPtr) : M unit :=
  match n with
  | O => ret tt
  | S n' => displayLayer self;; redraws n' self
  end.

(** The views to which the notification centre delivers the occlusion
    notification of the window [n]: each view once per registration. *)
Definition occlusion_observers (n : NSWindowPtr)
           (vs : gmap NSViewPtr VisageAppView) : list NSViewPtr :=
  flat_map (fun av => map (fun _ => fst av)
                          (filter (fun m => m = n) (occlusion_observed (snd av))))
           (map_to_list vs).

Fixpoint deliver_occlusion (n : NSWindowPtr) (observers : list NSViewPtr) : M unit :=
  match observers with
  | [] => ret tt
  | a :: rest => windowOcclusionChanged a n;; deliver_occlusion n rest
  end.

(** The occlusion state of the native window [n] becomes [state], and
    AppKit posts [NSWindowDidChangeOcclusionStateNotification] for it. *)
Definition occlusionStateChanged (n : NSWindowPtr) (state : Z) : M unit :=
  let* o := getNSWindow n in
  putNSWindow n (NSWindow_with_occlusionState state o);;
  let* vs := gets views in
  deliver_occlusion n (occlusion_observers n vs).

(** What a host does to the view of an embedded window: it puts the view's
    hierarchy in one of its windows, takes it out, and its window manager
    changes the occlusion of a window. *)
Inductive HostEvent :=
  | HostAttach (n : NSWindowPtr)
  | HostDetach
  | HostOcclusion (n : NSWindowPtr) (state : Z).

Definition host_event (self : NSViewPtr) (e : HostEvent) : M unit :=
  match e with
  | HostAttach n =>
      viewWillMoveToWindow self (Some n);;
      let* v := getView self in
      putView self (view_with_window (Some n) v)
  | HostDetach =>
      viewWillMoveToWindow self None;;
      let* v := getView self in
      putView self (view_with_window None v)
  | HostOcclusion n state => occlusionStateChanged n state
  end.

Fixpoint host_events (self : NSViewPtr) (es : list HostEvent) : M unit :=
  match es with
  | [] => ret tt
  | e :: rest => host_event self e;; host_events self rest
  end.

(** The native windows that the events name. *)
Definition host_windows (es : list HostEvent) : list NSWindowPtr :=
  flat_map (fun e => match e with
                     | HostAttach n | HostOcclusion n _ => [n]
                     | HostDetach => []
                     end) es.

Definition is_attach (e : HostEvent) : bool :=
  match e with HostAttach _ => true | _ => false end.

(** ** [WindowMac]: life cycle *)

Definition kNativeStyle : Z :=
  Z.lor (Z.lor (Z.lor NSWindowStyleMaskTitled NSWindowStyleMaskResizable)
               NSWindowStyleMaskMiniaturizable) NSWindowStyleMaskClosable.
Definition kClientStyle : Z := Z.lor kNativeStyle NSWindowStyleMaskFullSizeContentView.
Definition kPopupStyle : Z := NSWindowStyleMaskBorderless.

(** [[[NSWindow alloc] initWithContentRect:styleMask:backing:defer:]]: a new
    native top-level window, not yet on screen. *)
Definition NSWindow_alloc (content_rect : NSRect) (style_mask : Z) : M NSWindowPtr :=
  let* n := alloc in
  let* scale := gets screen_scale in
  putNSWindow n {| styleMask := style_mask; level := NSNormalWindowLevel;
                   titlebarAppearsTransparent := false;
                   backingScaleFactor := scale; occlusionState := 0;
                   isVisible := false; contentView := None;
                   contentLayoutRect := content_rect |};;
  ret n.

Definition createWindow (this : WindowPtr) : M unit :=
  let* w := getWindow this in
  let style_mask :=
    match decoration_ w with
    | Popup => kPopupStyle
    | Client => kClientStyle
    | Native => kNativeStyle
    end in
  let* window := NSWindow_alloc (last_content_rect_ w) style_mask in
  let* o := getNSWindow window in
  match decoration_ w with
  | Popup => putNSWindow window (NSWindow_with_level NSStatusWindowLevel o)
  | Client => putNSWindow window (NSWindow_with_titlebarAppearsTransparent true o)
  | Native => ret tt
  end;;
  putWindow this (win_with_window_handle_ (Some window) w);;
  setDpiScale this (to_f32 (backingScaleFactor o));;
  let* scale := dpiScale this in
  let client_width :=
    round_to_Z (mul64 (width (rect_size (last_content_rect_ w))) (to_f64 scale)) in
  let client_height :=
    round_to_Z (mul64 (height (rect_size (last_content_rect_ w))) (to_f64 scale)) in
  handleResized this client_width client_height;;
  let* view := deref (view_ w) in
  setContentView window view;;
  emit (MakeFirstResponder window view).

(** Modelled from the spec: the constructor of the base class,
    [Window(width, height)], and the default member initialisers of
    [WindowMac] are in headers that are not among the sources.  A new
    window has no native window, no view and no parent view yet; it counts
    as visible until told otherwise and agrees to close. *)
Definition Window_base (decoration : Decoration) : WindowMac :=
  {| dpi_scale_ := one32; visible_ := true; mouse_relative_mode_ := false;
     close_requested_ := true;
     window_handle_ := None; view_ := None; parent_view_ := None;
     decoration_ := decoration; last_content_rect_ := NSZeroRect |}.

(** [WindowMac::WindowMac(x, y, width, height, scale, decoration)]: the
    standalone window. *)
Definition WindowMac_standalone (x y width height : Z) (scale : f32)
           (decoration : Decoration) : M WindowPtr :=
  let* this := alloc in
  putWindow this (Window_base decoration);;
  setDpiScale this scale;;
  let ratio (z : Z) : f64 := to_f64 (div32 (of_Z32 z) scale) in
  let* w := getWindow this in
  putWindow this
    (win_with_last_content_rect_
       (NSMakeRect (ratio x) (ratio y) (ratio width) (ratio height)) w);;
  let rect := NSMakeRect zero zero (ratio width) (ratio height) in
  let* view := initWithFrame rect (Some this) in
  let* w := getWindow this in
  putWindow this (win_with_view_ (Some view) w);;
  let* v := getView view in
  putView view (view_with_allow_quit true v);;
  createWindow this;;
  registry_addWindow this;;
  ret this.

(** [WindowMac::WindowMac(width, height, scale, parent_handle)]: the
    embedded window.  [parent_window] is the host window the parent view is
    in at that time, if any. *)
Definition WindowMac_embedded (width height : Z) (scale : f32)
           (parent_handle : NSViewPtr) (parent_window : option NSWindowPtr)
  : M WindowPtr :=
  let* this := alloc in
  let base := Window_base Native in
  putWindow this
    {| dpi_scale_ := dpi_scale_ base; visible_ := visible_ base;
       mouse_relative_mode_ := mouse_relative_mode_ base;
       close_requested_ := close_requested_ base;
       window_handle_ := None; view_ := None;
       parent_view_ := Some parent_handle;
       decoration_ := decoration_ base;
       last_content_rect_ := last_content_rect_ base |};;
  let ratio (z : Z) : f64 := to_f64 (div32 (of_Z32 z) scale) in
  let view_frame := NSMakeRect zero zero (ratio width) (ratio height) in
  let* view := initWithFrame view_frame (Some this) in
  let* w := getWindow this in
  putWindow this (win_with_view_ (Some view) w);;
  let* v := getView view in
  putView view (view_with_allow_quit false v);;
  addSubview parent_handle parent_window view;;
  registry_addWindow this;;
  ret this.

Definition show (this : WindowPtr) : M unit :=
  let* w := getWindow this in
  match parent_view_ w with
  | None =>
      match window_handle_ w with
      | None => createWindow this
      | Some _ => ret tt
      end;;
      let* w := getWindow this in
      on_handle (window_handle_ w) (fun n =>
        let* o := getNSWindow n in
        putNSWindow n (NSWindow_with_isVisible true o);;
        if isPopup_of w then emit (OrderFront n)
        else emit (MakeKeyAndOrderFront n))
  | Some _ => ret tt
  end;;
  notifyShow this.

(** [WindowMac::~WindowMac()]; the object is gone afterwards, the view
    lives on while AppKit or a queued redraw holds it. *)
Definition WindowMac_destroy (this : WindowPtr) : M unit :=
  registry_removeWindow this;;
  hide this;;
  let* w := getWindow this in
  on_handle (view_ w) (fun view =>
    let* v := getView view in
    putView view (view_with_visage_window None v));;
  match parent_view_ w with
  | Some _ => on_handle (view_ w) removeFromSuperview
  | None => ret tt
  end;;
  modify (fun s => world_with_windows (delete this (windows s)) s).

(** A process in which nothing has been created yet. *)
Definition boot (debug : bool) (clock : nat -> Z) (scale : f64) : World :=
  {| debug_enabled := debug; microseconds := clock; clock_reads := 0;
     statics := ∅; stderr := []; trace := []; next_object := 1%positive;
     screen_scale := scale; native_window_lookup_ := ∅;
     running_event_loop_ := false;
     nswindows := ∅; windows := ∅; views := ∅ |}.

(** *** Framework coordinates *)

(** The point [(x * s, (H - y) * s)] in the arithmetic of the code: the
    view-local [CGFloat] coordinates, the second one flipped in the height
    [H] of the view, are narrowed to [float] and multiplied by the [float]
    scale. *)
Definition framework_point (p : NSPoint) (H : f64) (s : f32) : Point :=
  {| pt_x := mul32 (to_f32 (ns_x p)) s;
     pt_y := mul32 (to_f32 (sub64 H (ns_y p))) s |}.

(** The position a call of a window handler carries. *)
Definition position_of (e : Event) : option Point :=
  match e with
  | HandleMouseDown _ _ px py _ _
  | HandleMouseUp _ _ px py _ _
  | HandleMouseMove _ px py _ _
  | HandleMouseWheel _ _ _ _ _ px py _ _ _
  | HandleFileDrag _ px py _
  | HandleFileDrop _ px py _ => Some {| pt_x := px; pt_y := py |}
  | _ => None
  end.

(** *** Example processes *)

(** A registry client in which each window's handle is its own address. *)
Definition handle_of_address (w : WindowPtr) : Handle := Npos w.

(** ... and one in which all windows answer the same native handle. *)
Definition same_handle (_ : WindowPtr) : Handle := 7%N.

(** The state a method leaves (the state it started from where it has no
    result). *)
Definition state_after {A} (m : M A) (s : World) : World :=
  match m s with Some (_, s') => s' | None => s end.

(** A clock that advances by a 60 Hz frame per reading. *)
Definition frame_clock (n : nat) : Z := 1000000 + 16667 * Z.of_nat n.

(** A process with diagnostics on, on a display of scale 2. *)
Definition retina_process : World := boot true frame_clock (of_Z64 2).

(** ... in which a standalone window of 1600 by 1200 pixels was created:
    the window is object 1, its view object 2, its native window
    object 3. *)
Definition process_with_standalone_window : World :=
  state_after (WindowMac_standalone 100 100 1600 1200 (of_Z32 2) Native)
              retina_process.

(** The fields of that window and of its view: 800 by 600 points at
    (50, 50), a drawable of 1600 by 1200 pixels. *)
Definition the_standalone_window : WindowMac :=
  {| dpi_scale_ := of_Z32 2; visible_ := true; mouse_relative_mode_ := false;
     close_requested_ := true;
     window_handle_ := Some 3%positive; view_ := Some 2%positive;
     parent_view_ := None; decoration_ := Native;
     last_content_rect_ :=
       NSMakeRect (of_Z64 50) (of_Z64 50) (of_Z64 800) (of_Z64 600) |}.

Definition the_standalone_view : VisageAppView :=
  {| visage_window := Some 1%positive; allow_quit := true;
     layer := Some {| contentsScale := of_Z64 2;
                      drawableSize := CGSizeMake (of_Z64 1600) (of_Z64 1200) |};
     window := Some 3%positive;
     frame_size := CGSizeMake (of_Z64 800) (of_Z64 600);
     draw_count := 0; last_render_us := 0; last_draw_log_us := 0;
     mouse_down_screen_position := {| ns_x := zero; ns_y := zero |};
     occlusion_observed := [3%positive] |}.

(** Values for the framework's event constants, for the examples: one bit
    each. *)
Definition example_constants : EventConstants :=
  {| kMouseButtonLeft := 1; kMouseButtonMiddle := 2; kMouseButtonRight := 4;
     kModifierShift := 1; kModifierMacCtrl := 4; kModifierOption := 8;
     kModifierCmd := 16 |}.

(** An event of the left button at the view-local point [(px, py)], no
    modifier held. *)
Definition click_at (px py : Z) : NSEvent :=
  {| view_location := {| ns_x := of_Z64 px; ns_y := of_Z64 py |};
     modifierFlags := 0; buttonNumber := 0;
     deltaX := zero; deltaY := zero; hasPreciseScrollingDeltas := false;
     scrollingDeltaX := zero; scrollingDeltaY := zero;
     in_momentum_phase := false; pressedMouseButtons := 1;
     mouseScreenPosition := {| ns_x := of_Z64 px; ns_y := of_Z64 py |};
     dropFileList := [] |}.

(** *** The states the life cycle leaves *)

(** The native window that [createWindow] makes for the decoration [d]. *)
Definition new_native_window (d : Decoration) (content_rect : NSRect)
           (scale : f64) (view : NSViewPtr) : NSWindow :=
  {| styleMask := match d with
                  | Popup => kPopupStyle
                  | Client => kClientStyle
                  | Native => kNativeStyle
                  end;
     level := match d with
              | Popup => NSStatusWindowLevel
              | _ => NSNormalWindowLevel
              end;
     titlebarAppearsTransparent := match d with Client => true | _ => false end;
     backingScaleFactor := scale; occlusionState := 0; isVisible := false;
     contentView := Some view; contentLayoutRect := content_rect |}.

(** The layer that [updateMetalLayerDrawableSize] leaves behind. *)
Definition updated_layer (scale : f64) (v : VisageAppView) : CAMetalLayer :=
  {| contentsScale := scale;
     drawableSize := CGSizeMake (mul64 (width (bounds_size v)) scale)
                                (mul64 (height (bounds_size v)) scale) |}.

(** The view once it is the content view of the native window [n]. *)
Definition content_view_of (n : NSWindowPtr) (content_size : CGSize) (scale : f64)
           (v : VisageAppView) : VisageAppView :=
  let v1 := view_with_frame_size content_size
              (view_with_window (Some n)
                 (view_with_occlusion_observed (occlusion_observed v ++ [n]) v)) in
  match layer v with
  | Some _ => view_with_layer (Some (updated_layer scale v1)) v1
  | None => v1
  end.

(** The process after [createWindow] on the window [this] with the fields
    [wm], whose view [view] has the fields [v]. *)
Definition after_createWindow (this : WindowPtr) (wm : WindowMac)
           (view : NSViewPtr) (v : VisageAppView) (s : World) : World :=
  let n := next_object s in
  let scale := to_f32 (screen_scale s) in
  let rect := last_content_rect_ wm in
  world_with_trace
    (trace s ++ [HandleResized this
                   (round_to_Z (mul64 (width (rect_size rect)) (to_f64 scale)))
                   (round_to_Z (mul64 (height (rect_size rect)) (to_f64 scale)));
                 MakeFirstResponder n view; MakeFirstResponder n view])
    (world_with_views
       (<[view := content_view_of n (rect_size rect) (screen_scale s) v]> (views s))
       (world_with_windows
          (<[this := win_with_dpi_scale_ scale
                       (win_with_window_handle_ (Some n) wm)]> (windows s))
          (world_with_nswindows
             (<[n := new_native_window (decoration_ wm) rect (screen_scale s) view]>
                (nswindows s))
             (world_with_next_object (Pos.succ n) s)))).

(** The process after [show] has ordered the native window [n], with the
    fields [o], to the front. *)
Definition after_show (this : WindowPtr) (wm : WindowMac) (n : NSWindowPtr)
           (o : NSWindow) (s : World) : World :=
  world_with_trace
    (trace s ++ [if isPopup_of wm then OrderFront n else MakeKeyAndOrderFront n;
                 NotifyShow this])
    (world_with_nswindows (<[n := NSWindow_with_isVisible true o]> (nswindows s)) s).

(** C1 as stated: the construction of a standalone window leaves it
    without native window. *)
Definition native_window_is_created_lazily : Prop :=
  forall x y width height scale decoration s this s',
    WindowMac_standalone x y width height scale decoration s = Some (this, s') ->
    exists wm, windows s' !! this = Some wm /\ window_handle_ wm = None.

(** *** Embedded windows *)

(** What [isVisible()] of the window [this] would answer. *)
Definition visible_in (s : World) (this : WindowPtr) : option bool :=
  visible_ <$> windows s !! this.

(** The window [this] is an embedded window (it has a parent view) that is
    alive with its native window, if it has one; its view [self] points
    back to it and observes the occlusion of no window; and every view that
    does observe one belongs to another window, which is alive. *)
Definition embedded_inv (this : WindowPtr) (self : NSViewPtr) (s : World) : Prop :=
  (exists wm p, windows s !! this = Some wm
                /\ parent_view_ wm = Some p
                /\ forall h, window_handle_ wm = Some h -> is_Some (nswindows s !! h))
  /\ (exists v, views s !! self = Some v
                /\ visage_window v = Some this
                /\ occlusion_observed v = [])
  /\ (forall a v' w', views s !! a = Some v' ->
                      occlusion_observed v' <> [] ->
                      visage_window v' = Some w' ->
                      w' <> this /\ is_Some (windows s !! w')).

(** The window [this] is left alone: the views, the native windows and the
    registry are as before, no window object is freed. *)
Definition leaves_alone (this : WindowPtr) (s s' : World) : Prop :=
  views s' = views s
  /\ nswindows s' = nswindows s
  /\ native_window_lookup_ s' = native_window_lookup_ s
  /\ windows s' !! this = windows s !! this
  /\ forall w, is_Some (windows s !! w) -> is_Some (windows s' !! w).

(** A host process: [retina_process] with the host's window, object 10,
    on screen. *)
Definition host_window : NSWindow :=
  {| styleMask := kNativeStyle; level := NSNormalWindowLevel;
     titlebarAppearsTransparent := false; backingScaleFactor := of_Z64 2;
     occlusionState := NSWindowOcclusionStateVisible; isVisible := true;
     contentView := None; contentLayoutRect := NSZeroRect |}.

Definition host_process : World :=
  world_with_nswindows {[ 10%positive := host_window ]} retina_process.

(** A process on a display of scale 1, diagnostics off, with the same
    standalone window. *)
Definition plain_process_with_standalone_window : World :=
  state_after (WindowMac_standalone 100 100 1600 1200 (of_Z32 1) Native)
              (boot false frame_clock (of_Z64 1)).

(** The drawable of the view [view] once [setFrameSize:] has given it the
    size [w] by [h]. *)
Definition drawable_after_resize (s : World) (view : NSViewPtr) (w h : Z)
  : option CGSize :=
  let s' := state_after (setFrameSize view (CGSizeMake (of_Z64 w) (of_Z64 h))) s in
  match views s' !! view with
  | Some v => drawableSize <$> layer v
  | None => None
  end.

(** Three windows, of which window 2 does not agree to close. *)
Definition all_but_two (w : WindowPtr) : bool := negb (Pos.eqb w 2).

(** ** The vocabulary of the properties *)

(** [returns m s Q]: run in [s] the method [m] is defined, and its result
    and final state satisfy [Q]. *)
Definition returns {A} (m : M A) (s : World) (Q : A -> World -> Prop) : Prop :=
  exists a s', m s = Some (a, s') /\ Q a s'.

(** [quiet s s']: from [s] to [s'] only the clock, the rate limiters and
    the diagnostic log moved, and the log not at all when diagnostics are
    off. *)
Definition quiet (s s' : World) : Prop :=
  debug_enabled s' = debug_enabled s
  /\ microseconds s' = microseconds s
  /\ trace s' = trace s
  /\ next_object s' = next_object s
  /\ screen_scale s' = screen_scale s
  /\ native_window_lookup_ s' = native_window_lookup_ s
  /\ running_event_loop_ s' = running_event_loop_ s
  /\ nswindows s' = nswindows s
  /\ windows s' = windows s
  /\ views s' = views s
  /\ (debug_enabled s = false -> stderr s' = stderr s).

(** The view has a Metal layer, and the drawable of the layer is the size
    of the view's bounds times the layer's contents scale. *)
Definition drawable_matches (v : VisageAppView) : Prop :=
  exists l, layer v = Some l
            /\ drawableSize l =
               CGSizeMake (mul64 (width (bounds_size v)) (contentsScale l))
                          (mul64 (height (bounds_size v)) (contentsScale l)).

(** The contents scale of the layer is the backing scale of the window the
    view is in, when it is in one. *)
Definition scale_follows_window (s : World) (v : VisageAppView) : Prop :=
  forall n o l, window v = Some n -> nswindows s !! n = Some o ->
                layer v = Some l -> contentsScale l = backingScaleFactor o.

(** The window the view is in, if any, is alive. *)
Definition window_alive (s : World) (v : VisageAppView) : Prop :=
  forall n, window v = Some n -> is_Some (nswindows s !! n).

(** The window object behind the view, if any, is alive, and so is its
    native window. *)
Definition owner_alive (s : World) (v : VisageAppView) : Prop :=
  forall w, visage_window v = Some w ->
            exists wm, windows s !! w = Some wm
                       /\ forall n, window_handle_ wm = Some n ->
                                    is_Some (nswindows s !! n).

(** [s'] is [s] with the view at [self] replaced by [v'], up to
    diagnostics. *)
Definition view_becomes (self : NSViewPtr) (v' : VisageAppView) (s s' : World)
  : Prop :=
  quiet (world_with_views (<[self := v']> (views s)) s) s'.

(** What a redraw of a view without owner leaves alone: no call leaves the
    view, no window object, native window or registry entry changes, and
    nothing is written to [stderr] unless diagnostics are on. *)
Definition skipped (s s' : World) : Prop :=
  trace s' = trace s
  /\ windows s' = windows s
  /\ nswindows s' = nswindows s
  /\ native_window_lookup_ s' = native_window_lookup_ s
  /\ debug_enabled s' = debug_enabled s
  /\ (debug_enabled s = false -> stderr s' = stderr s).

(** Every call in [es] that carries a position carries [p]. *)
Definition all_at (p : Point) (es : list Event) : Prop :=
  Forall (fun e => forall q, position_of e = Some q -> q = p) es.

(** Some call in [es] carries the position [p]. *)
Definition some_at (p : Point) (es : list Event) : Prop :=
  Exists (fun e => position_of e = Some p) es.

(** What the constructor of a standalone window leaves: the window
    object [this] with its view, the view's Metal layer, the native window
    [n] of the decoration's style holding the view, not yet on screen, and
    the registry entry. *)
Definition constructed (decoration : Decoration) (scale : f64)
           (this : WindowPtr) (n : NSWindowPtr) (s1 : World) : Prop :=
  exists wm view v,
    windows s1 !! this = Some wm
    /\ decoration_ wm = decoration /\ parent_view_ wm = None
    /\ view_ wm = Some view /\ window_handle_ wm = Some n
    /\ views s1 !! view = Some v
    /\ visage_window v = Some this /\ window v = Some n
    /\ drawable_matches v
    /\ nswindows s1 !! n =
         Some (new_native_window decoration (last_content_rect_ wm) scale view)
    /\ NativeWindowLookup.findWindow (Npos view) (native_window_lookup_ s1)
         = Some this
    /\ next_object s1 = Pos.succ n.

(** ** [ApplicationEditor] *)

Module ApplicationEditor.

Definition FramePtr := positive.

(** The canvas as the editor uses it: the frames drawn to their regions
    since the start, in order, and the number of submitted frames. *)
Record Canvas := {
  drawn : list FramePtr;
  submitted : nat
}.

(** The attached [Window], by what [isVisible()] answers. *)
Record Window := { isVisible : bool }.

Record Editor := {
  window_ : option Window;
  (** [width()], [height()] of the frame *)
  width : f32;
  height : f32;
  initialized : bool;
  stale_children_ : list FramePtr;
  drawing_children_ : list FramePtr;
  canvas_ : Canvas;
  (** [visageDebugEnabled()] and the diagnostic log on [stderr] *)
  debug_enabled : bool;
  log : list string;
  (** the three [static uint64_t] of [drawWindow] *)
  last_hidden_log_us : Z;
  last_size_log_us : Z;
  last_log_us : Z
}.

Definition with_stale (l : list FramePtr) (e : Editor) : Editor :=
  {| window_ := window_ e; width := width e; height := height e;
     initialized := initialized e; stale_children_ := l;
     drawing_children_ := drawing_children_ e; canvas_ := canvas_ e;
     debug_enabled := debug_enabled e; log := log e;
     last_hidden_log_us := last_hidden_log_us e;
     last_size_log_us := last_size_log_us e; last_log_us := last_log_us e |}.

Definition with_drawing (l : list FramePtr) (e : Editor) : Editor :=
  {| window_ := window_ e; width := width e; height := height e;
     initialized := initialized e; stale_children_ := stale_children_ e;
     drawing_children_ := l; canvas_ := canvas_ e;
     debug_enabled := debug_enabled e; log := log e;
     last_hidden_log_us := last_hidden_log_us e;
     last_size_log_us := last_size_log_us e; last_log_us := last_log_us e |}.

Definition with_canvas (c : Canvas) (e : Editor) : Editor :=
  {| window_ := window_ e; width := width e; height := height e;
     initialized := initialized e; stale_children_ := stale_children_ e;
     drawing_children_ := drawing_children_ e; canvas_ := c;
     debug_enabled := debug_enabled e; log := log e;
     last_hidden_log_us := last_hidden_log_us e;
     last_size_log_us := last_size_log_us e; last_log_us := last_log_us e |}.

Definition with_initialized (b : bool) (e : Editor) : Editor :=
  {| window_ := window_ e; width := width e; height := height e;
     initialized := b; stale_children_ := stale_children_ e;
     drawing_children_ := drawing_children_ e; canvas_ := canvas_ e;
     debug_enabled := debug_enabled e; log := log e;
     last_hidden_log_us := last_hidden_log_us e;
     last_size_log_us := last_size_log_us e; last_log_us := last_log_us e |}.

(** One rate-limited log line: [now - last >= 1000000] in [uint64_t]. *)
Definition due (now last : Z) : bool := 1000000 <=? uint64 (now - last).

Definition log_hidden (now : Z) (e : Editor) : Editor :=
  if debug_enabled e && due now (last_hidden_log_us e) then
    {| window_ := window_ e; width := width e; height := height e;
       initialized := initialized e; stale_children_ := stale_children_ e;
       drawing_children_ := drawing_children_ e; canvas_ := canvas_ e;
       debug_enabled := debug_enabled e;
       log := log e ++ ["drawWindow: skipped (window hidden)"%string];
       last_hidden_log_us := now;
       last_size_log_us := last_size_log_us e; last_log_us := last_log_us e |}
  else e.

Definition log_size (now : Z) (e : Editor) : Editor :=
  if debug_enabled e && due now (last_size_log_us e) then
    {| window_ := window_ e; width := width e; height := height e;
       initialized := initialized e; stale_children_ := stale_children_ e;
       drawing_children_ := drawing_children_ e; canvas_ := canvas_ e;
       debug_enabled := debug_enabled e;
       log := log e ++ ["drawWindow: skipped (size=0x0)"%string];
       last_hidden_log_us := last_hidden_log_us e;
       last_size_log_us := now; last_log_us := last_log_us e |}
  else e.

Definition log_draw (now : Z) (e : Editor) : Editor :=
  if debug_enabled e && due now (last_log_us e) then
    {| window_ := window_ e; width := width e; height := height e;
       initialized := initialized e; stale_children_ := stale_children_ e;
       drawing_children_ := drawing_children_ e; canvas_ := canvas_ e;
       debug_enabled := debug_enabled e;
       log := log e ++ ["drawWindow: visible"%string];
       last_hidden_log_us := last_hidden_log_us e;
       last_size_log_us := last_size_log_us e; last_log_us := now |}
  else e.

Section Frames.

(** The frames are the framework's: whether a child is drawing, and the
    frames that ask for a redraw while a child draws to its region or
    while the editor is initialised. *)
Variable isDrawing : FramePtr -> bool.
Variable redraws : FramePtr -> list FramePtr.
Variable init_redraws : list FramePtr.

Definition found (frame : FramePtr) (l : list FramePtr) : bool :=
  existsb (Pos.eqb frame) l.

(** [event_handler_.request_redraw] *)
Definition request_redraw (frame : FramePtr) (stale : list FramePtr)
  : list FramePtr :=
  if found frame stale then stale else stale ++ [frame].

(** [child->drawToRegion( *canvas_)] on the editor whose stale list is
    [stale]. *)
Definition drawToRegion (child : FramePtr) (c : Canvas) (stale : list FramePtr)
  : Canvas * list FramePtr :=
  ({| drawn := drawn c ++ [child]; submitted := submitted c |},
   fold_left (fun st f => request_redraw f st) (redraws child) stale).

(** The first loop of [drawStaleChildren]. *)
Fixpoint draw_drawing (children : list FramePtr) (c : Canvas)
         (stale : list FramePtr) : Canvas * list FramePtr :=
  match children with
  | [] => (c, stale)
  | child :: rest =>
      let '(c', stale') :=
        if isDrawing child then drawToRegion child c stale else (c, stale) in
      draw_drawing rest c' stale'
  end.

(** The second loop: the iterator stands after [before]; [child] and
    [after] are still to visit.  A child erased may have asked for more
    redraws, which lengthen the list, so the loop is run on fuel. *)
Fixpoint draw_requested (fuel : nat) (drawing : list FramePtr) (c : Canvas)
         (before after : list FramePtr) : option (Canvas * list FramePtr) :=
  match after with
  | [] => Some (c, before)
  | child :: rest =>
      match fuel with
      | O => None
      | S fuel' =>
          if found child drawing
          then draw_requested fuel' drawing c (before ++ [child]) rest
          else
            let '(c', stale') := drawToRegion child c (before ++ child :: rest) in
            draw_requested fuel' drawing c' before
                           (drop (S (length before)) stale')
      end
  end.

Definition drawStaleChildren (fuel : nat) (e : Editor) : option Editor :=
  let drawing := stale_children_ e in
  let '(c, stale) := draw_drawing drawing (canvas_ e) [] in
  match draw_requested fuel drawing c [] stale with
  | Some (c', stale') =>
      Some (with_drawing [] (with_canvas c' (with_stale stale' e)))
  | None => None
  end.

(** [Frame::init()] is the framework's; the model keeps that it marks
    the editor initialised and which frames ask for a redraw meanwhile. *)
Definition init (e : Editor) : Editor :=
  with_initialized true
    (with_stale (fold_left (fun st f => request_redraw f st) init_redraws
                           (stale_children_ e)) e).

(** [ApplicationEditor::drawWindow()]; [now] is what
    [time::microseconds()] reads if the call asks for it. *)
Definition drawWindow (fuel : nat) (now : Z) (e : Editor) : option Editor :=
  if match window_ e with Some w => negb (isVisible w) | None => false end
  then Some (log_hidden now e)
  else if eqb32 (width e) zero || eqb32 (height e) zero
  then Some (log_size now e)
  else
    let e := log_draw now e in
    let e := if negb (initialized e) then init e else e in
    match stale_children_ e with
    | [] => Some e
    | _ :: _ =>
        match drawStaleChildren fuel e with
        | Some e' =>
            Some (with_canvas {| drawn := drawn (canvas_ e');
                                 submitted := S (submitted (canvas_ e')) |} e')
        | None => None
        end
    end.

End Frames.

(** The call is skipped: the attached window says it is not visible, or
    the width or the height of the editor compares equal to zero. *)
Definition skips (e : Editor) : Prop :=
  (exists w, window_ e = Some w /\ isVisible w = false)
  \/ eqb32 (width e) zero = true
  \/ eqb32 (height e) zero = true.

(** An editor of 800 by 600 with two stale children, attached to a window
    that answers [visible], diagnostics on. *)
Definition example_editor (visible : bool) : Editor :=
  {| window_ := Some {| isVisible := visible |};
     width := of_Z32 800; height := of_Z32 600;
     initialized := true;
     stale_children_ := [1; 2]%positive; drawing_children_ := [];
     canvas_ := {| drawn := []; submitted := 0 |};
     debug_enabled := true; log := [];
     last_hidden_log_us := 0; last_size_log_us := 0; last_log_us := 0 |}.

(** What a diagnostic line leaves alone. *)
Definition undrawn (e e' : Editor) : Prop :=
  canvas_ e' = canvas_ e
  /\ stale_children_ e' = stale_children_ e
  /\ drawing_children_ e' = drawing_children_ e
  /\ initialized e' = initialized e
  /\ window_ e' = window_ e
  /\ width e' = width e /\ height e' = height e
  /\ (debug_enabled e = false -> e' = e).

(** [event_handler_.remove_from_hierarchy], on the stale list:
    [std::find] and [erase] of the position found, so the first occurrence
    of the frame goes.  (The callback also asserts that no child is being
    drawn and makes the window's event handler give up the focus of the
    frame; neither touches the list.) *)
Fixpoint remove_from_hierarchy (frame : FramePtr) (stale : list FramePtr)
  : list FramePtr :=
  match stale with
  | [] => []
  | child :: rest =>
      if Pos.eqb child frame then rest
      else child :: remove_from_hierarchy frame rest
  end.

(** The redraws that the frames in [children] ask for while they draw, in
    the order in which they are asked. *)
Definition requests (redraws : FramePtr -> list FramePtr)
           (children : list FramePtr) : list FramePtr :=
  flat_map redraws children.

(** The stale list after the requests [rs] on the list [stale]. *)
Definition requested (rs stale : list FramePtr) : list FramePtr :=
  fold_left (fun st f => request_redraw f st) rs stale.

(** The frames that draw ask for redraws among the stale children only
    (a frame that animates asks for its own redraw). *)
Definition closed_requests (isDrawing : FramePtr -> bool)
           (redraws : FramePtr -> list FramePtr) (stale : list FramePtr) : Prop :=
  forall child f, In child stale -> isDrawing child = true ->
                  In f (redraws child) -> In f stale.

(** Frames that all draw and ask for their own redraw, as an animation
    does. *)
Definition animated (frame : FramePtr) : list FramePtr := [frame].

End ApplicationEditor.

(** ** The window delegate *)

(** Modelled from the spec: [Window::closeRequested()] is a member of the
    base class, as for [closeRequested_in]: the answer of the window's
    close-request callback.  Here through a pointer, which has to be
    alive. *)
Definition closeRequested (this : WindowPtr) : M bool :=
  let* w := getWindow this in ret (close_requested_ w).

(** [NativeWindowLookup::instance().findWindow(handle)] *)
Definition registry_findWindow (handle : Handle) : M (option WindowPtr) :=
  gets (fun s => NativeWindowLookup.findWindow handle (native_window_lookup_ s)).

(** [(__bridge void* )view]: the address of the view, null for [nil]. *)
Definition bridge (view : option NSViewPtr) : Handle :=
  match view with Some v => Npos v | None => 0%N end.

(** [VisageAppWindowDelegate windowShouldClose:]: the window found is
    dereferenced as it is. *)
Definition windowShouldClose (sender : NSWindowPtr) : M bool :=
  let* o := getNSWindow sender in
  let view := contentView o in
  let* window := registry_findWindow (bridge view) in
  let* w := deref window in
  closeRequested w.

(** [VisageAppWindowDelegate windowWillClose:] *)
Definition windowWillClose (ns_window : NSWindowPtr) : M unit :=
  let* o := getNSWindow ns_window in
  let view := contentView o in
  let* window := registry_findWindow (bridge view) in
  match window with
  | Some w => closeWindow w
  | None => ret tt
  end.

(** The native window [n] comes to a display of the backing scale
    [scale]: AppKit tells the views in the window, here its content
    view. *)
Definition backingScaleChanged (n : NSWindowPtr) (scale : f64) : M unit :=
  let* o := getNSWindow n in
  putNSWindow n (NSWindow_with_backingScaleFactor scale o);;
  on_handle (contentView o) viewDidChangeBackingProperties.

(** ** Key codes *)

(** [visage::KeyCode], the codes that [translateKeyCode] gives. *)
Module KeyCode.
Inductive t :=
  | Unknown
  | A | S | D | F | H | G | Z | X | C | V | B | Q | W | E | R | Y | T
  | Number1 | Number2 | Number3 | Number4 | Number6 | Number5 | Equals
  | Number9 | Number7 | Minus | Number8 | Number0 | RightBracket | O | U
  | LeftBracket | I | P | L | J | Apostrophe | K | Semicolon | Backslash
  | Comma | Slash | N | M | Period | Grave
  | KPDecimal | KPMultiply | KPPlus | KPClear | KPDivide | KPEnter | KPMinus
  | KPEquals | KP0 | KP1 | KP2 | KP3 | KP4 | KP5 | KP6 | KP7 | KP8 | KP9
  | Return | Tab | Space | Backspace | Escape | LGui | LShift | CapsLock
  | LAlt | LCtrl | RGui | RShift | RAlt | RCtrl | VolumeUp | VolumeDown | Mute
  | F1 | F2 | F3 | F4 | F5 | F6 | F7 | F8 | F9 | F10 | F11 | F12 | F13 | F14
  | F15 | F16 | F17 | F18 | F19 | F20
  | Help | Home | PageUp | Delete | End_ | PageDown | Left | Right | Down | Up.
End KeyCode.

(** The virtual key codes of [<Carbon/HIToolbox/Events.h>]. *)
Definition kVK_ANSI_A : Z := 0x00.
Definition kVK_ANSI_S : Z := 0x01.
Definition kVK_ANSI_D : Z := 0x02.
Definition kVK_ANSI_F : Z := 0x03.
Definition kVK_ANSI_H : Z := 0x04.
Definition kVK_ANSI_G : Z := 0x05.
Definition kVK_ANSI_Z : Z := 0x06.
Definition kVK_ANSI_X : Z := 0x07.
Definition kVK_ANSI_C : Z := 0x08.
Definition kVK_ANSI_V : Z := 0x09.
Definition kVK_ANSI_B : Z := 0x0B.
Definition kVK_ANSI_Q : Z := 0x0C.
Definition kVK_ANSI_W : Z := 0x0D.
Definition kVK_ANSI_E : Z := 0x0E.
Definition kVK_ANSI_R : Z := 0x0F.
Definition kVK_ANSI_Y : Z := 0x10.
Definition kVK_ANSI_T : Z := 0x11.
Definition kVK_ANSI_1 : Z := 0x12.
Definition kVK_ANSI_2 : Z := 0x13.
Definition kVK_ANSI_3 : Z := 0x14.
Definition kVK_ANSI_4 : Z := 0x15.
Definition kVK_ANSI_6 : Z := 0x16.
Definition kVK_ANSI_5 : Z := 0x17.
Definition kVK_ANSI_Equal : Z := 0x18.
Definition kVK_ANSI_9 : Z := 0x19.
Definition kVK_ANSI_7 : Z := 0x1A.
Definition kVK_ANSI_Minus : Z := 0x1B.
Definition kVK_ANSI_8 : Z := 0x1C.
Definition kVK_ANSI_0 : Z := 0x1D.
Definition kVK_ANSI_RightBracket : Z := 0x1E.
Definition kVK_ANSI_O : Z := 0x1F.
Definition kVK_ANSI_U : Z := 0x20.
Definition kVK_ANSI_LeftBracket : Z := 0x21.
Definition kVK_ANSI_I : Z := 0x22.
Definition kVK_ANSI_P : Z := 0x23.
Definition kVK_Return : Z := 0x24.
Definition kVK_ANSI_L : Z := 0x25.
Definition kVK_ANSI_J : Z := 0x26.
Definition kVK_ANSI_Quote : Z := 0x27.
Definition kVK_ANSI_K : Z := 0x28.
Definition kVK_ANSI_Semicolon : Z := 0x29.
Definition kVK_ANSI_Backslash : Z := 0x2A.
Definition kVK_ANSI_Comma : Z := 0x2B.
Definition kVK_ANSI_Slash : Z := 0x2C.
Definition kVK_ANSI_N : Z := 0x2D.
Definition kVK_ANSI_M : Z := 0x2E.
Definition kVK_ANSI_Period : Z := 0x2F.
Definition kVK_Tab : Z := 0x30.
Definition kVK_Space : Z := 0x31.
Definition kVK_ANSI_Grave : Z := 0x32.
Definition kVK_Delete : Z := 0x33.
Definition kVK_Escape : Z := 0x35.
Definition kVK_RightCommand : Z := 0x36.
Definition kVK_Command : Z := 0x37.
Definition kVK_Shift : Z := 0x38.
Definition kVK_CapsLock : Z := 0x39.
Definition kVK_Option : Z := 0x3A.
Definition kVK_Control : Z := 0x3B.
Definition kVK_RightShift : Z := 0x3C.
Definition kVK_RightOption : Z := 0x3D.
Definition kVK_RightControl : Z := 0x3E.
Definition kVK_F17 : Z := 0x40.
Definition kVK_ANSI_KeypadDecimal : Z := 0x41.
Definition kVK_ANSI_KeypadMultiply : Z := 0x43.
Definition kVK_ANSI_KeypadPlus : Z := 0x45.
Definition kVK_ANSI_KeypadClear : Z := 0x47.
Definition kVK_VolumeUp : Z := 0x48.
Definition kVK_VolumeDown : Z := 0x49.
Definition kVK_Mute : Z := 0x4A.
Definition kVK_ANSI_KeypadDivide : Z := 0x4B.
Definition kVK_ANSI_KeypadEnter : Z := 0x4C.
Definition kVK_ANSI_KeypadMinus : Z := 0x4E.
Definition kVK_F18 : Z := 0x4F.
Definition kVK_F19 : Z := 0x50.
Definition kVK_ANSI_KeypadEquals : Z := 0x51.
Definition kVK_ANSI_Keypad0 : Z := 0x52.
Definition kVK_ANSI_Keypad1 : Z := 0x53.
Definition kVK_ANSI_Keypad2 : Z := 0x54.
Definition kVK_ANSI_Keypad3 : Z := 0x55.
Definition kVK_ANSI_Keypad4 : Z := 0x56.
Definition kVK_ANSI_Keypad5 : Z := 0x57.
Definition kVK_ANSI_Keypad6 : Z := 0x58.
Definition kVK_ANSI_Keypad7 : Z := 0x59.
Definition kVK_F20 : Z := 0x5A.
Definition kVK_ANSI_Keypad8 : Z := 0x5B.
Definition kVK_ANSI_Keypad9 : Z := 0x5C.
Definition kVK_F5 : Z := 0x60.
Definition kVK_F6 : Z := 0x61.
Definition kVK_F7 : Z := 0x62.
Definition kVK_F3 : Z := 0x63.
Definition kVK_F8 : Z := 0x64.
Definition kVK_F9 : Z := 0x65.
Definition kVK_F11 : Z := 0x67.
Definition kVK_F13 : Z := 0x69.
Definition kVK_F16 : Z := 0x6A.
Definition kVK_F14 : Z := 0x6B.
Definition kVK_F10 : Z := 0x6D.
Definition kVK_F12 : Z := 0x6F.
Definition kVK_F15 : Z := 0x71.
Definition kVK_Help : Z := 0x72.
Definition kVK_Home : Z := 0x73.
Definition kVK_PageUp : Z := 0x74.
Definition kVK_ForwardDelete : Z := 0x75.
Definition kVK_F4 : Z := 0x76.
Definition kVK_End : Z := 0x77.
Definition kVK_F2 : Z := 0x78.
Definition kVK_PageDown : Z := 0x79.
Definition kVK_F1 : Z := 0x7A.
Definition kVK_LeftArrow : Z := 0x7B.
Definition kVK_RightArrow : Z := 0x7C.
Definition kVK_DownArrow : Z := 0x7D.
Definition kVK_UpArrow : Z := 0x7E.

(** A [switch] over integer labels whose cases all return: the first case
    with the label [x], else the default. *)
Fixpoint switch {A} (x : Z) (cases : list (Z * A)) (default : A) : A :=
  match cases with
  | [] => default
  | (label, result) :: rest =>
      if x =? label then result else switch x rest default
  end.

Definition translateKeyCode_cases : list (Z * KeyCode.t) :=
  [ (kVK_ANSI_A, KeyCode.A);
    (kVK_ANSI_S, KeyCode.S);
    (kVK_ANSI_D, KeyCode.D);
    (kVK_ANSI_F, KeyCode.F);
    (kVK_ANSI_H, KeyCode.H);
    (kVK_ANSI_G, KeyCode.G);
    (kVK_ANSI_Z, KeyCode.Z);
    (kVK_ANSI_X, KeyCode.X);
    (kVK_ANSI_C, KeyCode.C);
    (kVK_ANSI_V, KeyCode.V);
    (kVK_ANSI_B, KeyCode.B);
    (kVK_ANSI_Q, KeyCode.Q);
    (kVK_ANSI_W, KeyCode.W);
    (kVK_ANSI_E, KeyCode.E);
    (kVK_ANSI_R, KeyCode.R);
    (kVK_ANSI_Y, KeyCode.Y);
    (kVK_ANSI_T, KeyCode.T);
    (kVK_ANSI_1, KeyCode.Number1);
    (kVK_ANSI_2, KeyCode.Number2);
    (kVK_ANSI_3, KeyCode.Number3);
    (kVK_ANSI_4, KeyCode.Number4);
    (kVK_ANSI_6, KeyCode.Number6);
    (kVK_ANSI_5, KeyCode.Number5);
    (kVK_ANSI_Equal, KeyCode.Equals);
    (kVK_ANSI_9, KeyCode.Number9);
    (kVK_ANSI_7, KeyCode.Number7);
    (kVK_ANSI_Minus, KeyCode.Minus);
    (kVK_ANSI_8, KeyCode.Number8);
    (kVK_ANSI_0, KeyCode.Number0);
    (kVK_ANSI_RightBracket, KeyCode.RightBracket);
    (kVK_ANSI_O, KeyCode.O);
    (kVK_ANSI_U, KeyCode.U);
    (kVK_ANSI_LeftBracket, KeyCode.LeftBracket);
    (kVK_ANSI_I, KeyCode.I);
    (kVK_ANSI_P, KeyCode.P);
    (kVK_ANSI_L, KeyCode.L);
    (kVK_ANSI_J, KeyCode.J);
    (kVK_ANSI_Quote, KeyCode.Apostrophe);
    (kVK_ANSI_K, KeyCode.K);
    (kVK_ANSI_Semicolon, KeyCode.Semicolon);
    (kVK_ANSI_Backslash, KeyCode.Backslash);
    (kVK_ANSI_Comma, KeyCode.Comma);
    (kVK_ANSI_Slash, KeyCode.Slash);
    (kVK_ANSI_N, KeyCode.N);
    (kVK_ANSI_M, KeyCode.M);
    (kVK_ANSI_Period, KeyCode.Period);
    (kVK_ANSI_Grave, KeyCode.Grave);
    (kVK_ANSI_KeypadDecimal, KeyCode.KPDecimal);
    (kVK_ANSI_KeypadMultiply, KeyCode.KPMultiply);
    (kVK_ANSI_KeypadPlus, KeyCode.KPPlus);
    (kVK_ANSI_KeypadClear, KeyCode.KPClear);
    (kVK_ANSI_KeypadDivide, KeyCode.KPDivide);
    (kVK_ANSI_KeypadEnter, KeyCode.KPEnter);
    (kVK_ANSI_KeypadMinus, KeyCode.KPMinus);
    (kVK_ANSI_KeypadEquals, KeyCode.KPEquals);
    (kVK_ANSI_Keypad0, KeyCode.KP0);
    (kVK_ANSI_Keypad1, KeyCode.KP1);
    (kVK_ANSI_Keypad2, KeyCode.KP2);
    (kVK_ANSI_Keypad3, KeyCode.KP3);
    (kVK_ANSI_Keypad4, KeyCode.KP4);
    (kVK_ANSI_Keypad5, KeyCode.KP5);
    (kVK_ANSI_Keypad6, KeyCode.KP6);
    (kVK_ANSI_Keypad7, KeyCode.KP7);
    (kVK_ANSI_Keypad8, KeyCode.KP8);
    (kVK_ANSI_Keypad9, KeyCode.KP9);
    (kVK_Return, KeyCode.Return);
    (kVK_Tab, KeyCode.Tab);
    (kVK_Space, KeyCode.Space);
    (kVK_Delete, KeyCode.Backspace);
    (kVK_Escape, KeyCode.Escape);
    (kVK_Command, KeyCode.LGui);
    (kVK_Shift, KeyCode.LShift);
    (kVK_CapsLock, KeyCode.CapsLock);
    (kVK_Option, KeyCode.LAlt);
    (kVK_Control, KeyCode.LCtrl);
    (kVK_RightCommand, KeyCode.RGui);
    (kVK_RightShift, KeyCode.RShift);
    (kVK_RightOption, KeyCode.RAlt);
    (kVK_RightControl, KeyCode.RCtrl);
    (kVK_VolumeUp, KeyCode.VolumeUp);
    (kVK_VolumeDown, KeyCode.VolumeDown);
    (kVK_Mute, KeyCode.Mute);
    (kVK_F1, KeyCode.F1);
    (kVK_F2, KeyCode.F2);
    (kVK_F3, KeyCode.F3);
    (kVK_F4, KeyCode.F4);
    (kVK_F5, KeyCode.F5);
    (kVK_F6, KeyCode.F6);
    (kVK_F7, KeyCode.F7);
    (kVK_F8, KeyCode.F8);
    (kVK_F9, KeyCode.F9);
    (kVK_F10, KeyCode.F10);
    (kVK_F11, KeyCode.F11);
    (kVK_F12, KeyCode.F12);
    (kVK_F13, KeyCode.F13);
    (kVK_F14, KeyCode.F14);
    (kVK_F15, KeyCode.F15);
    (kVK_F16, KeyCode.F16);
    (kVK_F17, KeyCode.F17);
    (kVK_F18, KeyCode.F18);
    (kVK_F19, KeyCode.F19);
    (kVK_F20, KeyCode.F20);
    (kVK_Help, KeyCode.Help);
    (kVK_Home, KeyCode.Home);
    (kVK_PageUp, KeyCode.PageUp);
    (kVK_ForwardDelete, KeyCode.Delete);
    (kVK_End, KeyCode.End_);
    (kVK_PageDown, KeyCode.PageDown);
    (kVK_LeftArrow, KeyCode.Left);
    (kVK_RightArrow, KeyCode.Right);
    (kVK_DownArrow, KeyCode.Down);
    (kVK_UpArrow, KeyCode.Up) ].

Definition translateKeyCode (mac_key_code : Z) : KeyCode.t :=
  switch mac_key_code translateKeyCode_cases KeyCode.Unknown.

(** The virtual key that a key code stands for. *)
Definition virtual_key (code : KeyCode.t) : option Z :=
  match code with
  | KeyCode.Unknown => None
  | KeyCode.A => Some kVK_ANSI_A
  | KeyCode.S => Some kVK_ANSI_S
  | KeyCode.D => Some kVK_ANSI_D
  | KeyCode.F => Some kVK_ANSI_F
  | KeyCode.H => Some kVK_ANSI_H
  | KeyCode.G => Some kVK_ANSI_G
  | KeyCode.Z => Some kVK_ANSI_Z
  | KeyCode.X => Some kVK_ANSI_X
  | KeyCode.C => Some kVK_ANSI_C
  | KeyCode.V => Some kVK_ANSI_V
  | KeyCode.B => Some kVK_ANSI_B
  | KeyCode.Q => Some kVK_ANSI_Q
  | KeyCode.W => Some kVK_ANSI_W
  | KeyCode.E => Some kVK_ANSI_E
  | KeyCode.R => Some kVK_ANSI_R
  | KeyCode.Y => Some kVK_ANSI_Y
  | KeyCode.T => Some kVK_ANSI_T
  | KeyCode.Number1 => Some kVK_ANSI_1
  | KeyCode.Number2 => Some kVK_ANSI_2
  | KeyCode.Number3 => Some kVK_ANSI_3
  | KeyCode.Number4 => Some kVK_ANSI_4
  | KeyCode.Number6 => Some kVK_ANSI_6
  | KeyCode.Number5 => Some kVK_ANSI_5
  | KeyCode.Equals => Some kVK_ANSI_Equal
  | KeyCode.Number9 => Some kVK_ANSI_9
  | KeyCode.Number7 => Some kVK_ANSI_7
  | KeyCode.Minus => Some kVK_ANSI_Minus
  | KeyCode.Number8 => Some kVK_ANSI_8
  | KeyCode.Number0 => Some kVK_ANSI_0
  | KeyCode.RightBracket => Some kVK_ANSI_RightBracket
  | KeyCode.O => Some kVK_ANSI_O
  | KeyCode.U => Some kVK_ANSI_U
  | KeyCode.LeftBracket => Some kVK_ANSI_LeftBracket
  | KeyCode.I => Some kVK_ANSI_I
  | KeyCode.P => Some kVK_ANSI_P
  | KeyCode.L => Some kVK_ANSI_L
  | KeyCode.J => Some kVK_ANSI_J
  | KeyCode.Apostrophe => Some kVK_ANSI_Quote
  | KeyCode.K => Some kVK_ANSI_K
  | KeyCode.Semicolon => Some kVK_ANSI_Semicolon
  | KeyCode.Backslash => Some kVK_ANSI_Backslash
  | KeyCode.Comma => Some kVK_ANSI_Comma
  | KeyCode.Slash => Some kVK_ANSI_Slash
  | KeyCode.N => Some kVK_ANSI_N
  | KeyCode.M => Some kVK_ANSI_M
  | KeyCode.Period => Some kVK_ANSI_Period
  | KeyCode.Grave => Some kVK_ANSI_Grave
  | KeyCode.KPDecimal => Some kVK_ANSI_KeypadDecimal
  | KeyCode.KPMultiply => Some kVK_ANSI_KeypadMultiply
  | KeyCode.KPPlus => Some kVK_ANSI_KeypadPlus
  | KeyCode.KPClear => Some kVK_ANSI_KeypadClear
  | KeyCode.KPDivide => Some kVK_ANSI_KeypadDivide
  | KeyCode.KPEnter => Some kVK_ANSI_KeypadEnter
  | KeyCode.KPMinus => Some kVK_ANSI_KeypadMinus
  | KeyCode.KPEquals => Some kVK_ANSI_KeypadEquals
  | KeyCode.KP0 => Some kVK_ANSI_Keypad0
  | KeyCode.KP1 => Some kVK_ANSI_Keypad1
  | KeyCode.KP2 => Some kVK_ANSI_Keypad2
  | KeyCode.KP3 => Some kVK_ANSI_Keypad3
  | KeyCode.KP4 => Some kVK_ANSI_Keypad4
  | KeyCode.KP5 => Some kVK_ANSI_Keypad5
  | KeyCode.KP6 => Some kVK_ANSI_Keypad6
  | KeyCode.KP7 => Some kVK_ANSI_Keypad7
  | KeyCode.KP8 => Some kVK_ANSI_Keypad8
  | KeyCode.KP9 => Some kVK_ANSI_Keypad9
  | KeyCode.Return => Some kVK_Return
  | KeyCode.Tab => Some kVK_Tab
  | KeyCode.Space => Some kVK_Space
  | KeyCode.Backspace => Some kVK_Delete
  | KeyCode.Escape => Some kVK_Escape
  | KeyCode.LGui => Some kVK_Command
  | KeyCode.LShift => Some kVK_Shift
  | KeyCode.CapsLock => Some kVK_CapsLock
  | KeyCode.LAlt => Some kVK_Option
  | KeyCode.LCtrl => Some kVK_Control
  | KeyCode.RGui => Some kVK_RightCommand
  | KeyCode.RShift => Some kVK_RightShift
  | KeyCode.RAlt => Some kVK_RightOption
  | KeyCode.RCtrl => Some kVK_RightControl
  | KeyCode.VolumeUp => Some kVK_VolumeUp
  | KeyCode.VolumeDown => Some kVK_VolumeDown
  | KeyCode.Mute => Some kVK_Mute
  | KeyCode.F1 => Some kVK_F1
  | KeyCode.F2 => Some kVK_F2
  | KeyCode.F3 => Some kVK_F3
  | KeyCode.F4 => Some kVK_F4
  | KeyCode.F5 => Some kVK_F5
  | KeyCode.F6 => Some kVK_F6
  | KeyCode.F7 => Some kVK_F7
  | KeyCode.F8 => Some kVK_F8
  | KeyCode.F9 => Some kVK_F9
  | KeyCode.F10 => Some kVK_F10
  | KeyCode.F11 => Some kVK_F11
  | KeyCode.F12 => Some kVK_F12
  | KeyCode.F13 => Some kVK_F13
  | KeyCode.F14 => Some kVK_F14
  | KeyCode.F15 => Some kVK_F15
  | KeyCode.F16 => Some kVK_F16
  | KeyCode.F17 => Some kVK_F17
  | KeyCode.F18 => Some kVK_F18
  | KeyCode.F19 => Some kVK_F19
  | KeyCode.F20 => Some kVK_F20
  | KeyCode.Help => Some kVK_Help
  | KeyCode.Home => Some kVK_Home
  | KeyCode.PageUp => Some kVK_PageUp
  | KeyCode.Delete => Some kVK_ForwardDelete
  | KeyCode.End_ => Some kVK_End
  | KeyCode.PageDown => Some kVK_PageDown
  | KeyCode.Left => Some kVK_LeftArrow
  | KeyCode.Right => Some kVK_RightArrow
  | KeyCode.Down => Some kVK_DownArrow
  | KeyCode.Up => Some kVK_UpArrow
  end.

(** ** More vocabulary *)

Section Calls.
Context {K : EventConstants}.

(** The handlers of a button that goes down. *)
Definition is_button_down (k : PointerEvent) (event : NSEvent) : bool :=
  match k with
  | MouseDown _ | RightMouseDown => true
  | OtherMouseDown => buttonNumber event =? 2
  | _ => false
  end.

(** The handlers of a drag. *)
Definition is_drag (k : PointerEvent) : bool :=
  match k with
  | MouseDragged | RightMouseDragged | OtherMouseDragged => true
  | _ => false
  end.

(** The events that the view forwards: all but those of another button
    than the middle one going down or up. *)
Definition is_forwarded (k : PointerEvent) (event : NSEvent) : bool :=
  match k with
  | OtherMouseDown | OtherMouseUp => buttonNumber event =? 2
  | _ => true
  end.

(** The calls of the window's handlers. *)
Definition is_handler_call (e : Event) : bool :=
  match e with
  | HandleMouseDown _ _ _ _ _ _ | HandleMouseUp _ _ _ _ _ _
  | HandleMouseMove _ _ _ _ _ | HandleMouseLeave _ _ _
  | HandleMouseWheel _ _ _ _ _ _ _ _ _ _
  | HandleFileDrag _ _ _ _ | HandleFileDrop _ _ _ _ => true
  | _ => false
  end.

(** The calls that make a native window the key window. *)
Definition is_make_key (e : Event) : bool :=
  match e with
  | MakeKeyWindow _ | MakeKeyAndOrderFront _ => true
  | _ => false
  end.

(** The calls that put a native window on screen or take it off. *)
Definition is_ordering (e : Event) : bool :=
  match e with
  | OrderFront _ | MakeKeyAndOrderFront _ | OrderOut _ => true
  | _ => false
  end.

(** The calls that the handler of the pointer event [k] makes, for the
    view [self] with the fields [v] of the window [w] with the fields
    [wm]. *)
Definition handler_calls (k : PointerEvent) (self : NSViewPtr) (v : VisageAppView)
           (w : WindowPtr) (wm : WindowMac) (event : NSEvent) : list Event :=
  let p := framework_point (view_location event) (height (frame_size v))
                           (dpi_scale_ wm) in
  let buttons := mouseButtonState event in
  let modifiers := keyboardModifiers event in
  let move := [HandleMouseMove w (pt_x p) (pt_y p) buttons modifiers] in
  let drag :=
    move ++ (if mouse_relative_mode_ wm
             then [WarpMouseCursor (mouse_down_screen_position v)] else []) in
  let down button :=
    HandleMouseDown w button (pt_x p) (pt_y p) buttons modifiers
    :: (if isPopup_of wm then []
        else match window v with Some n => [MakeKeyWindow n] | None => [] end) in
  let up button := [HandleMouseUp w button (pt_x p) (pt_y p) buttons modifiers] in
  match k with
  | MouseMoved | MouseEntered => move
  | MouseExited => [HandleMouseLeave w buttons modifiers]
  | MouseDown drag_source =>
      down kMouseButtonLeft
      ++ match drag_source with
         | Some file => [BeginDraggingSession self file]
         | None => []
         end
  | MouseUp => up kMouseButtonLeft
  | MouseDragged | RightMouseDragged | OtherMouseDragged => drag
  | RightMouseDown => down kMouseButtonRight
  | RightMouseUp => up kMouseButtonRight
  | OtherMouseDown =>
      if buttonNumber event =? 2 then down kMouseButtonMiddle else []
  | OtherMouseUp =>
      if buttonNumber event =? 2 then up kMouseButtonMiddle else []
  | ScrollWheel =>
      let precise (d : f64) :=
        to_f32 (mul64 d (to_f64 kPreciseScrollingScale)) in
      [HandleMouseWheel w (to_f32 (deltaX event)) (to_f32 (deltaY event))
         (if hasPreciseScrollingDeltas event
          then precise (scrollingDeltaX event) else to_f32 (deltaX event))
         (if hasPreciseScrollingDeltas event
          then precise (scrollingDeltaY event) else to_f32 (deltaY event))
         (pt_x p) (pt_y p) buttons modifiers (in_momentum_phase event)]
  | DraggingEntered | DraggingUpdated =>
      [HandleFileDrag w (pt_x p) (pt_y p) (dropFileList event)]
  | PerformDragOperation =>
      [HandleFileDrop w (pt_x p) (pt_y p) (dropFileList event)]
  end.

(** The view after the handler of [k]: a button that goes down leaves
    the screen position of the pointer. *)
Definition view_after (k : PointerEvent) (event : NSEvent) (v : VisageAppView)
  : VisageAppView :=
  if is_button_down k event
  then view_with_mouse_down_screen_position (mouseScreenPosition event) v
  else v.

(** The framework's constants [a], [b], ... of a group are flags of their
    own: none is zero and no two share a bit. *)
Fixpoint independent_flags (l : list Z) : Prop :=
  match l with
  | [] => True
  | a :: rest =>
      a <> 0 /\ Forall (fun b => Z.land a b = 0) rest /\ independent_flags rest
  end.

End Calls.

(** A registered window other than [this], whose native window is
    another one than [n], is on screen. *)
Definition another_window_showing (s : World) (this : WindowPtr) (n : NSWindowPtr)
  : Prop :=
  exists h w' wm',
    native_window_lookup_ s !! h = Some w'
    /\ h <> nativeHandle_in s this
    /\ w' <> this
    /\ windows s !! w' = Some wm'
    /\ window_handle_ wm' <> Some n
    /\ isShowing_in s w' = true.

(** The process after [closeWindow] on the standalone window [this] with
    the fields [wm], whose native window [n] has the fields [o], before
    the application is told to stop. *)
Definition after_closeWindow (this : WindowPtr) (wm : WindowMac) (n : NSWindowPtr)
           (o : NSWindow) (s : World) : World :=
  world_with_windows
    (<[this := win_with_window_handle_ None
                 (win_with_last_content_rect_ (contentLayoutRect o) wm)]>
       (windows s))
    (world_with_trace (trace s ++ [OrderOut n; NotifyHide this])
       (world_with_nswindows (<[n := NSWindow_with_isVisible false o]> (nswindows s))
          (world_with_native_window_lookup_
             (delete (nativeHandle_of wm) (native_window_lookup_ s)) s))).

(** *** Embedded windows, once more *)

(** What happens to an embedded window: what the host does to its view,
    and the framework's calls of [show] and [hide]. *)
Inductive EmbeddedCall :=
  | HostCall (e : HostEvent)
  | CallShow
  | CallHide.

Definition embedded_call (this : WindowPtr) (self : NSViewPtr) (c : EmbeddedCall)
  : M unit :=
  match c with
  | HostCall e => host_event self e
  | CallShow => show this
  | CallHide => hide this
  end.

Fixpoint embedded_calls (this : WindowPtr) (self : NSViewPtr)
         (cs : list EmbeddedCall) : M unit :=
  match cs with
  | [] => ret tt
  | c :: rest => embedded_call this self c;; embedded_calls this self rest
  end.

Definition host_events_of (cs : list EmbeddedCall) : list HostEvent :=
  flat_map (fun c => match c with HostCall e => [e] | _ => [] end) cs.

(** From [s] to [s'] no native window was put on screen or taken off, and
    no window was registered. *)
Definition host_untouched (s s' : World) : Prop :=
  (forall m o, nswindows s !! m = Some o ->
               exists o', nswindows s' !! m = Some o' /\ isVisible o' = isVisible o)
  /\ (exists es, trace s' = trace s ++ es
                 /\ Forall (fun e => is_ordering e = false) es)
  /\ (forall h, native_window_lookup_ s !! h = None ->
                native_window_lookup_ s' !! h = None).

(** *** Occlusion *)

(** What [windowOcclusionChanged:] reads from the occlusion state. *)
Definition occlusion_visible (state : Z) : bool :=
  negb (Z.land state NSWindowOcclusionStateVisible =? 0).

(** Some view that observes the occlusion of the native window [n]
    belongs to the window [w]. *)
Definition observed_by (s : World) (n : NSWindowPtr) (w : WindowPtr) : Prop :=
  exists a va, views s !! a = Some va
               /\ In n (occlusion_observed va)
               /\ visage_window va = Some w.

(** *** More example processes *)

(** The native window 3 of [process_with_standalone_window]. *)
Definition the_native_window : NSWindow :=
  new_native_window Native
    (NSMakeRect (of_Z64 50) (of_Z64 50) (of_Z64 800) (of_Z64 600))
    (of_Z64 2) 2%positive.

(** [host_process] in which an embedded window of 800 by 600 pixels was
    created under the host's view 9, which is in the host's window 10:
    the window is object 1, its view object 2. *)
Definition process_with_embedded_window : World :=
  state_after (WindowMac_embedded 800 600 (of_Z32 2) 9%positive (Some 10%positive))
              host_process.

Definition the_embedded_window : WindowMac :=
  {| dpi_scale_ := of_Z32 2; visible_ := true; mouse_relative_mode_ := false;
     close_requested_ := true;
     window_handle_ := Some 10%positive; view_ := Some 2%positive;
     parent_view_ := Some 9%positive; decoration_ := Native;
     last_content_rect_ := NSZeroRect |}.

Definition the_embedded_view : VisageAppView :=
  {| visage_window := Some 1%positive; allow_quit := false;
     layer := Some {| contentsScale := one64;
                      drawableSize := CGSizeMake (of_Z64 400) (of_Z64 300) |};
     window := Some 10%positive;
     frame_size := CGSizeMake (of_Z64 400) (of_Z64 300);
     draw_count := 0; last_render_us := 0; last_draw_log_us := 0;
     mouse_down_screen_position := {| ns_x := zero; ns_y := zero |};
     occlusion_observed := [] |}.

(** [process_with_embedded_window] after the application has hidden the
    embedded window with the framework's [setVisible(false)]. *)
Definition process_with_hidden_embedded_window : World :=
  state_after (setVisible 1%positive false) process_with_embedded_window.

(** * Properties *)

(** The floating-point operations stay folded in the proofs. *)
Arguments mul64 : simpl never.
Arguments mul32 : simpl never.
Arguments div32 : simpl never.
Arguments sub64 : simpl never.
Arguments ltb64 : simpl never.
Arguments to_f32 : simpl never.
Arguments to_f64 : simpl never.
Arguments of_Z32 : simpl never.
Arguments of_Z64 : simpl never.
Arguments round_to_Z : simpl never.
Arguments uint64 : simpl never.

(** ** The example process *)

Lemma standalone_window_lookup :
  windows process_with_standalone_window !! 1%positive = Some the_standalone_window.
Proof. vm_compute. reflexivity. Qed.

Lemma standalone_view_lookup :
  views process_with_standalone_window !! 2%positive = Some the_standalone_view.
Proof. vm_compute. reflexivity. Qed.

(** ** The window registry *)

Section RegistryFacts.

Variable nativeHandle : WindowPtr -> Handle.
Variable closeRequested : WindowPtr -> bool.

Import NativeWindowLookup.

(** The result of the loop does not depend on the order in which the map
    is walked: it is the conjunction of the answers. *)
Lemma requestAllToClose_spec (m : gmap Handle WindowPtr) :
  requestAllToClose closeRequested m = true <->
  map_Forall (fun _ w => closeRequested w = true) m.
Proof.
  unfold requestAllToClose.
  apply (map_fold_weak_ind
           (fun r m => r = true <->
                       map_Forall (fun _ w => closeRequested w = true) m)).
  - split; [intros _; apply map_Forall_empty | reflexivity].
  - intros h w m' r Hfresh IH.
    rewrite map_Forall_insert by exact Hfresh.
    destruct (closeRequested w); simpl.
    + rewrite IH. tauto.
    + split; [discriminate | intros [? _]; discriminate].
Qed.

Lemma addWindow_lookup_eq w (m : gmap Handle WindowPtr) :
  addWindow nativeHandle w m !! nativeHandle w = Some w.
Proof. apply lookup_insert_eq. Qed.

Lemma addWindow_lookup_ne w h (m : gmap Handle WindowPtr) :
  h <> nativeHandle w -> addWindow nativeHandle w m !! h = m !! h.
Proof. intros Hne. apply lookup_insert_ne. congruence. Qed.

Lemma removeWindow_delete w (m : gmap Handle WindowPtr) :
  removeWindow nativeHandle w m = delete (nativeHandle w) m.
Proof.
  unfold removeWindow. case_decide as Hin; [reflexivity|].
  symmetry. apply delete_id. apply eq_None_not_Some. exact Hin.
Qed.

Lemma removeWindow_lookup_eq w (m : gmap Handle WindowPtr) :
  removeWindow nativeHandle w m !! nativeHandle w = None.
Proof. rewrite removeWindow_delete. apply lookup_delete_eq. Qed.

Lemma removeWindow_lookup_ne w h (m : gmap Handle WindowPtr) :
  h <> nativeHandle w -> removeWindow nativeHandle w m !! h = m !! h.
Proof.
  intros Hne. rewrite removeWindow_delete. apply lookup_delete_ne. congruence.
Qed.

Lemma calls_keep w cs : forall m : gmap Handle WindowPtr,
  Forall (keeps nativeHandle w) cs ->
  m !! nativeHandle w = Some w ->
  calls nativeHandle cs m !! nativeHandle w = Some w.
Proof.
  induction cs as [|c cs IH]; intros m Hcs Hm; [exact Hm|].
  inversion Hcs as [|? ? Hc Hrest]; subst. simpl.
  apply IH; [exact Hrest|].
  destruct Hc as [-> | Hne].
  - apply addWindow_lookup_eq.
  - destruct c as [w'|w']; simpl in *.
    + rewrite addWindow_lookup_ne by congruence. exact Hm.
    + rewrite removeWindow_lookup_ne by congruence. exact Hm.
Qed.

(** C2: [requestAllToClose] is true exactly when the close predicate of
    every registered window is true; once a window whose predicate is
    false is added the result is false whatever the other windows answer;
    and the application's termination query answers [NSTerminateNow]
    exactly when [requestAllToClose] is true, [NSTerminateCancel]
    otherwise. *)
Theorem requestAllToClose_iff_every_window_agrees (m : gmap Handle WindowPtr) :
  (requestAllToClose closeRequested m = true <->
   forall h w, m !! h = Some w -> closeRequested w = true)
  /\ (forall w, closeRequested w = false ->
        requestAllToClose closeRequested (addWindow nativeHandle w m) = false)
  /\ (applicationShouldTerminate closeRequested m = NSTerminateNow <->
      requestAllToClose closeRequested m = true)
  /\ (applicationShouldTerminate closeRequested m = NSTerminateCancel <->
      requestAllToClose closeRequested m = false).
Proof.
  split; [apply requestAllToClose_spec|].
  split.
  - intros w Hw. apply not_true_is_false. intros Hall.
    apply requestAllToClose_spec in Hall.
    specialize (Hall (nativeHandle w) w (addWindow_lookup_eq w m)).
    simpl in Hall. congruence.
  - unfold applicationShouldTerminate.
    destruct (requestAllToClose closeRequested m);
      split; split; intros; try reflexivity; discriminate.
Qed.

(** C5: a window registered with [addWindow] is found under its native
    handle for as long as it is not removed, whatever other windows are
    added and removed meanwhile; after [removeWindow] its handle finds
    nothing. *)
Theorem findWindow_between_add_and_remove
        (w : WindowPtr) (cs : list Call) (m : gmap Handle WindowPtr)
        (Hcs : Forall (keeps nativeHandle w) cs) :
  findWindow (nativeHandle w) (calls nativeHandle cs (addWindow nativeHandle w m))
    = Some w
  /\ findWindow (nativeHandle w)
       (removeWindow nativeHandle w
          (calls nativeHandle cs (addWindow nativeHandle w m))) = None.
Proof.
  unfold findWindow. split.
  - apply calls_keep; [exact Hcs | apply addWindow_lookup_eq].
  - apply removeWindow_lookup_eq.
Qed.

(** C8, as the code has it: [addWindow] stores the window under its
    native handle and leaves every other handle alone; an entry already
    under that handle is replaced by the window added, so the registry is
    unchanged only when that entry was the same window. *)
Theorem addWindow_replaces_entry (w : WindowPtr) (m : gmap Handle WindowPtr) :
  findWindow (nativeHandle w) (addWindow nativeHandle w m) = Some w
  /\ (forall h, h <> nativeHandle w ->
        findWindow h (addWindow nativeHandle w m) = findWindow h m)
  /\ (findWindow (nativeHandle w) m = Some w -> addWindow nativeHandle w m = m).
Proof.
  unfold findWindow. split; [apply addWindow_lookup_eq|].
  split; [intros h Hne; apply addWindow_lookup_ne; exact Hne|].
  intros Hsame. apply insert_id. exact Hsame.
Qed.

(** C9: with no window registered [requestAllToClose] is true and the
    termination query answers [NSTerminateNow]. *)
Theorem requestAllToClose_empty :
  requestAllToClose closeRequested ∅ = true
  /\ applicationShouldTerminate closeRequested ∅ = NSTerminateNow.
Proof.
  unfold applicationShouldTerminate, requestAllToClose.
  rewrite map_fold_empty. split; reflexivity.
Qed.

End RegistryFacts.

(** Windows 1 and 3 agree to close and window 2 does not: the termination
    query is cancelled as soon as window 2 is registered, whatever the
    others answer. *)
Example requestAllToClose_vetoed :
  let add := NativeWindowLookup.addWindow handle_of_address in
  (NativeWindowLookup.requestAllToClose all_but_two (add 3 (add 1 ∅)),
   NativeWindowLookup.requestAllToClose all_but_two (add 2 (add 3 (add 1 ∅))),
   NativeWindowLookup.applicationShouldTerminate all_but_two (add 2 (add 3 (add 1 ∅))))%positive
  = (true, false, NSTerminateCancel).
Proof. vm_compute. reflexivity. Qed.

Lemma findWindow_between_add_and_remove_witness :
  NativeWindowLookup.findWindow 1%N
    (NativeWindowLookup.calls handle_of_address
       [NativeWindowLookup.CallAdd 2; NativeWindowLookup.CallAdd 1;
        NativeWindowLookup.CallRemove 2; NativeWindowLookup.CallRemove 3]%positive
       (NativeWindowLookup.addWindow handle_of_address 1%positive ∅))
    = Some 1%positive
  /\ NativeWindowLookup.findWindow 1%N
       (NativeWindowLookup.removeWindow handle_of_address 1%positive
          (NativeWindowLookup.calls handle_of_address
             [NativeWindowLookup.CallAdd 2; NativeWindowLookup.CallAdd 1;
              NativeWindowLookup.CallRemove 2; NativeWindowLookup.CallRemove 3]%positive
             (NativeWindowLookup.addWindow handle_of_address 1%positive ∅)))
     = None.
Proof.
  apply (findWindow_between_add_and_remove handle_of_address 1%positive).
  repeat (apply List.Forall_cons;
          [ first [ left; reflexivity | right; discriminate ] | ]).
  apply List.Forall_nil.
Defined.

(** C8 as stated fails: with window 1 registered under handle 7, adding
    window 2 under the same handle is not a no-op, the handle now finds
    window 2. *)
Lemma addWindow_duplicate_handle_not_noop :
  ~ (forall (nativeHandle : WindowPtr -> Handle) (w : WindowPtr)
            (m : gmap Handle WindowPtr),
        is_Some (m !! nativeHandle w) ->
        NativeWindowLookup.addWindow nativeHandle w m = m).
Proof.
  intros Hnoop.
  specialize (Hnoop same_handle 2%positive {[ 7%N := 1%positive ]}).
  assert (Hin : is_Some (({[ 7%N := 1%positive ]} : gmap Handle WindowPtr)
                           !! same_handle 2%positive)).
  { exists 1%positive. reflexivity. }
  specialize (Hnoop Hin).
  assert (Hfind : NativeWindowLookup.addWindow same_handle 2%positive
                    {[ 7%N := 1%positive ]} !! 7%N = Some 2%positive)
    by reflexivity.
  rewrite Hnoop in Hfind. discriminate Hfind.
Qed.

(** ** Reasoning about methods *)

Lemma returns_ret {A} (a : A) s (Q : A -> World -> Prop) :
  Q a s -> returns (ret a) s Q.
Proof. intros HQ. exists a, s. split; [reflexivity | exact HQ]. Qed.

Lemma returns_bind {A B} (m : M A) (k : A -> M B) s (Q : B -> World -> Prop) :
  returns m s (fun a s' => returns (k a) s' Q) -> returns (bind m k) s Q.
Proof.
  intros (a & s' & Hm & b & s'' & Hk & HQ).
  exists b, s''. split; [|exact HQ]. unfold bind. rewrite Hm. exact Hk.
Qed.

Lemma returns_gets {A} (f : World -> A) s (Q : A -> World -> Prop) :
  Q (f s) s -> returns (gets f) s Q.
Proof. intros HQ. exists (f s), s. split; [reflexivity | exact HQ]. Qed.

Lemma returns_modify (f : World -> World) s (Q : unit -> World -> Prop) :
  Q tt (f s) -> returns (modify f) s Q.
Proof. intros HQ. exists tt, (f s). split; [reflexivity | exact HQ]. Qed.

Lemma returns_weaken {A} (m : M A) s (P Q : A -> World -> Prop) :
  returns m s P -> (forall a s', P a s' -> Q a s') -> returns m s Q.
Proof. intros (a & s' & Hm & HP) HPQ. exists a, s'. auto. Qed.

Lemma returns_deref {A} (o : option A) (a : A) s (Q : A -> World -> Prop) :
  o = Some a -> Q a s -> returns (deref o) s Q.
Proof. intros -> HQ. apply returns_ret. exact HQ. Qed.

Lemma returns_when (b : bool) (m : M unit) s (Q : unit -> World -> Prop) :
  (b = true -> returns m s Q) -> (b = false -> Q tt s) -> returns (when b m) s Q.
Proof.
  destruct b; simpl; intros Ht Hf; [auto | apply returns_ret; auto].
Qed.

Lemma returns_emit (e : Event) s (Q : unit -> World -> Prop) :
  Q tt (world_with_trace (trace s ++ [e]) s) -> returns (emit e) s Q.
Proof. intros HQ. apply returns_modify. exact HQ. Qed.

Lemma returns_getView self v s (Q : VisageAppView -> World -> Prop) :
  views s !! self = Some v -> Q v s -> returns (getView self) s Q.
Proof.
  intros Hv HQ. apply returns_bind, returns_gets.
  apply (returns_deref _ v); assumption.
Qed.

Lemma returns_putView self v s (Q : unit -> World -> Prop) :
  Q tt (world_with_views (<[self := v]> (views s)) s) ->
  returns (putView self v) s Q.
Proof. intros HQ. apply returns_modify. exact HQ. Qed.

Lemma returns_getWindow this w s (Q : WindowMac -> World -> Prop) :
  windows s !! this = Some w -> Q w s -> returns (getWindow this) s Q.
Proof.
  intros Hw HQ. apply returns_bind, returns_gets.
  apply (returns_deref _ w); assumption.
Qed.

Lemma returns_putWindow this w s (Q : unit -> World -> Prop) :
  Q tt (world_with_windows (<[this := w]> (windows s)) s) ->
  returns (putWindow this w) s Q.
Proof. intros HQ. apply returns_modify. exact HQ. Qed.

Lemma returns_getNSWindow n o s (Q : NSWindow -> World -> Prop) :
  nswindows s !! n = Some o -> Q o s -> returns (getNSWindow n) s Q.
Proof.
  intros Hn HQ. apply returns_bind, returns_gets.
  apply (returns_deref _ o); assumption.
Qed.

Lemma returns_putNSWindow n o s (Q : unit -> World -> Prop) :
  Q tt (world_with_nswindows (<[n := o]> (nswindows s)) s) ->
  returns (putNSWindow n o) s Q.
Proof. intros HQ. apply returns_modify. exact HQ. Qed.

(** *** Diagnostics change nothing but the log *)

(** Proves a goal [quiet _ _] from the hypotheses [quiet _ _]: field by
    field, by their equations. *)
Ltac quiet_subst :=
  repeat match goal with
         | H : quiet _ _ |- _ =>
             destruct H as (? & ? & ? & ? & ? & ? & ? & ? & ? & ? & ?)
         end;
  unfold quiet; simpl in *;
  repeat match goal with
         | H : ?f ?s' = _ |- _ =>
             is_var s';
             lazymatch type of s' with World => idtac end;
             let x := fresh "x" in
             set (x := f s') in *; clearbody x; subst x
         end;
  rewrite ?insert_insert_eq in *.

Ltac quiet_fields :=
  quiet_subst;
  repeat split; try congruence;
  intros;
  repeat match goal with
         | H : _ = false -> _ |- _ => rewrite H by congruence
         end;
  try reflexivity;
  try (rewrite <- ?app_assoc; simpl; reflexivity).

Ltac quiet_solve := solve [quiet_fields].

Lemma quiet_refl s : quiet s s.
Proof. quiet_solve. Qed.

Lemma quiet_trans s1 s2 s3 : quiet s1 s2 -> quiet s2 s3 -> quiet s1 s3.
Proof. intros H12 H23. quiet_solve. Qed.

Lemma quiet_clock n s : quiet s (world_with_clock_reads n s).
Proof. quiet_solve. Qed.

Lemma quiet_statics m s : quiet s (world_with_statics m s).
Proof. quiet_solve. Qed.

Lemma quiet_log tag s :
  debug_enabled s = true ->
  quiet s (world_with_stderr (stderr s ++ [tag]) s).
Proof. intros Hon. quiet_solve. Qed.

Lemma quiet_views s s' : quiet s s' -> views s' = views s.
Proof. unfold quiet. tauto. Qed.

Lemma quiet_windows s s' : quiet s s' -> windows s' = windows s.
Proof. unfold quiet. tauto. Qed.

Lemma quiet_nswindows s s' : quiet s s' -> nswindows s' = nswindows s.
Proof. unfold quiet. tauto. Qed.

Lemma quiet_trace s s' : quiet s s' -> trace s' = trace s.
Proof. unfold quiet. tauto. Qed.

Lemma quiet_registry s s' :
  quiet s s' -> native_window_lookup_ s' = native_window_lookup_ s.
Proof. unfold quiet. tauto. Qed.

Lemma quiet_next_object s s' : quiet s s' -> next_object s' = next_object s.
Proof. unfold quiet. tauto. Qed.

Lemma quiet_debug s s' : quiet s s' -> debug_enabled s' = debug_enabled s.
Proof. unfold quiet. tauto. Qed.

Lemma quiet_screen_scale s s' : quiet s s' -> screen_scale s' = screen_scale s.
Proof. unfold quiet. tauto. Qed.

(** A lookup in a heap that the method has just written to, or that
    diagnostics have left alone. *)
Ltac lookup :=
  simpl;
  first [ eassumption
        | apply lookup_insert_eq
        | rewrite lookup_insert_eq; reflexivity
        | rewrite !lookup_insert_ne by congruence; eassumption
        | match goal with
          | H : quiet _ ?s |- context [views ?s] =>
              rewrite (quiet_views _ _ H); lookup
          | H : quiet _ ?s |- context [windows ?s] =>
              rewrite (quiet_windows _ _ H); lookup
          | H : quiet _ ?s |- context [nswindows ?s] =>
              rewrite (quiet_nswindows _ _ H); lookup
          end ].

(** One step of a method: the rule for the construct at its head. *)
Ltac step :=
  lazymatch goal with
  | |- returns (bind _ _) _ _ => apply returns_bind
  | |- returns (ret _) _ _ => apply returns_ret
  | |- returns (gets _) _ _ => apply returns_gets
  | |- returns (modify _) _ _ => apply returns_modify
  | |- returns (emit _) _ _ => apply returns_emit
  | |- returns (putView _ _) _ _ => apply returns_putView
  | |- returns (putWindow _ _) _ _ => apply returns_putWindow
  | |- returns (putNSWindow _ _) _ _ => apply returns_putNSWindow
  | |- returns (getView _) _ _ => eapply returns_getView; [lookup|]
  | |- returns (getWindow _) _ _ => eapply returns_getWindow; [lookup|]
  | |- returns (getNSWindow _) _ _ => eapply returns_getNSWindow; [lookup|]
  | |- returns (deref (Some _)) _ _ => apply returns_ret
  end.

Lemma time_microseconds_quiet s (Q : Z -> World -> Prop) :
  (forall t s', quiet s s' -> Q t s') -> returns time_microseconds s Q.
Proof.
  intros HQ. unfold time_microseconds. repeat step.
  apply HQ. apply quiet_clock.
Qed.

Lemma shouldLogEvery_quiet last interval s (Q : bool * Z -> World -> Prop) :
  (forall r s', quiet s s' -> Q r s') -> returns (shouldLogEvery last interval) s Q.
Proof.
  intros HQ. unfold shouldLogEvery. step.
  apply time_microseconds_quiet. intros t s' Hq.
  destruct (interval <=? uint64 (t - last)); step; apply HQ; exact Hq.
Qed.

Lemma visageDebugLog_quiet tag s (Q : unit -> World -> Prop) :
  (forall s', quiet s s' -> Q tt s') -> returns (visageDebugLog tag) s Q.
Proof.
  intros HQ. unfold visageDebugLog. repeat step.
  apply returns_when; intros Hd.
  - step. apply HQ. apply quiet_log. exact Hd.
  - apply HQ. apply quiet_refl.
Qed.

Lemma log_every_quiet name interval tag s (Q : unit -> World -> Prop) :
  (forall s', quiet s s' -> Q tt s') -> returns (log_every name interval tag) s Q.
Proof.
  intros HQ. unfold log_every. repeat step.
  apply returns_when; intros Hd; [|apply HQ, quiet_refl].
  unfold shouldLogEvery_static. repeat step.
  apply shouldLogEvery_quiet. intros r s1 Hq1. repeat step.
  apply returns_when; intros Hb.
  - apply visageDebugLog_quiet. intros s2 Hq2. apply HQ.
    eapply quiet_trans; [exact Hq1|].
    eapply quiet_trans; [apply quiet_statics|exact Hq2].
  - apply HQ. eapply quiet_trans; [exact Hq1|apply quiet_statics].
Qed.

(** ** The drawable of the Metal layer *)


Lemma view_becomes_lookup self v' s s' :
  view_becomes self v' s s' -> views s' !! self = Some v'.
Proof.
  intros Hq. rewrite (quiet_views _ _ Hq). simpl. apply lookup_insert_eq.
Qed.

Lemma view_becomes_nswindows self v' s s' :
  view_becomes self v' s s' -> nswindows s' = nswindows s.
Proof. intros Hq. apply (quiet_nswindows _ _ Hq). Qed.

Lemma view_becomes_windows self v' s s' :
  view_becomes self v' s s' -> windows s' = windows s.
Proof. intros Hq. apply (quiet_windows _ _ Hq). Qed.

Lemma view_becomes_trace self v' s s' :
  view_becomes self v' s s' -> trace s' = trace s.
Proof. intros Hq. apply (quiet_trace _ _ Hq). Qed.

Lemma updated_layer_matches scale v :
  drawable_matches (view_with_layer (Some (updated_layer scale v)) v).
Proof. exists (updated_layer scale v). split; reflexivity. Qed.

Lemma updateMetalLayerDrawableSize_spec self v l s (Q : unit -> World -> Prop) :
  views s !! self = Some v ->
  layer v = Some l ->
  window_alive s v ->
  (forall scale s',
      (forall n o, window v = Some n -> nswindows s !! n = Some o ->
                   scale = backingScaleFactor o) ->
      view_becomes self (view_with_layer (Some (updated_layer scale v)) v) s s' ->
      Q tt s') ->
  returns (updateMetalLayerDrawableSize self) s Q.
Proof.
  intros Hv Hl Halive HQ. unfold updateMetalLayerDrawableSize.
  repeat step. rewrite Hl.
  destruct (window v) as [n|] eqn:Hwin.
  - destruct (Halive n Hwin) as [o Ho].
    repeat step. apply log_every_quiet. intros s' Hq.
    apply (HQ (backingScaleFactor o)); [|exact Hq].
    intros n' o' Hn' Ho'. congruence.
  - destruct (ltb64 zero (contentsScale l)); repeat step;
      apply log_every_quiet; intros s' Hq;
      (eapply HQ; [intros n' o' Hn'; discriminate | exact Hq]).
Qed.

Lemma setFrameSize_spec self v l newSize s (Q : unit -> World -> Prop) :
  views s !! self = Some v ->
  layer v = Some l ->
  window_alive s v ->
  (forall scale s',
      (forall n o, window v = Some n -> nswindows s !! n = Some o ->
                   scale = backingScaleFactor o) ->
      view_becomes self
        (view_with_layer (Some (updated_layer scale (view_with_frame_size newSize v)))
                         (view_with_frame_size newSize v)) s s' ->
      Q tt s') ->
  returns (setFrameSize self newSize) s Q.
Proof.
  intros Hv Hl Halive HQ. unfold setFrameSize. repeat step.
  eapply updateMetalLayerDrawableSize_spec.
  - simpl. apply lookup_insert_eq.
  - simpl. exact Hl.
  - intros n Hn. simpl in *. apply Halive. exact Hn.
  - intros scale s' Hscale Hq. apply (HQ scale).
    + intros n o Hn Ho. apply (Hscale n o); simpl; assumption.
    + unfold view_becomes in *. simpl in Hq.
      rewrite insert_insert_eq in Hq. exact Hq.
Qed.

Lemma world_with_windows_same this wm s :
  windows s !! this = Some wm ->
  world_with_windows (<[this := wm]> (windows s)) s = s.
Proof.
  intros Hw. rewrite insert_id by exact Hw. destruct s; reflexivity.
Qed.

Lemma win_with_dpi_scale_same wm : win_with_dpi_scale_ (dpi_scale_ wm) wm = wm.
Proof. destruct wm; reflexivity. Qed.

Lemma setDpiScale_spec this wm scale s (Q : unit -> World -> Prop) :
  windows s !! this = Some wm ->
  Q tt (world_with_windows (<[this := win_with_dpi_scale_ scale wm]> (windows s)) s) ->
  returns (setDpiScale this scale) s Q.
Proof. intros Hw HQ. unfold setDpiScale. repeat step. exact HQ. Qed.

Lemma resetBackingScale_spec this wm s (Q : unit -> World -> Prop) :
  windows s !! this = Some wm ->
  (forall n, window_handle_ wm = Some n -> is_Some (nswindows s !! n)) ->
  (forall scale,
      Q tt (world_with_windows
              (<[this := win_with_dpi_scale_ scale wm]> (windows s)) s)) ->
  returns (resetBackingScale this) s Q.
Proof.
  intros Hw Halive HQ. unfold resetBackingScale. repeat step.
  destruct (window_handle_ wm) as [n|] eqn:Hh; simpl.
  - destruct (Halive n eq_refl) as [o Ho]. repeat step.
    eapply setDpiScale_spec; [exact Hw | apply HQ].
  - step. specialize (HQ (dpi_scale_ wm)).
    rewrite win_with_dpi_scale_same, world_with_windows_same in HQ by exact Hw.
    exact HQ.
Qed.

Lemma initWithFrame_spec frame_rect owner s (Q : NSViewPtr -> World -> Prop) :
  (forall v s',
      visage_window v = owner ->
      allow_quit v = false ->
      window v = None ->
      occlusion_observed v = [] ->
      frame_size v = rect_size frame_rect ->
      drawable_matches v ->
      quiet (world_with_trace (trace s ++ [CVDisplayLinkStart (next_object s)])
               (world_with_views (<[next_object s := v]> (views s))
                  (world_with_next_object (Pos.succ (next_object s)) s))) s' ->
      Q (next_object s) s') ->
  returns (initWithFrame frame_rect owner) s Q.
Proof.
  intros HQ. unfold initWithFrame, alloc. repeat step.
  eapply updateMetalLayerDrawableSize_spec.
  - simpl. apply lookup_insert_eq.
  - reflexivity.
  - intros n Hn. discriminate Hn.
  - intros scale s1 _ Hq1. repeat step.
    apply visageDebugLog_quiet. intros s2 Hq2. step.
    lazymatch type of Hq1 with
    | view_becomes _ ?v _ _ => apply (HQ v)
    end; try reflexivity.
    + apply updated_layer_matches.
    + unfold view_becomes in Hq1. quiet_solve.
Qed.

Lemma updated_layer_scale_follows scale v s s' :
  (forall n o, window v = Some n -> nswindows s !! n = Some o ->
               scale = backingScaleFactor o) ->
  nswindows s' = nswindows s ->
  scale_follows_window s' (view_with_layer (Some (updated_layer scale v)) v).
Proof.
  intros Hscale Hns n o l Hn Ho Hl. simpl in *.
  injection Hl as <-. simpl. rewrite Hns in Ho. eauto.
Qed.

(** C4: after the creation of the view, after [setFrameSize:] and after a
    change of the backing properties, the drawable of the Metal layer is
    the size of the view's bounds times the layer's contents scale, and the
    contents scale is the backing scale of the window the view is in.  The
    three methods are defined on every view that is alive with its window
    and its owner, whatever the bounds and the scale. *)
Theorem drawable_size_is_bounds_times_scale :
  (forall frame_rect owner s,
      returns (initWithFrame frame_rect owner) s (fun self s' =>
        exists v, views s' !! self = Some v
                  /\ bounds_size v = rect_size frame_rect
                  /\ drawable_matches v
                  /\ scale_follows_window s' v))
  /\ (forall self v newSize s,
        views s !! self = Some v -> is_Some (layer v) -> window_alive s v ->
        returns (setFrameSize self newSize) s (fun _ s' =>
          exists v', views s' !! self = Some v'
                     /\ bounds_size v' = newSize
                     /\ drawable_matches v'
                     /\ scale_follows_window s' v'))
  /\ (forall self v s,
        views s !! self = Some v -> is_Some (layer v) ->
        window_alive s v -> owner_alive s v ->
        returns (viewDidChangeBackingProperties self) s (fun _ s' =>
          exists v', views s' !! self = Some v'
                     /\ bounds_size v' = bounds_size v
                     /\ drawable_matches v'
                     /\ scale_follows_window s' v')).
Proof.
  split; [|split].
  - intros frame_rect owner s. apply initWithFrame_spec.
    intros v s' _ _ Hwin _ Hsize Hmatch Hq. exists v.
    split; [|split; [exact Hsize|split; [exact Hmatch|]]].
    + rewrite (quiet_views _ _ Hq). simpl. apply lookup_insert_eq.
    + intros n o l Hn. congruence.
  - intros self v newSize s Hv [l Hl] Halive.
    eapply setFrameSize_spec; try eassumption.
    intros scale s' Hscale Hq. eexists. split; [|split; [|split]].
    + apply (view_becomes_lookup _ _ _ _ Hq).
    + reflexivity.
    + apply updated_layer_matches.
    + apply (updated_layer_scale_follows scale _ s).
      * exact Hscale.
      * apply (view_becomes_nswindows _ _ _ _ Hq).
  - intros self v s Hv [l Hl] Halive Howner.
    unfold viewDidChangeBackingProperties. step.
    eapply updateMetalLayerDrawableSize_spec; try eassumption.
    intros scale s1 Hscale Hq1. step.
    eapply returns_getView; [apply (view_becomes_lookup _ _ _ _ Hq1)|].
    simpl.
    assert (Hdone : forall s2 : World,
               views s2 = views s1 -> nswindows s2 = nswindows s1 ->
               returns (log_every
                          "viewDidChangeBackingProperties.last_backing_log_us"
                          1000000 "backing") s2
                 (fun _ s' =>
                    exists v', views s' !! self = Some v'
                               /\ bounds_size v' = bounds_size v
                               /\ drawable_matches v'
                               /\ scale_follows_window s' v')).
    { intros s2 Hviews Hns. apply log_every_quiet. intros s3 Hq3.
      eexists. split; [|split; [|split]].
      - rewrite (quiet_views _ _ Hq3), Hviews.
        apply (view_becomes_lookup _ _ _ _ Hq1).
      - reflexivity.
      - apply updated_layer_matches.
      - apply (updated_layer_scale_follows scale _ s); [exact Hscale|].
        rewrite (quiet_nswindows _ _ Hq3), Hns.
        apply (view_becomes_nswindows _ _ _ _ Hq1). }
    destruct (visage_window v) as [w|] eqn:Hown.
    + destruct (Howner w Hown) as (wm & Hwm & Hhandle).
      step. eapply resetBackingScale_spec.
      * rewrite (view_becomes_windows _ _ _ _ Hq1). exact Hwm.
      * intros n Hn. rewrite (view_becomes_nswindows _ _ _ _ Hq1). auto.
      * intros scale'. apply Hdone; reflexivity.
    + repeat step. apply Hdone; reflexivity.
Qed.

(** On a display of scale 2 the view of 100 by 50 has the drawable 200 by
    100, the view of 1 by 1 the drawable 2 by 2, the empty view the empty
    drawable; on a display of scale 1 the drawable is the bounds. *)
Example drawable_at_scale_2 :
  let s := process_with_standalone_window in
  (drawable_after_resize s 2%positive 100 50,
   drawable_after_resize s 2%positive 1 1,
   drawable_after_resize s 2%positive 0 0)
  = (Some (CGSizeMake (of_Z64 200) (of_Z64 100)),
     Some (CGSizeMake (of_Z64 2) (of_Z64 2)),
     Some (CGSizeMake zero zero)).
Proof. vm_compute. reflexivity. Qed.

Example drawable_at_scale_1 :
  let s := plain_process_with_standalone_window in
  (drawable_after_resize s 2%positive 100 50,
   drawable_after_resize s 2%positive 1 1,
   drawable_after_resize s 2%positive 0 0)
  = (Some (CGSizeMake (of_Z64 100) (of_Z64 50)),
     Some (CGSizeMake (of_Z64 1) (of_Z64 1)),
     Some (CGSizeMake zero zero)).
Proof. vm_compute. reflexivity. Qed.

(** ** Redraws after the window is gone *)

Lemma drawWindow_detached self v s (Q : unit -> World -> Prop) :
  views s !! self = Some v ->
  visage_window v = None ->
  (forall s', quiet s s' -> Q tt s') ->
  returns (drawWindow self) s Q.
Proof.
  intros Hv Hnone HQ. unfold drawWindow. step. step. rewrite Hnone.
  apply log_every_quiet. exact HQ.
Qed.

(** With its owner behind it the view draws: the owner's draw callback is
    the one call that leaves. *)
Lemma drawWindow_attached self v w wm s :
  views s !! self = Some v ->
  visage_window v = Some w ->
  windows s !! w = Some wm ->
  returns (drawWindow self) s (fun _ s' =>
    exists time, trace s' = trace s ++ [DrawCallback w time]).
Proof.
  intros Hv Hown Hw. unfold drawWindow. step. step. rewrite Hown.
  step. apply time_microseconds_quiet. intros t s1 Hq.
  unfold drawCallback, call_window. step.
  eapply returns_getWindow; [rewrite (quiet_windows _ _ Hq); exact Hw|].
  step. eexists. simpl. rewrite (quiet_trace _ _ Hq). reflexivity.
Qed.

Lemma skipped_refl s : skipped s s.
Proof. unfold skipped. auto 10. Qed.

Lemma skipped_trans s1 s2 s3 : skipped s1 s2 -> skipped s2 s3 -> skipped s1 s3.
Proof.
  intros (Ht & Hw & Hn & Hr & Hd & Herr) (Ht' & Hw' & Hn' & Hr' & Hd' & Herr').
  unfold skipped. repeat split; try congruence.
  intros Hoff. rewrite Herr', Herr; congruence.
Qed.

Lemma quiet_skipped s s' : quiet s s' -> skipped s s'.
Proof. unfold quiet, skipped. tauto. Qed.

Lemma displayLayer_detached self v s :
  views s !! self = Some v ->
  visage_window v = None ->
  returns (displayLayer self) s (fun _ s' =>
    skipped s s'
    /\ exists v', views s' !! self = Some v' /\ visage_window v' = None).
Proof.
  intros Hv Hnone. unfold displayLayer. repeat step.
  apply time_microseconds_quiet. intros start_us s1 Hq1. step.
  eapply drawWindow_detached.
  { rewrite (quiet_views _ _ Hq1). simpl. apply lookup_insert_eq. }
  { exact Hnone. }
  intros s2 Hq2. step.
  apply time_microseconds_quiet. intros end_us s3 Hq3. step.
  assert (Hq : quiet (world_with_views
                        (<[self := view_with_draw_count
                                     (uint64 (draw_count v + 1)) v]> (views s)) s)
                     s3) by quiet_solve.
  clear Hq1 Hq2 Hq3.
  eapply returns_getView.
  { rewrite (quiet_views _ _ Hq). simpl. apply lookup_insert_eq. }
  repeat step. apply returns_when; intros Hd.
  - step.
    destruct (12000 <? uint64 (end_us - start_us)).
    + step. apply returns_when; [intros _|discriminate].
      apply visageDebugLog_quiet. intros s4 Hq4.
      split; [unfold skipped; repeat split; quiet_solve|].
      eexists. split; [rewrite (quiet_views _ _ Hq4); lookup|exact Hnone].
    + step. eapply returns_getView; [lookup|]. step.
      apply shouldLogEvery_quiet. intros r s4 Hq4. repeat step.
      eapply returns_weaken.
      { apply returns_when with
          (Q := fun _ s' => quiet (world_with_views
                                     (<[self := view_with_last_draw_log_us (snd r)
                                          (view_with_last_render_us end_us
                                             (view_with_draw_count
                                                (uint64 (draw_count v + 1)) v))]>
                                        (views s)) s) s').
        - intros _. apply visageDebugLog_quiet. intros s5 Hq5. quiet_solve.
        - intros _. quiet_solve. }
      intros [] s5 Hq5. split; [unfold skipped; repeat split; quiet_solve|].
      eexists. split; [rewrite (quiet_views _ _ Hq5); lookup|exact Hnone].
  - split; [unfold skipped; repeat split; quiet_solve|].
    eexists. split; [lookup|exact Hnone].
Qed.

(** Steps through straight-line code. *)
Ltac steps :=
  repeat first
    [ step
    | progress unfold on_handle, notifyHide, notifyShow, handleResized,
        call_window, registry_removeWindow, registry_addWindow,
        registry_anyWindowOpen, isEmbedded, isPopup, dpiScale, setVisible,
        setDpiScale, mouseRelativeMode
    | progress simpl ].

Lemma WindowMac_destroy_detaches this wm self v s :
  windows s !! this = Some wm ->
  view_ wm = Some self ->
  views s !! self = Some v ->
  (forall n, window_handle_ wm = Some n -> is_Some (nswindows s !! n)) ->
  returns (WindowMac_destroy this) s (fun _ s' =>
    windows s' !! this = None
    /\ exists v', views s' !! self = Some v' /\ visage_window v' = None).
Proof.
  intros Hw Hview Hv Halive. unfold WindowMac_destroy, hide. steps.
  destruct (window_handle_ wm) as [n|] eqn:Hh;
    destruct (parent_view_ wm) as [p|] eqn:Hp; simpl.
  all: try (destruct (Halive n eq_refl) as [o Ho]).
  all: steps; rewrite ?Hview, ?Hp; steps.
  all: try (unfold removeFromSuperview; steps;
            destruct (window v) as [n'|]; steps;
            try (unfold viewWillMoveToWindow; steps)).
  all: split; [apply lookup_delete_eq | eexists; split; [lookup | reflexivity]].
Qed.

Lemma redraws_detached n : forall self v s,
  views s !! self = Some v ->
  visage_window v = None ->
  returns (redraws n self) s (fun _ s' => skipped s s').
Proof.
  induction n as [|n IH]; intros self v s Hv Hnone; simpl.
  - step. apply skipped_refl.
  - step. eapply returns_weaken; [apply (displayLayer_detached self v s Hv Hnone)|].
    intros [] s1 (Hskip & v1 & Hv1 & Hnone1).
    eapply returns_weaken; [apply (IH self v1 s1 Hv1 Hnone1)|].
    intros [] s2 Hskip2. exact (skipped_trans _ _ _ Hskip Hskip2).
Qed.

(** C3: the destructor of the window sets the back-reference of its view
    to null; from then on a redraw of the view, [drawWindow] or any number
    of [displayLayer:], returns normally without calling the owner's
    [drawCallback] (no call leaves the view at all) and without touching a
    window; the only sign of the skipped draw is a line of the diagnostic
    log, and none when diagnostics are off. *)
Theorem redraw_after_detach_is_skipped
        (this : WindowPtr) (wm : WindowMac) (self : NSViewPtr)
        (v : VisageAppView) (s : World) (n : nat)
        (Hw : windows s !! this = Some wm)
        (Hview : view_ wm = Some self)
        (Hv : views s !! self = Some v)
        (Halive : forall h, window_handle_ wm = Some h -> is_Some (nswindows s !! h)) :
  returns (WindowMac_destroy this) s (fun _ s1 =>
    (exists v1, views s1 !! self = Some v1 /\ visage_window v1 = None)
    /\ returns (drawWindow self) s1 (fun _ s2 => quiet s1 s2)
    /\ returns (redraws n self) s1 (fun _ s2 => skipped s1 s2)).
Proof.
  eapply returns_weaken.
  { apply (WindowMac_destroy_detaches this wm self v s Hw Hview Hv Halive). }
  intros [] s1 (_ & v1 & Hv1 & Hnone1).
  split; [exists v1; auto|]. split.
  - apply (drawWindow_detached self v1 s1 _ Hv1 Hnone1). auto.
  - apply (redraws_detached n self v1 s1 Hv1 Hnone1).
Qed.

Lemma redraw_after_detach_is_skipped_witness :
  returns (WindowMac_destroy 1%positive) process_with_standalone_window
    (fun _ s1 =>
       (exists v1, views s1 !! 2%positive = Some v1 /\ visage_window v1 = None)
       /\ returns (drawWindow 2%positive) s1 (fun _ s2 => quiet s1 s2)
       /\ returns (redraws 3 2%positive) s1 (fun _ s2 => skipped s1 s2)).
Proof.
  apply (redraw_after_detach_is_skipped
           1%positive the_standalone_window 2%positive the_standalone_view
           process_with_standalone_window 3
           standalone_window_lookup eq_refl standalone_view_lookup).
  intros h Hh. injection Hh as <-. vm_compute. eexists. reflexivity.
Defined.

(** ** Pointer coordinates *)

Lemma eventPosition_spec self v w wm event s (Q : Point -> World -> Prop) :
  views s !! self = Some v ->
  visage_window v = Some w ->
  windows s !! w = Some wm ->
  (forall s', quiet s s' ->
              Q (framework_point (view_location event) (height (frame_size v))
                                 (dpi_scale_ wm)) s') ->
  returns (eventPosition self event) s Q.
Proof.
  intros Hv Hown Hw HQ. unfold eventPosition. steps. rewrite Hown. steps.
  apply log_every_quiet. intros s' Hq. step. apply HQ. exact Hq.
Qed.

Lemma dragPosition_spec self v w wm sender s (Q : Point -> World -> Prop) :
  views s !! self = Some v ->
  visage_window v = Some w ->
  windows s !! w = Some wm ->
  Q (framework_point (view_location sender) (height (frame_size v))
                     (dpi_scale_ wm)) s ->
  returns (dragPosition self sender) s Q.
Proof.
  intros Hv Hown Hw HQ. unfold dragPosition. steps. rewrite Hown. steps.
  exact HQ.
Qed.

Lemma sub64_zero_r (h : f64) : sub64 h zero = h.
Proof. destruct h as [[]|[]| |sg m e]; reflexivity. Qed.

Section PointerFacts.

Context {K : EventConstants}.

(** Steps through the body of a pointer handler of the view [self], whose
    owner [w] is alive. *)
Ltac handler self Hown :=
  repeat first
    [ step
    | eapply eventPosition_spec; [lookup | simpl; exact Hown | lookup | intros ? ?]
    | eapply dragPosition_spec; [lookup | simpl; exact Hown | lookup | ]
    | apply log_every_quiet; intros ? ?
    | rewrite Hown
    | progress unfold mouseMoved, mouseEntered, mouseExited, mouseDown, mouseUp,
        mouseDragged, rightMouseDown, rightMouseUp, rightMouseDragged,
        otherMouseDown, otherMouseUp, otherMouseDragged, scrollWheel,
        dragFiles, performDragOperation, forwardMouseMove, forwardMouseDown,
        forwardMouseUp, checkRelativeMode, makeKeyWindow, call_window,
        mouseRelativeMode, isPopup, on_handle, when
    | progress simpl ].

(** Closes the goal on the calls that left the handler. *)
Ltac delivered :=
  quiet_subst; simpl; eexists;
  split; [rewrite <- ?app_assoc; simpl; reflexivity|];
  split;
  [ repeat (apply List.Forall_cons;
            [simpl; intros q Hq; first [discriminate Hq | injection Hq as <-; reflexivity]|]);
    apply List.Forall_nil
  | intros Hpos; first [discriminate Hpos | apply List.Exists_cons_hd; reflexivity] ].

Lemma dispatch_delivers (k : PointerEvent) self v w wm event s :
  views s !! self = Some v ->
  visage_window v = Some w ->
  windows s !! w = Some wm ->
  returns (dispatch k self event) s (fun _ s' =>
    exists es, trace s' = trace s ++ es
               /\ all_at (framework_point (view_location event)
                            (height (frame_size v)) (dpi_scale_ wm)) es
               /\ (has_position k event = true ->
                   some_at (framework_point (view_location event)
                              (height (frame_size v)) (dpi_scale_ wm)) es)).
Proof.
  intros Hv Hown Hw. unfold all_at, some_at.
  destruct k; simpl dispatch; simpl has_position.
  - handler self Hown. delivered.
  - handler self Hown. delivered.
  - handler self Hown. delivered.
  - handler self Hown.
    destruct (isPopup_of wm), (window v), drag_source; handler self Hown; delivered.
  - handler self Hown. delivered.
  - handler self Hown.
    destruct (mouse_relative_mode_ wm); handler self Hown; delivered.
  - handler self Hown.
    destruct (isPopup_of wm), (window v); handler self Hown; delivered.
  - handler self Hown. delivered.
  - handler self Hown.
    destruct (mouse_relative_mode_ wm); handler self Hown; delivered.
  - unfold otherMouseDown. destruct (buttonNumber event =? 2); simpl.
    + handler self Hown.
      destruct (isPopup_of wm), (window v); handler self Hown; delivered.
    + handler self Hown. exists []. rewrite app_nil_r.
      split; [reflexivity|]. split; [constructor|discriminate].
  - unfold otherMouseUp. destruct (buttonNumber event =? 2); simpl.
    + handler self Hown. delivered.
    + handler self Hown. exists []. rewrite app_nil_r.
      split; [reflexivity|]. split; [constructor|discriminate].
  - handler self Hown.
    destruct (mouse_relative_mode_ wm); handler self Hown; delivered.
  - handler self Hown. delivered.
  - handler self Hown. delivered.
  - handler self Hown. delivered.
  - handler self Hown. delivered.
Qed.

End PointerFacts.

(** C6: for a pointer event at the view-local point [(x, y)] in a view of
    height [H] whose window has the DPI scale [s], [eventPosition:] and
    [dragPosition:] give [(x * s, (H - y) * s)], in the arithmetic of the
    code; every handler of the view passes that point, and no other, to the
    window's handler; and a point at [y = 0] gets the ordinate [H * s]. *)
Theorem pointer_position_is_flipped_then_scaled
        {K : EventConstants} (k : PointerEvent)
        (self : NSViewPtr) (v : VisageAppView) (w : WindowPtr) (wm : WindowMac)
        (event : NSEvent) (s : World)
        (Hv : views s !! self = Some v)
        (Hown : visage_window v = Some w)
        (Hw : windows s !! w = Some wm) :
  let p := framework_point (view_location event) (height (frame_size v))
                           (dpi_scale_ wm) in
  returns (eventPosition self event) s (fun r _ => r = p)
  /\ returns (dragPosition self event) s (fun r _ => r = p)
  /\ returns (dispatch k self event) s (fun _ s' =>
       exists es, trace s' = trace s ++ es
                  /\ all_at p es
                  /\ (has_position k event = true -> some_at p es))
  /\ pt_x p = mul32 (to_f32 (ns_x (view_location event))) (dpi_scale_ wm)
  /\ pt_y p = mul32 (to_f32 (sub64 (height (frame_size v))
                                   (ns_y (view_location event))))
                    (dpi_scale_ wm)
  /\ (ns_y (view_location event) = zero ->
      pt_y p = mul32 (to_f32 (height (frame_size v))) (dpi_scale_ wm)).
Proof.
  intros p. split; [|split; [|split; [|split; [|split]]]].
  - eapply eventPosition_spec; eauto.
  - eapply dragPosition_spec; eauto.
  - apply (dispatch_delivers k self v w wm event s Hv Hown Hw).
  - reflexivity.
  - reflexivity.
  - intros Hy. unfold p, framework_point. simpl. rewrite Hy, sub64_zero_r.
    reflexivity.
Qed.

Lemma pointer_position_is_flipped_then_scaled_witness :
  let s := process_with_standalone_window in
  let event := click_at 10 0 in
  let p := framework_point (view_location event) (of_Z64 600) (of_Z32 2) in
  returns (eventPosition 2%positive event) s (fun r _ => r = p)
  /\ returns (dragPosition 2%positive event) s (fun r _ => r = p)
  /\ returns (dispatch (K := example_constants) (MouseDown None) 2%positive event) s
       (fun _ s' =>
          exists es, trace s' = trace s ++ es
                     /\ all_at p es
                     /\ (has_position (MouseDown None) event = true -> some_at p es))
  /\ pt_x p = mul32 (to_f32 (ns_x (view_location event))) (of_Z32 2)
  /\ pt_y p = mul32 (to_f32 (sub64 (of_Z64 600) (ns_y (view_location event))))
                    (of_Z32 2)
  /\ (ns_y (view_location event) = zero ->
      pt_y p = mul32 (to_f32 (of_Z64 600)) (of_Z32 2)).
Proof.
  exact (pointer_position_is_flipped_then_scaled
           (K := example_constants) (MouseDown None)
           2%positive the_standalone_view 1%positive the_standalone_window
           (click_at 10 0) process_with_standalone_window
           standalone_view_lookup eq_refl standalone_window_lookup).
Defined.

(** The owner's scale is 2 and the view is 600 points high: the click at
    the view-local point (10, 0), on the bottom edge, is the framework
    point (20, 1200); the click at (10, 600), on the top edge, is (20, 0). *)
Example eventPosition_bottom_edge :
  fst <$> eventPosition 2%positive (click_at 10 0) process_with_standalone_window
  = Some {| pt_x := of_Z32 20; pt_y := of_Z32 1200 |}.
Proof. vm_compute. reflexivity. Qed.

Example eventPosition_top_edge :
  fst <$> eventPosition 2%positive (click_at 10 600) process_with_standalone_window
  = Some {| pt_x := of_Z32 20; pt_y := zero |}.
Proof. vm_compute. reflexivity. Qed.

(** ** The editor's [drawWindow] *)

Section EditorFacts.

Import ApplicationEditor.

Variable isDrawing : FramePtr -> bool.
Variable redraws : FramePtr -> list FramePtr.
Variable init_redraws : list FramePtr.

Lemma log_hidden_undrawn now e : undrawn e (log_hidden now e).
Proof.
  unfold undrawn, log_hidden.
  destruct (debug_enabled e) eqn:Hd; simpl; [|auto 10].
  destruct (due now (last_hidden_log_us e)); simpl; repeat split; auto;
    discriminate.
Qed.

Lemma log_size_undrawn now e : undrawn e (log_size now e).
Proof.
  unfold undrawn, log_size.
  destruct (debug_enabled e) eqn:Hd; simpl; [|auto 10].
  destruct (due now (last_size_log_us e)); simpl; repeat split; auto;
    discriminate.
Qed.

(** C10: when the attached window says it is not visible, or the width or
    the height of the editor is zero, [drawWindow] returns without
    drawing: the canvas (what was drawn, what was submitted), the stale
    children and the children being drawn are as before, the editor is not
    initialised by the call, and with diagnostics off nothing at all
    changes. *)
Theorem drawWindow_skipped_when_hidden_or_empty
        (fuel : nat) (now : Z) (e : Editor) (Hskip : skips e) :
  exists e', drawWindow isDrawing redraws init_redraws fuel now e = Some e'
             /\ undrawn e e'.
Proof.
  unfold drawWindow.
  destruct Hskip as [(w & Hw & Hhidden) | Hzero].
  - rewrite Hw, Hhidden. simpl. eexists. split; [reflexivity|].
    apply log_hidden_undrawn.
  - destruct (match window_ e with
              | Some w => negb (isVisible w)
              | None => false
              end).
    + eexists. split; [reflexivity|]. apply log_hidden_undrawn.
    + assert (Hor : eqb32 (width e) zero || eqb32 (height e) zero = true).
      { destruct Hzero as [-> | ->]; [reflexivity | apply orb_true_r]. }
      rewrite Hor. eexists. split; [reflexivity|]. apply log_size_undrawn.
Qed.

End EditorFacts.

Lemma drawWindow_skipped_when_hidden_or_empty_witness :
  exists e', ApplicationEditor.drawWindow
               (fun _ => true) (fun _ => []) [] 0 2000000
               (ApplicationEditor.example_editor false) = Some e'
             /\ ApplicationEditor.undrawn (ApplicationEditor.example_editor false) e'.
Proof.
  apply drawWindow_skipped_when_hidden_or_empty.
  left. eexists. split; reflexivity.
Defined.

(** The same editor behind a visible window draws its two stale children
    and submits the frame. *)
Example drawWindow_draws_when_visible :
  ApplicationEditor.drawWindow (fun _ => true) (fun _ => []) [] 2 2000000
    (ApplicationEditor.example_editor true)
  = Some {| ApplicationEditor.window_ :=
              Some {| ApplicationEditor.isVisible := true |};
            ApplicationEditor.width := of_Z32 800;
            ApplicationEditor.height := of_Z32 600;
            ApplicationEditor.initialized := true;
            ApplicationEditor.stale_children_ := [];
            ApplicationEditor.drawing_children_ := [];
            ApplicationEditor.canvas_ :=
              {| ApplicationEditor.drawn := [1; 2]%positive;
                 ApplicationEditor.submitted := 1 |};
            ApplicationEditor.debug_enabled := true;
            ApplicationEditor.log := ["drawWindow: visible"%string];
            ApplicationEditor.last_hidden_log_us := 0;
            ApplicationEditor.last_size_log_us := 0;
            ApplicationEditor.last_log_us := 2000000 |}.
Proof. vm_compute. reflexivity. Qed.

(** ** The life cycle of a standalone window *)

Lemma viewWillMoveToWindow_standalone self v w wm n s (Q : unit -> World -> Prop) :
  views s !! self = Some v ->
  visage_window v = Some w ->
  windows s !! w = Some wm ->
  parent_view_ wm = None ->
  (forall s',
      quiet (world_with_views
               (<[self := view_with_occlusion_observed (occlusion_observed v ++ [n]) v]>
                  (views s))
               (world_with_trace (trace s ++ [MakeFirstResponder n self]) s)) s' ->
      Q tt s') ->
  returns (viewWillMoveToWindow self (Some n)) s Q.
Proof.
  intros Hv Hown Hw Hparent HQ. unfold viewWillMoveToWindow, setParentWindow.
  steps. rewrite Hown. steps. rewrite Hparent. steps.
  unfold isEmbedded_of. rewrite Hparent. steps.
  apply visageDebugLog_quiet. intros s' Hq. apply HQ. exact Hq.
Qed.

Lemma createWindow_spec this wm view v s (Q : unit -> World -> Prop) :
  windows s !! this = Some wm ->
  parent_view_ wm = None ->
  view_ wm = Some view ->
  views s !! view = Some v ->
  visage_window v = Some this ->
  (forall s', quiet (after_createWindow this wm view v s) s' -> Q tt s') ->
  returns (createWindow this) s Q.
Proof.
  intros Hw Hparent Hview Hv Hown HQ.
  unfold createWindow, NSWindow_alloc, alloc, setContentView. steps.
  destruct (decoration_ wm) eqn:Hd; steps; rewrite Hview; steps.
  all: eapply viewWillMoveToWindow_standalone;
    [lookup | exact Hown | lookup | simpl; exact Hparent | intros s1 Hq1].
  all: steps.
  all: destruct (layer v) as [l|] eqn:Hl.
  all: unfold setFrameSize, updateMetalLayerDrawableSize; steps; rewrite Hl; steps.
  all: try (apply log_every_quiet; intros s2 Hq2).
  all: steps.
  all: apply HQ.
  all: unfold after_createWindow, content_view_of, new_native_window.
  all: rewrite ?Hl, ?Hd.
  all: quiet_solve.
Qed.

Lemma show_existing this wm n o s (Q : unit -> World -> Prop) :
  windows s !! this = Some wm ->
  parent_view_ wm = None ->
  window_handle_ wm = Some n ->
  nswindows s !! n = Some o ->
  (forall s', quiet (after_show this wm n o s) s' -> Q tt s') ->
  returns (show this) s Q.
Proof.
  intros Hw Hparent Hh Hn HQ. unfold show. steps.
  rewrite Hparent, Hh. steps. rewrite Hh. steps.
  destruct (isPopup_of wm) eqn:Hpop; steps; apply HQ; unfold after_show;
    rewrite Hpop; quiet_solve.
Qed.

Lemma show_creating this wm view v s (Q : unit -> World -> Prop) :
  windows s !! this = Some wm ->
  parent_view_ wm = None ->
  window_handle_ wm = None ->
  view_ wm = Some view ->
  views s !! view = Some v ->
  visage_window v = Some this ->
  (forall s',
      quiet (after_show this wm (next_object s)
               (new_native_window (decoration_ wm) (last_content_rect_ wm)
                                  (screen_scale s) view)
               (after_createWindow this wm view v s)) s' ->
      Q tt s') ->
  returns (show this) s Q.
Proof.
  intros Hw Hparent Hh Hview Hv Hown HQ. unfold show. steps.
  rewrite Hparent, Hh. steps.
  eapply createWindow_spec; try eassumption. intros s1 Hq1.
  unfold after_createWindow in Hq1. steps.
  unfold isPopup_of. simpl.
  destruct (decoration_ wm) eqn:Hd; steps; apply HQ;
    unfold after_show, after_createWindow, isPopup_of; rewrite Hd; quiet_solve.
Qed.

Lemma closeWindow_drops_handle this wm n o s :
  windows s !! this = Some wm ->
  parent_view_ wm = None ->
  window_handle_ wm = Some n ->
  nswindows s !! n = Some o ->
  returns (closeWindow this) s (fun _ s' =>
    exists wm', windows s' !! this = Some wm'
                /\ window_handle_ wm' = None
                /\ parent_view_ wm' = None
                /\ view_ wm' = view_ wm
                /\ decoration_ wm' = decoration_ wm
                /\ views s' = views s
                /\ native_window_lookup_ s' !! nativeHandle_of wm = None).
Proof.
  intros Hw Hparent Hh Hn. unfold closeWindow, hide. steps.
  rewrite Hh. steps. rewrite Hh, Hparent. steps.
  match goal with |- returns (when ?b _) _ _ => destruct b end; steps.
  all: eexists; split; [lookup|]; repeat split; simpl; try assumption.
  all: match goal with
       | |- NativeWindowLookup.removeWindow ?f ?t ?m !! _ = None =>
           replace (nativeHandle_of wm) with (f t);
           [ apply removeWindow_lookup_eq
           | unfold nativeHandle_in; simpl; rewrite lookup_insert_eq; reflexivity ]
       end.
Qed.

Lemma WindowMac_standalone_spec x y width height scale decoration s :
  returns (WindowMac_standalone x y width height scale decoration) s
    (fun this s1 =>
       constructed decoration (screen_scale s) this
                   (Pos.succ (Pos.succ (next_object s))) s1).
Proof.
  unfold WindowMac_standalone, alloc. steps.
  eapply initWithFrame_spec. intros v s1 Hown Hquit Hwin Hobs Hsize Hmatch Hq1.
  steps.
  eapply createWindow_spec;
    [lookup | reflexivity | reflexivity | lookup | simpl; exact Hown |].
  intros s2 Hq2. steps.
  pose proof (quiet_windows _ _ Hq2) as Hws.
  pose proof (quiet_views _ _ Hq2) as Hvs.
  pose proof (quiet_nswindows _ _ Hq2) as Hns.
  pose proof (quiet_next_object _ _ Hq2) as Hno.
  pose proof (quiet_registry _ _ Hq2) as Hreg.
  pose proof (quiet_next_object _ _ Hq1) as Hno1.
  pose proof (quiet_registry _ _ Hq1) as Hreg1.
  pose proof (quiet_screen_scale _ _ Hq1) as Hsc1.
  unfold after_createWindow in *. simpl in *.
  destruct Hmatch as (l & Hl & _).
  unfold constructed. simpl. rewrite <- Hno1.
  eexists _, _, _.
  split; [rewrite Hws; apply lookup_insert_eq|].
  split; [reflexivity|]. split; [reflexivity|]. split; [reflexivity|].
  split; [reflexivity|].
  split; [rewrite Hvs; apply lookup_insert_eq|].
  unfold content_view_of. simpl. rewrite Hl. simpl.
  split; [exact Hown|]. split; [reflexivity|].
  split; [apply updated_layer_matches|].
  split; [rewrite Hns, Hsc1; rewrite lookup_insert_eq; reflexivity|].
  split; [|rewrite Hno; reflexivity].
  unfold NativeWindowLookup.findWindow.
  replace (N.pos (Pos.succ (next_object s)))
    with (nativeHandle_in s2 (next_object s)).
  - apply addWindow_lookup_eq.
  - unfold nativeHandle_in. rewrite Hws, lookup_insert_eq. reflexivity.
Qed.

(** C1, as the code has it: the constructor of a standalone window
    creates the backing view with its Metal layer and, by its call of
    [createWindow], the native top-level window as well, in the style of
    the decoration kind, holding the view, not yet on screen; it registers
    the window.  [show] on the constructed window allocates nothing: it
    puts that native window on screen.  [show] creates the native window
    only for a window that has none, as [closeWindow] leaves it. *)
Theorem native_window_is_created_by_the_constructor :
  (forall x y width height scale decoration s,
      returns (WindowMac_standalone x y width height scale decoration) s
        (fun this s1 =>
           let n := Pos.succ (Pos.succ (next_object s)) in
           constructed decoration (screen_scale s) this n s1
           /\ returns (show this) s1 (fun _ s2 =>
                next_object s2 = next_object s1
                /\ windows s2 = windows s1
                /\ exists o, nswindows s1 !! n = Some o
                             /\ nswindows s2 =
                                <[n := NSWindow_with_isVisible true o]> (nswindows s1))))
  /\ (forall this wm view v s,
         windows s !! this = Some wm ->
         parent_view_ wm = None ->
         window_handle_ wm = None ->
         view_ wm = Some view ->
         views s !! view = Some v ->
         visage_window v = Some this ->
         returns (show this) s (fun _ s' =>
           let n := next_object s in
           next_object s' = Pos.succ n
           /\ (exists wm', windows s' !! this = Some wm'
                           /\ window_handle_ wm' = Some n)
           /\ nswindows s' !! n =
              Some (NSWindow_with_isVisible true
                      (new_native_window (decoration_ wm) (last_content_rect_ wm)
                                         (screen_scale s) view))))
  /\ (forall this wm n o s,
         windows s !! this = Some wm ->
         parent_view_ wm = None ->
         window_handle_ wm = Some n ->
         nswindows s !! n = Some o ->
         returns (closeWindow this) s (fun _ s' =>
           exists wm', windows s' !! this = Some wm'
                       /\ window_handle_ wm' = None)).
Proof.
  split; [|split].
  - intros x y width height scale decoration s.
    eapply returns_weaken; [apply WindowMac_standalone_spec|].
    intros this s1 Hc. split; [exact Hc|].
    destruct Hc as (wm & view & v & Hw & Hd & Hparent & Hview & Hh & Hv & Hown
                    & Hwin & Hmatch & Hn & Hreg & Hno).
    eapply show_existing; try eassumption.
    intros s2 Hq. unfold after_show in Hq.
    split; [rewrite (quiet_next_object _ _ Hq); reflexivity|].
    split; [rewrite (quiet_windows _ _ Hq); reflexivity|].
    eexists. split; [exact Hn|].
    rewrite (quiet_nswindows _ _ Hq). reflexivity.
  - intros this wm view v s Hw Hparent Hh Hview Hv Hown.
    eapply show_creating; try eassumption.
    intros s' Hq. unfold after_show, after_createWindow in Hq.
    split; [rewrite (quiet_next_object _ _ Hq); reflexivity|].
    split.
    + eexists. split; [rewrite (quiet_windows _ _ Hq); simpl; apply lookup_insert_eq|].
      reflexivity.
    + rewrite (quiet_nswindows _ _ Hq). simpl. apply lookup_insert_eq.
  - intros this wm n o s Hw Hparent Hh Hn.
    eapply returns_weaken;
      [apply (closeWindow_drops_handle this wm n o s Hw Hparent Hh Hn)|].
    intros [] s' (wm' & Hw' & Hh' & _). eauto.
Qed.

(** C1 as stated fails: the window constructed in [retina_process] has the
    native window 3. *)
Lemma native_window_is_not_created_lazily : ~ native_window_is_created_lazily.
Proof.
  intros Hlazy.
  destruct (WindowMac_standalone_spec 100 100 1600 1200 (of_Z32 2) Native
                                      retina_process)
    as (this & s1 & Hrun & wm & view & v & Hwm & _ & _ & _ & Hhandle & _).
  destruct (Hlazy _ _ _ _ _ _ _ _ _ Hrun) as (wm' & Hwm' & Hnone).
  congruence.
Qed.

(** [show], then [closeWindow], then [show] again on that window: the
    first [show] allocates nothing (the next free address stays 4), the
    second one creates the native window 4. *)
Example show_after_close_creates_a_native_window :
  let s1 := state_after (show 1%positive) process_with_standalone_window in
  let s2 := state_after (closeWindow 1%positive) s1 in
  let s3 := state_after (show 1%positive) s2 in
  (next_object process_with_standalone_window, next_object s1,
   window_handle_ <$> windows s1 !! 1%positive,
   window_handle_ <$> windows s2 !! 1%positive,
   window_handle_ <$> windows s3 !! 1%positive,
   isVisible <$> nswindows s3 !! 4%positive)
  = (4%positive, 4%positive, Some (Some 3%positive), Some None,
     Some (Some 4%positive), Some true).
Proof. vm_compute. reflexivity. Qed.

(** ** Embedded windows and occlusion *)

Lemma leaves_alone_refl this s : leaves_alone this s s.
Proof. unfold leaves_alone. auto. Qed.

Lemma leaves_alone_trans this s1 s2 s3 :
  leaves_alone this s1 s2 -> leaves_alone this s2 s3 -> leaves_alone this s1 s3.
Proof.
  intros (Hv & Hn & Hr & Hw & Hd) (Hv' & Hn' & Hr' & Hw' & Hd').
  unfold leaves_alone. repeat split; try congruence. auto.
Qed.

Lemma windowOcclusionChanged_other this a va n o s :
  views s !! a = Some va ->
  nswindows s !! n = Some o ->
  (forall w', visage_window va = Some w' -> w' <> this /\ is_Some (windows s !! w')) ->
  returns (windowOcclusionChanged a n) s (fun _ s' => leaves_alone this s s').
Proof.
  intros Hva Hn Hown. unfold windowOcclusionChanged. steps.
  destruct (visage_window va) as [w'|] eqn:Hw'.
  - destruct (Hown w' eq_refl) as (Hne & wm' & Hwm'). steps.
    apply visageDebugLog_quiet. intros s' Hq.
    unfold leaves_alone.
    rewrite (quiet_views _ _ Hq), (quiet_nswindows _ _ Hq),
      (quiet_registry _ _ Hq), (quiet_windows _ _ Hq). simpl.
    repeat split.
    + apply lookup_insert_ne. congruence.
    + intros w Hw. destruct (decide (w' = w)) as [->|Hne'].
      * rewrite lookup_insert_eq. eauto.
      * rewrite lookup_insert_ne by exact Hne'. exact Hw.
  - steps. apply visageDebugLog_quiet. intros s' Hq.
    unfold leaves_alone.
    rewrite (quiet_views _ _ Hq), (quiet_nswindows _ _ Hq),
      (quiet_registry _ _ Hq), (quiet_windows _ _ Hq). auto.
Qed.

Lemma deliver_occlusion_others this n o observers : forall s,
  nswindows s !! n = Some o ->
  Forall (fun a => exists va, views s !! a = Some va
                              /\ forall w', visage_window va = Some w' ->
                                            w' <> this /\ is_Some (windows s !! w'))
         observers ->
  returns (deliver_occlusion n observers) s (fun _ s' => leaves_alone this s s').
Proof.
  induction observers as [|a rest IH]; intros s Hn Hall; simpl.
  - step. apply leaves_alone_refl.
  - inversion Hall as [|? ? (va & Hva & Hown) Hrest]; subst.
    step. eapply returns_weaken.
    { apply (windowOcclusionChanged_other this a va n o s Hva Hn Hown). }
    intros [] s1 Hl1. eapply returns_weaken.
    { apply IH.
      - destruct Hl1 as (_ & -> & _). exact Hn.
      - destruct Hl1 as (Hv1 & _ & _ & _ & Hdom).
        eapply Forall_impl; [exact Hrest|]. intros b (vb & Hvb & Hownb).
        exists vb. rewrite Hv1. split; [exact Hvb|].
        intros w' Hw'. destruct (Hownb w' Hw'). auto. }
    intros [] s2 Hl2. exact (leaves_alone_trans _ _ _ _ Hl1 Hl2).
Qed.

Lemma occlusion_observers_spec n (vs : gmap NSViewPtr VisageAppView) a :
  a ∈ occlusion_observers n vs ->
  exists va, vs !! a = Some va /\ occlusion_observed va <> [].
Proof.
  unfold occlusion_observers. intros Hin%list_elem_of_In.
  apply in_flat_map in Hin as ([b vb] & Hin & Ha). simpl in Ha.
  apply in_map_iff in Ha as (m & <- & Hm).
  exists vb. split.
  - apply elem_of_map_to_list. apply list_elem_of_In. exact Hin.
  - intros Hnil. rewrite Hnil in Hm. simpl in Hm. exact Hm.
Qed.

Lemma embedded_inv_update this self s s' wm' v' :
  embedded_inv this self s ->
  windows s' = <[this := wm']> (windows s) ->
  is_Some (parent_view_ wm') ->
  (forall h, window_handle_ wm' = Some h -> is_Some (nswindows s' !! h)) ->
  views s' = <[self := v']> (views s) ->
  visage_window v' = Some this ->
  occlusion_observed v' = [] ->
  embedded_inv this self s'.
Proof.
  intros (_ & _ & Hothers) Hws [p Hp] Halive Hvs Hown Hobs.
  split; [|split].
  - exists wm', p. rewrite Hws, lookup_insert_eq. auto.
  - exists v'. rewrite Hvs, lookup_insert_eq. auto.
  - intros a va w' Hva Hsub Hw'. rewrite Hvs in Hva.
    destruct (decide (self = a)) as [->|Hne].
    + rewrite lookup_insert_eq in Hva. congruence.
    + rewrite lookup_insert_ne in Hva by exact Hne.
      destruct (Hothers a va w' Hva Hsub Hw') as [Hthis Hsome].
      split; [exact Hthis|]. rewrite Hws, lookup_insert_ne by congruence.
      exact Hsome.
Qed.

Lemma host_attach_embedded this self n s :
  embedded_inv this self s ->
  is_Some (nswindows s !! n) ->
  returns (host_event self (HostAttach n)) s (fun _ s' =>
    embedded_inv this self s'
    /\ visible_in s' this = Some true
    /\ nswindows s' = nswindows s).
Proof.
  intros Hinv [o Ho]. pose proof Hinv as
      ((wm & p & Hw & Hparent & Halive) & (v & Hv & Hown & Hobs) & Hothers).
  unfold host_event, viewWillMoveToWindow, setParentWindow, resetBackingScale.
  steps. rewrite Hown. steps. rewrite Hparent. steps.
  destruct (view_ wm) as [view|]; steps.
  all: unfold isEmbedded_of; simpl; rewrite Hparent; steps.
  all: apply visageDebugLog_quiet; intros s1 Hq; steps.
  all: pose proof (quiet_windows _ _ Hq) as Hws;
       pose proof (quiet_views _ _ Hq) as Hvs;
       pose proof (quiet_nswindows _ _ Hq) as Hns;
       simpl in Hws, Hvs, Hns; rewrite ?insert_insert_eq in Hws.
  all: split; [|split; [|exact Hns]].
  all: try (eapply embedded_inv_update;
            [ exact Hinv | simpl; exact Hws | simpl; eauto
            | simpl; intros h [= <-]; rewrite Hns; eauto
            | simpl; rewrite Hvs; reflexivity | simpl; exact Hown | simpl; exact Hobs ]).
  all: unfold visible_in; simpl; rewrite Hws, lookup_insert_eq; reflexivity.
Qed.

Lemma host_detach_embedded this self s :
  embedded_inv this self s ->
  returns (host_event self HostDetach) s (fun _ s' =>
    embedded_inv this self s'
    /\ visible_in s' this = visible_in s this
    /\ nswindows s' = nswindows s).
Proof.
  intros Hinv. pose proof Hinv as
      ((wm & p & Hw & Hparent & Halive) & (v & Hv & Hown & Hobs) & Hothers).
  unfold host_event, viewWillMoveToWindow, closeWindow, hide.
  steps. rewrite Hown. steps.
  destruct (window_handle_ wm) as [h|] eqn:Hh.
  - destruct (Halive h eq_refl) as [o Ho]. steps. rewrite Hh, Hparent. steps.
    match goal with |- returns (when ?b _) _ _ => destruct b end; steps.
    all: split; [|split; [|reflexivity]].
    all: try (eapply embedded_inv_update;
              [ exact Hinv | simpl; rewrite ?insert_insert_eq; reflexivity
              | simpl; eauto | simpl; intros h' Hh'; discriminate Hh'
              | simpl; reflexivity | simpl; exact Hown | simpl; exact Hobs ]).
    all: unfold visible_in; simpl; rewrite lookup_insert_eq, Hw; reflexivity.
  - steps. rewrite Hh. steps.
    match goal with |- returns (when ?b _) _ _ => destruct b end; steps.
    all: split; [|split; [|reflexivity]].
    all: try (eapply embedded_inv_update;
              [ exact Hinv | simpl; rewrite ?insert_insert_eq; reflexivity
              | simpl; eauto | simpl; intros h' Hh'; discriminate Hh'
              | simpl; reflexivity | simpl; exact Hown | simpl; exact Hobs ]).
    all: unfold visible_in; simpl; rewrite lookup_insert_eq, Hw; reflexivity.
Qed.

Lemma host_occlusion_embedded this self n state s :
  embedded_inv this self s ->
  is_Some (nswindows s !! n) ->
  returns (host_event self (HostOcclusion n state)) s (fun _ s' =>
    embedded_inv this self s'
    /\ visible_in s' this = visible_in s this
    /\ forall m, is_Some (nswindows s !! m) -> is_Some (nswindows s' !! m)).
Proof.
  intros Hinv [o Ho]. pose proof Hinv as
      ((wm & p & Hw & Hparent & Halive) & (v & Hv & Hown & Hobs) & Hothers).
  unfold host_event, occlusionStateChanged. steps.
  eapply returns_weaken.
  { eapply (deliver_occlusion_others this n).
    - simpl. apply lookup_insert_eq.
    - simpl. apply Forall_forall. intros a Ha.
      destruct (occlusion_observers_spec _ _ _ Ha) as (va & Hva & Hsub).
      exists va. split; [exact Hva|]. intros w' Hw'.
      exact (Hothers a va w' Hva Hsub Hw'). }
  intros [] s' (Hvs & Hns & Hreg & Hthis & Hdom). simpl in *.
  assert (Hgrow : forall m, is_Some (nswindows s !! m) -> is_Some (nswindows s' !! m)).
  { intros m Hm. rewrite Hns. destruct (decide (n = m)) as [->|Hne].
    - rewrite lookup_insert_eq. eauto.
    - rewrite lookup_insert_ne by exact Hne. exact Hm. }
  split; [|split; [unfold visible_in; rewrite Hthis; reflexivity|exact Hgrow]].
  split; [|split].
  - exists wm, p. rewrite Hthis. auto.
  - exists v. rewrite Hvs. auto.
  - intros a va w' Hva Hsub Hw'. rewrite Hvs in Hva.
    destruct (Hothers a va w' Hva Hsub Hw'). auto.
Qed.

Lemma embedded_inv_ext this self s s' :
  windows s' = windows s -> views s' = views s -> nswindows s' = nswindows s ->
  embedded_inv this self s -> embedded_inv this self s'.
Proof.
  intros Hw Hv Hn. unfold embedded_inv. rewrite Hw, Hv, Hn. auto.
Qed.

Lemma WindowMac_embedded_inv width height scale parent parent_window s :
  (forall a v' w', views s !! a = Some v' -> occlusion_observed v' <> [] ->
                   visage_window v' = Some w' -> is_Some (windows s !! w')) ->
  windows s !! next_object s = None ->
  (forall n, parent_window = Some n -> is_Some (nswindows s !! n)) ->
  returns (WindowMac_embedded width height scale parent parent_window) s
    (fun this s1 =>
       this = next_object s
       /\ embedded_inv this (Pos.succ this) s1
       /\ nswindows s1 = nswindows s
       /\ (is_Some parent_window -> visible_in s1 this = Some true)).
Proof.
  intros Hwf Hfresh Hparent. unfold WindowMac_embedded, alloc. steps.
  eapply initWithFrame_spec. intros v s1 Hown Hquit Hwin Hobs Hsize Hmatch Hq1.
  steps. unfold addSubview. steps.
  pose proof (quiet_windows _ _ Hq1) as Hws.
  pose proof (quiet_views _ _ Hq1) as Hvs.
  pose proof (quiet_nswindows _ _ Hq1) as Hns.
  simpl in Hws, Hvs, Hns.
  match goal with
  | |- returns _ ?S0 _ =>
      assert (Hinv0 : embedded_inv (next_object s) (Pos.succ (next_object s)) S0)
  end.
  { split; [|split].
    - eexists _, parent. simpl. rewrite lookup_insert_eq.
      split; [reflexivity|]. split; [reflexivity|]. intros h Hh. discriminate Hh.
    - eexists. simpl. rewrite lookup_insert_eq.
      split; [reflexivity|]. simpl. auto.
    - simpl. intros a va w' Hva Hsub Hw'. rewrite Hvs in Hva.
      destruct (decide (Pos.succ (next_object s) = a)) as [<-|Hne].
      + rewrite lookup_insert_eq in Hva. injection Hva as <-.
        simpl in Hsub. congruence.
      + rewrite !lookup_insert_ne in Hva by exact Hne.
        pose proof (Hwf a va w' Hva Hsub Hw') as Hsome.
        assert (w' <> next_object s).
        { intros Heq. apply (proj1 (eq_None_not_Some _) Hfresh).
          rewrite <- Heq. exact Hsome. }
        split; [assumption|].
        rewrite lookup_insert_ne, Hws, lookup_insert_ne by congruence.
        exact Hsome. }
  assert (Hdone : forall s2 : World,
             embedded_inv (next_object s) (Pos.succ (next_object s)) s2 ->
             nswindows s2 = nswindows s ->
             (is_Some parent_window -> visible_in s2 (next_object s) = Some true) ->
             returns (registry_addWindow (next_object s);; ret (next_object s)) s2
               (fun this s0 =>
                  this = next_object s
                  /\ embedded_inv this (Pos.succ this) s0
                  /\ nswindows s0 = nswindows s
                  /\ (is_Some parent_window -> visible_in s0 this = Some true))).
  { intros s2 Hinv2 Hns2 Hvis2.
    destruct Hinv2 as ((wm2 & p2 & Hw2 & Hrest2) & Hview2 & Hothers2).
    steps. split; [reflexivity|].
    split; [|split; [exact Hns2|exact Hvis2]].
    eapply embedded_inv_ext; [..|split; [eauto|split; eassumption]]; reflexivity. }
  destruct parent_window as [n|].
  - eapply returns_weaken.
    { apply (host_attach_embedded (next_object s) (Pos.succ (next_object s)) n _ Hinv0).
      simpl. rewrite Hns. apply Hparent. reflexivity. }
    intros [] s2 (Hinv2 & Hvis2 & Hns2). apply Hdone; auto.
    rewrite Hns2. simpl. exact Hns.
  - step. apply Hdone; auto.
    intros [? ?]. discriminate.
Qed.

Lemma host_events_embedded this self es : forall s,
  embedded_inv this self s ->
  Forall (fun n => is_Some (nswindows s !! n)) (host_windows es) ->
  returns (host_events self es) s (fun _ s' =>
    embedded_inv this self s'
    /\ (existsb is_attach es = true -> visible_in s' this = Some true)
    /\ (visible_in s this = Some true -> visible_in s' this = Some true)
    /\ (forall m, is_Some (nswindows s !! m) -> is_Some (nswindows s' !! m))).
Proof.
  induction es as [|e es IH]; intros s Hinv Halive; simpl.
  - step. split; [exact Hinv|]. split; [discriminate|auto].
  - step.
    assert (Hnext : forall s1,
               embedded_inv this self s1 ->
               (forall m, is_Some (nswindows s !! m) -> is_Some (nswindows s1 !! m)) ->
               (is_attach e = true -> visible_in s1 this = Some true) ->
               (visible_in s this = Some true -> visible_in s1 this = Some true) ->
               returns (host_events self es) s1 (fun _ s' =>
                 embedded_inv this self s'
                 /\ (is_attach e || existsb is_attach es = true ->
                     visible_in s' this = Some true)
                 /\ (visible_in s this = Some true -> visible_in s' this = Some true)
                 /\ (forall m, is_Some (nswindows s !! m) ->
                               is_Some (nswindows s' !! m)))).
    { intros s1 Hinv1 Hgrow Hatt Hkeep.
      eapply returns_weaken.
      - apply IH; [exact Hinv1|].
        simpl in Halive. apply Forall_app in Halive as [_ Hrest].
        eapply Forall_impl; [exact Hrest|]. intros m Hm. apply Hgrow, Hm.
      - intros [] s2 (Hinv2 & Hatt2 & Hkeep2 & Hgrow2).
        split; [exact Hinv2|]. split; [|split].
        + intros Hor. apply orb_true_iff in Hor as [He|Hes]; auto.
        + auto.
        + auto. }
    simpl in Halive. apply Forall_app in Halive as [Hhere _].
    destruct e as [n| |n state].
    + inversion Hhere as [|? ? Hn _]; subst.
      eapply returns_weaken; [apply (host_attach_embedded this self n s Hinv Hn)|].
      intros [] s1 (Hinv1 & Hvis & Hns). apply Hnext; auto.
      intros m Hm. rewrite Hns. exact Hm.
    + eapply returns_weaken; [apply (host_detach_embedded this self s Hinv)|].
      intros [] s1 (Hinv1 & Hvis & Hns). apply Hnext; auto.
      * intros m Hm. rewrite Hns. exact Hm.
      * discriminate.
      * intros Hv. rewrite Hvis. exact Hv.
    + inversion Hhere as [|? ? Hn _]; subst.
      eapply returns_weaken;
        [apply (host_occlusion_embedded this self n state s Hinv Hn)|].
      intros [] s1 (Hinv1 & Hvis & Hgrow). apply Hnext; auto.
      * discriminate.
      * intros Hv. rewrite Hvis. exact Hv.
Qed.

(** *** The example process with the embedded window hidden *)

Lemma hidden_embedded_window_lookup :
  windows process_with_hidden_embedded_window !! 1%positive
  = Some (win_with_visible_ false the_embedded_window).
Proof. vm_compute. reflexivity. Qed.

Lemma hidden_embedded_views :
  views process_with_hidden_embedded_window = {[ 2%positive := the_embedded_view ]}.
Proof. vm_compute. reflexivity. Qed.

Lemma hidden_embedded_host_window_lookup :
  nswindows process_with_hidden_embedded_window !! 10%positive = Some host_window.
Proof. vm_compute. reflexivity. Qed.

Lemma hidden_embedded_window_inv :
  embedded_inv 1%positive 2%positive process_with_hidden_embedded_window.
Proof.
  split; [|split].
  - exists (win_with_visible_ false the_embedded_window), 9%positive.
    split; [exact hidden_embedded_window_lookup|]. split; [reflexivity|].
    intros h [= <-]. exists host_window. exact hidden_embedded_host_window_lookup.
  - exists the_embedded_view. rewrite hidden_embedded_views, lookup_singleton_eq.
    split; [reflexivity|]. split; reflexivity.
  - intros a v' w' Hv' Hobs Hw'. rewrite hidden_embedded_views in Hv'.
    apply lookup_singleton_Some in Hv' as [<- <-]. destruct Hobs. reflexivity.
Qed.

(** C7: the constructor makes every embedded window a window whose view
    observes the occlusion of no window ([embedded_inv]).  For such a
    window, in whatever state it is and whatever its visibility has been
    set to, and through every sequence of attachments to host windows,
    detachments and occlusion changes of host windows: its view never
    observes the occlusion of a window; the attachment to a host window
    sets its visibility to true, also when it was false before; and
    visibility that is true stays true, no occlusion change sets it to
    false.  All the calls are defined. *)
Theorem embedded_window_is_not_hidden_by_occlusion
        (width height : Z) (scale : f32) (parent : NSViewPtr)
        (parent_window : option NSWindowPtr) (s0 : World)
        (Hwf : forall a v' w', views s0 !! a = Some v' ->
                               occlusion_observed v' <> [] ->
                               visage_window v' = Some w' ->
                               is_Some (windows s0 !! w'))
        (Hfresh : windows s0 !! next_object s0 = None)
        (Hparent : forall n, parent_window = Some n -> is_Some (nswindows s0 !! n))
        (this : WindowPtr) (self : NSViewPtr) (n : NSWindowPtr)
        (before after : list HostEvent) (s : World)
        (Hinv : embedded_inv this self s)
        (Halive : Forall (fun m => is_Some (nswindows s !! m))
                         (host_windows (before ++ HostAttach n :: after))) :
  returns (WindowMac_embedded width height scale parent parent_window) s0
    (fun new s1 =>
       embedded_inv new (Pos.succ new) s1
       /\ (is_Some parent_window -> visible_in s1 new = Some true))
  /\ returns (host_events self before) s (fun _ s1 =>
       embedded_inv this self s1
       /\ (visible_in s this = Some true -> visible_in s1 this = Some true)
       /\ returns (host_event self (HostAttach n)) s1 (fun _ s2 =>
            embedded_inv this self s2
            /\ visible_in s2 this = Some true
            /\ returns (host_events self after) s2 (fun _ s3 =>
                 embedded_inv this self s3
                 /\ visible_in s3 this = Some true))).
Proof.
  split.
  { eapply returns_weaken.
    - apply (WindowMac_embedded_inv width height scale parent parent_window s0
               Hwf Hfresh Hparent).
    - intros new s1 (_ & Hinv1 & _ & Hvis). auto. }
  unfold host_windows in Halive. rewrite flat_map_app in Halive.
  apply Forall_app in Halive as [Hbefore Hrest]. simpl in Hrest.
  inversion Hrest as [|? ? Hn Hafter]; subst.
  eapply returns_weaken;
    [apply (host_events_embedded this self before s Hinv Hbefore)|].
  intros [] s1 (Hinv1 & _ & Hkeep1 & Hgrow1).
  split; [exact Hinv1|]. split; [exact Hkeep1|].
  eapply returns_weaken;
    [apply (host_attach_embedded this self n s1 Hinv1 (Hgrow1 n Hn))|].
  intros [] s2 (Hinv2 & Hvis2 & Hns2).
  split; [exact Hinv2|]. split; [exact Hvis2|].
  eapply returns_weaken.
  { apply (host_events_embedded this self after s2 Hinv2).
    eapply Forall_impl; [exact Hafter|]. intros m Hm. simpl in Hm.
    rewrite Hns2. apply Hgrow1, Hm. }
  intros [] s3 (Hinv3 & _ & Hkeep3 & _). auto.
Qed.

Lemma embedded_window_is_not_hidden_by_occlusion_witness :
  let s := process_with_hidden_embedded_window in
  let this := 1%positive in
  let self := 2%positive in
  visible_in s this = Some false
  /\ returns (WindowMac_embedded 800 600 (of_Z32 2) 9%positive (Some 10%positive))
             host_process
       (fun new s1 =>
          embedded_inv new (Pos.succ new) s1
          /\ (is_Some (Some 10%positive) -> visible_in s1 new = Some true))
  /\ returns (host_events self [HostOcclusion 10%positive 0; HostDetach]) s
       (fun _ s1 =>
          embedded_inv this self s1
          /\ (visible_in s this = Some true -> visible_in s1 this = Some true)
          /\ returns (host_event self (HostAttach 10%positive)) s1 (fun _ s2 =>
               embedded_inv this self s2
               /\ visible_in s2 this = Some true
               /\ returns (host_events self [HostOcclusion 10%positive 0]) s2
                    (fun _ s3 =>
                       embedded_inv this self s3
                       /\ visible_in s3 this = Some true))).
Proof.
  split; [vm_compute; reflexivity|].
  apply (embedded_window_is_not_hidden_by_occlusion
           800 600 (of_Z32 2) 9%positive (Some 10%positive) host_process).
  - intros a v' w' Hva. simpl in Hva. rewrite lookup_empty in Hva.
    discriminate Hva.
  - reflexivity.
  - intros m Hm. injection Hm as <-. exists host_window. reflexivity.
  - exact hidden_embedded_window_inv.
  - repeat (apply List.Forall_cons;
            [exists host_window; exact hidden_embedded_host_window_lookup|]).
    apply List.Forall_nil.
Defined.

(** The embedded window made in [host_process] and attached to the host's
    window 10 is visible and stays so when the host's window gets fully
    occluded; its view observes nothing. *)
Example embedded_window_stays_visible :
  let s1 := state_after (WindowMac_embedded 800 600 (of_Z32 2) 9%positive
                                            (Some 10%positive)) host_process in
  let s2 := state_after (host_events 2%positive [HostOcclusion 10%positive 0]) s1 in
  (visible_in s1 1%positive, visible_in s2 1%positive,
   occlusion_observed <$> views s2 !! 2%positive)
  = (Some true, Some true, Some []).
Proof. vm_compute. reflexivity. Qed.

(** An embedded window that the application has hidden stays hidden when
    the host's window gets fully occluded, becomes visible when the host
    attaches its view to a window, and stays visible when that window gets
    fully occluded. *)
Example hidden_embedded_window_is_shown_by_attachment :
  let s := process_with_hidden_embedded_window in
  let s1 := state_after (host_events 2%positive [HostOcclusion 10%positive 0]) s in
  let s2 := state_after (host_event 2%positive (HostAttach 10%positive)) s1 in
  let s3 := state_after (host_events 2%positive [HostOcclusion 10%positive 0]) s2 in
  (visible_in s 1%positive, visible_in s1 1%positive,
   visible_in s2 1%positive, visible_in s3 1%positive)
  = (Some false, Some false, Some true, Some true).
Proof. vm_compute. reflexivity. Qed.

(** A standalone window does track occlusion: its view observes its native
    window 3, and the window is hidden once that one is fully occluded. *)
Example standalone_window_is_hidden_by_occlusion :
  let s1 := process_with_standalone_window in
  let s2 := state_after (occlusionStateChanged 3%positive 0) s1 in
  (occlusion_observed <$> views s1 !! 2%positive,
   visible_in s1 1%positive, visible_in s2 1%positive)
  = (Some [3%positive], Some true, Some false).
Proof. vm_compute. reflexivity. Qed.

(** * Further properties *)

(** ** More on the example processes *)

Lemma standalone_native_window_lookup :
  nswindows process_with_standalone_window !! 3%positive = Some the_native_window.
Proof. vm_compute. reflexivity. Qed.

Lemma standalone_registry_lookup :
  NativeWindowLookup.findWindow 2%N
    (native_window_lookup_ process_with_standalone_window) = Some 1%positive.
Proof. vm_compute. reflexivity. Qed.

Lemma standalone_views :
  views process_with_standalone_window = {[ 2%positive := the_standalone_view ]}.
Proof. vm_compute. reflexivity. Qed.

Lemma embedded_window_lookup :
  windows process_with_embedded_window !! 1%positive = Some the_embedded_window.
Proof. vm_compute. reflexivity. Qed.

Lemma embedded_view_lookup :
  views process_with_embedded_window !! 2%positive = Some the_embedded_view.
Proof. vm_compute. reflexivity. Qed.

Lemma embedded_views :
  views process_with_embedded_window = {[ 2%positive := the_embedded_view ]}.
Proof. vm_compute. reflexivity. Qed.

Lemma embedded_host_window_lookup :
  nswindows process_with_embedded_window !! 10%positive = Some host_window.
Proof. vm_compute. reflexivity. Qed.

Lemma embedded_window_inv :
  embedded_inv 1%positive 2%positive process_with_embedded_window.
Proof.
  split; [|split].
  - exists the_embedded_window, 9%positive.
    split; [exact embedded_window_lookup|]. split; [reflexivity|].
    intros h [= <-]. exists host_window. exact embedded_host_window_lookup.
  - exists the_embedded_view. split; [exact embedded_view_lookup|].
    split; reflexivity.
  - intros a v' w' Hv' Hobs Hw'. rewrite embedded_views in Hv'.
    apply lookup_singleton_Some in Hv' as [<- <-]. destruct Hobs. reflexivity.
Qed.

(** ** More on the window registry *)

Section MoreRegistryFacts.

Variable nativeHandle : WindowPtr -> Handle.
Variable isShowing : WindowPtr -> bool.

Import NativeWindowLookup.

Lemma anyWindowOpen_spec (m : gmap Handle WindowPtr) :
  anyWindowOpen isShowing m = true <->
  map_Exists (fun _ w => isShowing w = true) m.
Proof.
  unfold anyWindowOpen.
  apply (map_fold_weak_ind
           (fun r m => r = true <->
                       map_Exists (fun _ w => isShowing w = true) m)).
  - split; [discriminate|]. intros Hex. destruct (map_Exists_empty _ Hex).
  - intros h w m' r Hfresh IH.
    rewrite map_Exists_insert by exact Hfresh.
    destruct (isShowing w); simpl.
    + split; auto.
    + rewrite IH. split; [auto|]. intros [Hw|Hm]; [discriminate|exact Hm].
Qed.

(** X1: [anyWindowOpen] is true exactly when some registered window is
    showing; it is false for the empty registry, and true once a window
    that is showing is added. *)
Theorem anyWindowOpen_iff_some_window_is_showing (m : gmap Handle WindowPtr) :
  (anyWindowOpen isShowing m = true <->
   exists h w, m !! h = Some w /\ isShowing w = true)
  /\ anyWindowOpen isShowing ∅ = false
  /\ (forall w, isShowing w = true ->
        anyWindowOpen isShowing (addWindow nativeHandle w m) = true).
Proof.
  split; [apply anyWindowOpen_spec|]. split.
  - apply not_true_is_false. intros Hopen.
    apply anyWindowOpen_spec in Hopen. destruct (map_Exists_empty _ Hopen).
  - intros w Hw. apply anyWindowOpen_spec.
    exists (nativeHandle w), w. split; [apply addWindow_lookup_eq|exact Hw].
Qed.

(** X2: registering a window under a handle that was free and removing
    it again gives back the registry as it was; so does removing through
    any window that answers the same handle, for the registry goes by the
    handle; and removing a window whose handle is not registered changes
    nothing. *)
Theorem removeWindow_undoes_addWindow
        (w : WindowPtr) (m : gmap Handle WindowPtr)
        (Hfree : findWindow (nativeHandle w) m = None) :
  removeWindow nativeHandle w (addWindow nativeHandle w m) = m
  /\ (forall w', nativeHandle w' = nativeHandle w ->
        removeWindow nativeHandle w' (addWindow nativeHandle w m) = m)
  /\ removeWindow nativeHandle w m = m.
Proof.
  unfold findWindow in Hfree.
  assert (Hundo : forall w', nativeHandle w' = nativeHandle w ->
            removeWindow nativeHandle w' (addWindow nativeHandle w m) = m).
  { intros w' Hsame. rewrite removeWindow_delete, Hsame. unfold addWindow.
    rewrite delete_insert_eq. apply delete_id. exact Hfree. }
  split; [apply Hundo; reflexivity|]. split; [exact Hundo|].
  rewrite removeWindow_delete. apply delete_id. exact Hfree.
Qed.

End MoreRegistryFacts.

Lemma removeWindow_undoes_addWindow_witness :
  let add := NativeWindowLookup.addWindow handle_of_address in
  let remove := NativeWindowLookup.removeWindow handle_of_address in
  remove 2%positive (add 2%positive (add 1%positive ∅)) = add 1%positive ∅
  /\ (forall w', handle_of_address w' = handle_of_address 2%positive ->
        remove w' (add 2%positive (add 1%positive ∅)) = add 1%positive ∅)
  /\ remove 2%positive (add 1%positive ∅) = add 1%positive ∅.
Proof.
  apply (removeWindow_undoes_addWindow handle_of_address 2%positive).
  reflexivity.
Defined.

(** ** Key codes *)

Lemma switch_In {A} (x : Z) (cases : list (Z * A)) (default r : A) :
  switch x cases default = r -> In (x, r) cases \/ r = default.
Proof.
  induction cases as [|[label result] rest IH]; simpl; intros Hr.
  - right. congruence.
  - destruct (Z.eqb_spec x label) as [->|Hne].
    + left. left. congruence.
    + destruct (IH Hr); auto.
Qed.

Lemma virtual_key_cases c r :
  In (c, r) translateKeyCode_cases -> virtual_key r = Some c.
Proof.
  assert (Hall : forallb (fun cr => match virtual_key (snd cr) with
                                    | Some c' => c' =? fst cr
                                    | None => false
                                    end) translateKeyCode_cases = true)
    by (vm_compute; reflexivity).
  intros Hin. rewrite forallb_forall in Hall. specialize (Hall _ Hin).
  simpl in Hall. destruct (virtual_key r) as [c'|]; [|discriminate].
  apply Z.eqb_eq in Hall. congruence.
Qed.

Lemma virtual_key_translateKeyCode (a : Z) :
  translateKeyCode a <> KeyCode.Unknown ->
  virtual_key (translateKeyCode a) = Some a.
Proof.
  intros Hknown. unfold translateKeyCode in *.
  destruct (switch_In a translateKeyCode_cases KeyCode.Unknown _ eq_refl)
    as [Hin|Hd]; [|contradiction].
  apply virtual_key_cases. exact Hin.
Qed.

(** X3: [translateKeyCode] gives no key code for two virtual keys: keys
    with the same code other than [Unknown] are the same key. *)
Theorem translateKeyCode_is_injective (a b : Z)
        (Hknown : translateKeyCode a <> KeyCode.Unknown)
        (Hsame : translateKeyCode a = translateKeyCode b) :
  a = b.
Proof.
  pose proof (virtual_key_translateKeyCode a Hknown) as Ha.
  rewrite Hsame in Hknown.
  pose proof (virtual_key_translateKeyCode b Hknown) as Hb.
  congruence.
Qed.

Lemma translateKeyCode_is_injective_witness : kVK_ForwardDelete = 0x75.
Proof.
  apply translateKeyCode_is_injective.
  - vm_compute. discriminate.
  - vm_compute. reflexivity.
Defined.

(** ** Buttons and modifiers *)

Section FlagFacts.
Context {K : EventConstants}.

Lemma flag_land_same word bit value :
  Z.land (flag word bit value) value = flag word bit value.
Proof.
  unfold flag. destruct (Z.land word bit =? 0);
    [apply Z.land_0_l | apply Z.land_diag].
Qed.

Lemma flag_land_other word bit value value' :
  Z.land value value' = 0 -> Z.land (flag word bit value) value' = 0.
Proof.
  intros Hdis. unfold flag. destruct (Z.land word bit =? 0);
    [apply Z.land_0_l | exact Hdis].
Qed.

Lemma flag_eqb_0 word bit value :
  value <> 0 -> (flag word bit value =? 0) = (Z.land word bit =? 0).
Proof.
  intros Hne. unfold flag. destruct (Z.land word bit =? 0); [reflexivity|].
  apply Z.eqb_neq. exact Hne.
Qed.

Ltac flags :=
  rewrite ?Z.land_lor_distr_l;
  rewrite ?flag_land_same;
  repeat rewrite flag_land_other by first [assumption | rewrite Z.land_comm; assumption];
  rewrite ?Z.lor_0_l, ?Z.lor_0_r;
  apply flag_eqb_0; assumption.

(** X4: when the framework's modifier constants are flags of their own,
    [keyboardModifiers:] reports each of the four modifiers exactly when
    its flag is set in the event, whatever the other flags are. *)
Theorem keyboardModifiers_reports_each_modifier (event : NSEvent)
        (Hflags : independent_flags
                    [kModifierCmd; kModifierMacCtrl; kModifierOption; kModifierShift]) :
  let flags := modifierFlags event in
  let held (modifier : Z) := negb (Z.land (keyboardModifiers event) modifier =? 0) in
  let set (bit : Z) := negb (Z.land flags bit =? 0) in
  held kModifierCmd = set NSEventModifierFlagCommand
  /\ held kModifierMacCtrl = set NSEventModifierFlagControl
  /\ held kModifierOption = set NSEventModifierFlagOption
  /\ held kModifierShift = set NSEventModifierFlagShift.
Proof.
  simpl in Hflags.
  destruct Hflags as (Hc & Hcd & Hm & Hmd & Ho & Hod & Hs & _).
  apply Forall_cons in Hcd as [Hcm Hcd]; apply Forall_cons in Hcd as [Hco Hcd];
    apply Forall_cons in Hcd as [Hcs _].
  apply Forall_cons in Hmd as [Hmo Hmd]; apply Forall_cons in Hmd as [Hms _].
  apply Forall_cons in Hod as [Hos _].
  unfold keyboardModifiers. cbv zeta.
  repeat split; f_equal; flags.
Qed.

(** X5: likewise [mouseButtonState] reports each of the three buttons
    exactly when its bit is set among the pressed buttons. *)
Theorem mouseButtonState_reports_each_button (event : NSEvent)
        (Hflags : independent_flags
                    [kMouseButtonLeft; kMouseButtonRight; kMouseButtonMiddle]) :
  let buttons := pressedMouseButtons event in
  let held (button : Z) := negb (Z.land (mouseButtonState event) button =? 0) in
  held kMouseButtonLeft = Z.testbit buttons 0
  /\ held kMouseButtonRight = Z.testbit buttons 1
  /\ held kMouseButtonMiddle = Z.testbit buttons 2.
Proof.
  simpl in Hflags.
  destruct Hflags as (Hl & Hld & Hr & Hrd & Hm & _).
  apply Forall_cons in Hld as [Hlr Hld]; apply Forall_cons in Hld as [Hlm _].
  apply Forall_cons in Hrd as [Hrm _].
  assert (Hbit : forall n, 0 <= n ->
            negb (Z.land (pressedMouseButtons event) (Z.shiftl 1 n) =? 0)
            = Z.testbit (pressedMouseButtons event) n).
  { intros n Hn. rewrite Z.shiftl_1_l.
    destruct (Z.testbit (pressedMouseButtons event) n) eqn:Hb.
    - apply negb_true_iff, Z.eqb_neq. intros Hz.
      assert (Ht : Z.testbit (Z.land (pressedMouseButtons event) (2 ^ n)) n = true).
      { rewrite Z.land_spec, Hb, Z.pow2_bits_true by exact Hn. reflexivity. }
      rewrite Hz, Z.bits_0 in Ht. discriminate.
    - apply negb_false_iff, Z.eqb_eq. apply Z.bits_inj'. intros m Hm'.
      rewrite Z.land_spec, Z.bits_0.
      destruct (Z.eq_dec n m) as [<-|Hne].
      + rewrite Hb. reflexivity.
      + rewrite Z.pow2_bits_false by exact Hne. apply andb_false_r. }
  unfold mouseButtonState. cbv zeta.
  repeat split; rewrite <- Hbit by lia; f_equal; flags.
Qed.

End FlagFacts.

Lemma keyboardModifiers_reports_each_modifier_witness :
  let K := example_constants in
  let event := click_at 10 0 in
  let held (modifier : Z) := negb (Z.land (keyboardModifiers event) modifier =? 0) in
  let set (bit : Z) := negb (Z.land (modifierFlags event) bit =? 0) in
  held kModifierCmd = set NSEventModifierFlagCommand
  /\ held kModifierMacCtrl = set NSEventModifierFlagControl
  /\ held kModifierOption = set NSEventModifierFlagOption
  /\ held kModifierShift = set NSEventModifierFlagShift.
Proof.
  apply (keyboardModifiers_reports_each_modifier (K := example_constants)
           (click_at 10 0)).
  simpl. repeat split; try discriminate; repeat constructor.
Defined.

Lemma mouseButtonState_reports_each_button_witness :
  let K := example_constants in
  let event := click_at 10 0 in
  let held (button : Z) := negb (Z.land (mouseButtonState event) button =? 0) in
  held kMouseButtonLeft = Z.testbit (pressedMouseButtons event) 0
  /\ held kMouseButtonRight = Z.testbit (pressedMouseButtons event) 1
  /\ held kMouseButtonMiddle = Z.testbit (pressedMouseButtons event) 2.
Proof.
  apply (mouseButtonState_reports_each_button (K := example_constants)
           (click_at 10 0)).
  simpl. repeat split; try discriminate; repeat constructor.
Defined.

(** ** The editor's stale children *)

Section StaleFacts.

Import ApplicationEditor.

Variable isDrawing : FramePtr -> bool.
Variable redraws : FramePtr -> list FramePtr.
Variable init_redraws : list FramePtr.

Lemma found_In frame l : found frame l = true <-> In frame l.
Proof.
  unfold found. rewrite existsb_exists. split.
  - intros (f & Hin & Heq). apply Pos.eqb_eq in Heq. subst f. exact Hin.
  - intros Hin. exists frame. split; [exact Hin | apply Pos.eqb_refl].
Qed.

Lemma found_not_In frame l : found frame l = false <-> ~ In frame l.
Proof.
  rewrite <- found_In. destruct (found frame l); split; congruence.
Qed.

Lemma request_redraw_In frame f stale :
  In f (request_redraw frame stale) <-> f = frame \/ In f stale.
Proof.
  unfold request_redraw. destruct (found frame stale) eqn:Hf.
  - apply found_In in Hf. split; [auto|]. intros [->|Hin]; assumption.
  - rewrite in_app_iff. simpl. split.
    + intros [Hin|[<-|[]]]; auto.
    + intros [->|Hin]; auto.
Qed.

Lemma request_redraw_NoDup frame stale :
  List.NoDup stale -> List.NoDup (request_redraw frame stale).
Proof.
  intros Hnd. unfold request_redraw. destruct (found frame stale) eqn:Hf.
  - exact Hnd.
  - apply found_not_In in Hf. apply List.NoDup_app; [exact Hnd| |].
    + apply List.NoDup_cons; [intros []|apply List.NoDup_nil].
    + intros x Hx [<-|[]]. contradiction.
Qed.

(** X6: [request_redraw] puts the frame on the stale list unless it is
    there: afterwards the frame is stale, the frames that were stale still
    are, in their order, a list without repetition stays without, and
    asking again changes nothing. *)
Theorem request_redraw_lists_the_frame_once (frame : FramePtr) (stale : list FramePtr) :
  In frame (request_redraw frame stale)
  /\ (exists new, request_redraw frame stale = stale ++ new)
  /\ (List.NoDup stale -> List.NoDup (request_redraw frame stale))
  /\ (In frame stale -> request_redraw frame stale = stale)
  /\ request_redraw frame (request_redraw frame stale) = request_redraw frame stale.
Proof.
  split; [apply request_redraw_In; auto|].
  split.
  { unfold request_redraw. destruct (found frame stale).
    - exists []. symmetry. apply app_nil_r.
    - eexists. reflexivity. }
  split; [apply request_redraw_NoDup|].
  assert (Hidem : forall l, In frame l -> request_redraw frame l = l).
  { intros l Hin. apply found_In in Hin. unfold request_redraw.
    rewrite Hin. reflexivity. }
  split; [apply Hidem|].
  apply Hidem. apply request_redraw_In. auto.
Qed.

Lemma remove_from_hierarchy_absent frame stale :
  ~ In frame stale -> remove_from_hierarchy frame stale = stale.
Proof.
  induction stale as [|child rest IH]; simpl; intros Hnot; [reflexivity|].
  destruct (Pos.eqb_spec child frame) as [->|Hne].
  - destruct Hnot. auto.
  - rewrite IH; [reflexivity|]. intros Hin. apply Hnot. auto.
Qed.

Lemma remove_from_hierarchy_app frame l k :
  ~ In frame l ->
  remove_from_hierarchy frame (l ++ k) = l ++ remove_from_hierarchy frame k.
Proof.
  induction l as [|child rest IH]; simpl; intros Hnot; [reflexivity|].
  destruct (Pos.eqb_spec child frame) as [->|Hne].
  - destruct Hnot. auto.
  - rewrite IH; [reflexivity|]. intros Hin. apply Hnot. auto.
Qed.

Lemma remove_from_hierarchy_In frame f stale :
  f <> frame -> In f (remove_from_hierarchy frame stale) <-> In f stale.
Proof.
  intros Hne. induction stale as [|child rest IH]; simpl; [tauto|].
  destruct (Pos.eqb_spec child frame) as [->|Hne'].
  - split; [auto|]. intros [Heq|Hin]; [congruence|exact Hin].
  - simpl. rewrite IH. tauto.
Qed.

(** X7: [remove_from_hierarchy] takes the frame off a stale list without
    repetition and leaves the other frames; for a frame that is not stale
    it changes nothing; and it undoes the [request_redraw] of a frame that
    was not stale. *)
Theorem remove_from_hierarchy_unlists_the_frame (frame : FramePtr) (stale : list FramePtr) :
  (List.NoDup stale -> ~ In frame (remove_from_hierarchy frame stale))
  /\ (forall f, f <> frame ->
        In f (remove_from_hierarchy frame stale) <-> In f stale)
  /\ (~ In frame stale -> remove_from_hierarchy frame stale = stale)
  /\ (~ In frame stale ->
      remove_from_hierarchy frame (request_redraw frame stale) = stale).
Proof.
  split; [|split; [|split]].
  - induction stale as [|child rest IH]; simpl; intros Hnd; [tauto|].
    apply List.NoDup_cons_iff in Hnd as [Hfresh Hnd].
    destruct (Pos.eqb_spec child frame) as [->|Hne]; [exact Hfresh|].
    intros [Heq|Hin]; [congruence|]. exact (IH Hnd Hin).
  - intros f Hne. apply remove_from_hierarchy_In. exact Hne.
  - apply remove_from_hierarchy_absent.
  - intros Hnot. unfold request_redraw.
    rewrite (proj2 (found_not_In frame stale) Hnot).
    rewrite remove_from_hierarchy_app by exact Hnot. simpl.
    rewrite Pos.eqb_refl. apply app_nil_r.
Qed.

(** *** [drawStaleChildren] *)

Lemma requested_app rs rs' stale :
  requested (rs ++ rs') stale = requested rs' (requested rs stale).
Proof. unfold requested. apply fold_left_app. Qed.

Lemma requested_In rs : forall stale f,
  In f (requested rs stale) <-> In f rs \/ In f stale.
Proof.
  induction rs as [|r rs IH]; intros stale f; simpl; [tauto|].
  change (In f (requested rs (request_redraw r stale)) <->
          (r = f \/ In f rs) \/ In f stale).
  rewrite IH, request_redraw_In. intuition congruence.
Qed.

Lemma requested_NoDup rs : forall stale,
  List.NoDup stale -> List.NoDup (requested rs stale).
Proof.
  induction rs as [|r rs IH]; intros stale Hnd; simpl; [exact Hnd|].
  apply IH, request_redraw_NoDup, Hnd.
Qed.

Lemma drawToRegion_spec child c stale :
  drawToRegion redraws child c stale
  = ({| drawn := drawn c ++ [child]; submitted := submitted c |},
     requested (redraws child) stale).
Proof. reflexivity. Qed.

Lemma draw_drawing_spec children : forall c stale,
  draw_drawing isDrawing redraws children c stale
  = ({| drawn := drawn c ++ List.filter isDrawing children;
        submitted := submitted c |},
     requested (requests redraws (List.filter isDrawing children)) stale).
Proof.
  induction children as [|child rest IH]; intros c stale; simpl.
  - rewrite app_nil_r. destruct c; reflexivity.
  - destruct (isDrawing child); simpl.
    + rewrite IH. simpl. unfold requests. simpl.
      rewrite requested_app, <- app_assoc. reflexivity.
    + apply IH.
Qed.

Lemma draw_requested_found drawing c after : forall fuel before,
  Forall (fun f => found f drawing = true) after ->
  (length after <= fuel)%nat ->
  draw_requested redraws fuel drawing c before after = Some (c, before ++ after).
Proof.
  induction after as [|child rest IH]; intros fuel before Hall Hfuel.
  - rewrite app_nil_r. destruct fuel; reflexivity.
  - destruct fuel as [|fuel]; [simpl in Hfuel; lia|].
    inversion Hall as [|? ? Hchild Hrest]; subst. simpl.
    rewrite Hchild. rewrite IH; [|exact Hrest|simpl in Hfuel; lia].
    rewrite <- app_assoc. reflexivity.
Qed.

Lemma closed_requests_incl stale :
  closed_requests isDrawing redraws stale ->
  incl (requests redraws (List.filter isDrawing stale)) stale.
Proof.
  intros Hclosed f Hin. unfold requests in Hin.
  apply in_flat_map in Hin as (child & Hchild & Hf).
  apply filter_In in Hchild as [Hchild Hdraw].
  exact (Hclosed child f Hchild Hdraw Hf).
Qed.

Lemma drawStaleChildren_closed fuel e :
  closed_requests isDrawing redraws (stale_children_ e) ->
  (length (stale_children_ e) <= fuel)%nat ->
  drawStaleChildren isDrawing redraws fuel e
  = Some (with_drawing []
            (with_canvas
               {| drawn := drawn (canvas_ e)
                           ++ List.filter isDrawing (stale_children_ e);
                  submitted := submitted (canvas_ e) |}
               (with_stale
                  (requested (requests redraws
                                (List.filter isDrawing (stale_children_ e))) [])
                  e))).
Proof.
  intros Hclosed Hfuel. unfold drawStaleChildren.
  rewrite draw_drawing_spec.
  set (rs := requests redraws (List.filter isDrawing (stale_children_ e))).
  assert (Hincl : incl (requested rs []) (stale_children_ e)).
  { intros f Hf. apply requested_In in Hf as [Hf|[]].
    apply (closed_requests_incl _ Hclosed). exact Hf. }
  rewrite draw_requested_found.
  - reflexivity.
  - apply Forall_forall. intros f Hf%list_elem_of_In.
    apply found_In, Hincl, Hf.
  - etransitivity; [|exact Hfuel].
    apply List.NoDup_incl_length; [|exact Hincl].
    apply requested_NoDup. constructor.
Qed.

(** X8: when the frames that draw ask for redraws among the stale
    children only, [drawStaleChildren] returns: the stale children that
    are drawing have been drawn to the canvas once each, in their order,
    nothing was submitted, no child is marked as being drawn any more, and
    the stale list is the list of the frames that asked to be drawn
    again, each once. *)
Theorem drawStaleChildren_draws_each_stale_child_once (fuel : nat) (e : Editor)
        (Hclosed : closed_requests isDrawing redraws (stale_children_ e))
        (Hfuel : (length (stale_children_ e) <= fuel)%nat) :
  exists e',
    drawStaleChildren isDrawing redraws fuel e = Some e'
    /\ drawn (canvas_ e')
       = drawn (canvas_ e) ++ List.filter isDrawing (stale_children_ e)
    /\ submitted (canvas_ e') = submitted (canvas_ e)
    /\ drawing_children_ e' = []
    /\ List.NoDup (stale_children_ e')
    /\ (forall f, In f (stale_children_ e') <->
                  exists child, In child (stale_children_ e)
                                /\ isDrawing child = true
                                /\ In f (redraws child)).
Proof.
  eexists. split; [apply drawStaleChildren_closed; assumption|]. simpl.
  split; [reflexivity|]. split; [reflexivity|]. split; [reflexivity|].
  split; [apply requested_NoDup; constructor|].
  intros f. rewrite requested_In. unfold requests. rewrite in_flat_map.
  split.
  - intros [(child & Hchild & Hf)|[]]. apply filter_In in Hchild as [? ?]. eauto.
  - intros (child & Hchild & Hdraw & Hf). left. exists child.
    split; [apply filter_In; auto|exact Hf].
Qed.


(** *** [drawWindow] past its guards *)

Lemma init_canvas e : canvas_ (init init_redraws e) = canvas_ e.
Proof. reflexivity. Qed.



End StaleFacts.

Lemma drawStaleChildren_draws_each_stale_child_once_witness :
  let e := ApplicationEditor.example_editor true in
  exists e',
    ApplicationEditor.drawStaleChildren (fun _ => true) ApplicationEditor.animated 2 e
    = Some e'
    /\ ApplicationEditor.drawn (ApplicationEditor.canvas_ e')
       = ApplicationEditor.drawn (ApplicationEditor.canvas_ e)
         ++ List.filter (fun _ => true) (ApplicationEditor.stale_children_ e)
    /\ ApplicationEditor.submitted (ApplicationEditor.canvas_ e')
       = ApplicationEditor.submitted (ApplicationEditor.canvas_ e)
    /\ ApplicationEditor.drawing_children_ e' = []
    /\ List.NoDup (ApplicationEditor.stale_children_ e')
    /\ (forall f, In f (ApplicationEditor.stale_children_ e') <->
                  exists child, In child (ApplicationEditor.stale_children_ e)
                                /\ true = true
                                /\ In f (ApplicationEditor.animated child)).
Proof.
  apply (drawStaleChildren_draws_each_stale_child_once
           (fun _ => true) ApplicationEditor.animated 2
           (ApplicationEditor.example_editor true)).
  - intros child f Hchild _ [<-|[]]. exact Hchild.
  - simpl. lia.
Defined.


(** ** Closing a window *)

Lemma returns_conj {A} (m : M A) s (P Q : A -> World -> Prop) :
  returns m s P -> returns m s Q -> returns m s (fun a s' => P a s' /\ Q a s').
Proof.
  intros (a & s' & Hm & HP) (a' & s'' & Hm' & HQ).
  rewrite Hm in Hm'. injection Hm' as <- <-. exists a, s'. auto.
Qed.

Lemma closeWindow_standalone this wm n o s (Q : unit -> World -> Prop) :
  windows s !! this = Some wm ->
  parent_view_ wm = None ->
  window_handle_ wm = Some n ->
  nswindows s !! n = Some o ->
  (let s1 := after_closeWindow this wm n o s in
   let stop := running_event_loop_ s
               && negb (NativeWindowLookup.anyWindowOpen
                          (isShowing_in s1) (native_window_lookup_ s1)) in
   Q tt (if stop then world_with_trace (trace s1 ++ [NSAppStop]) s1 else s1)) ->
  returns (closeWindow this) s Q.
Proof.
  intros Hw Hparent Hh Hn HQ. unfold closeWindow, hide. steps.
  rewrite Hh. steps. rewrite Hh, Hparent. steps.
  match goal with
  | |- returns (when ?b _) ?S _ =>
      change b with (running_event_loop_ S
                     && negb (NativeWindowLookup.anyWindowOpen
                                (isShowing_in S) (native_window_lookup_ S)));
      assert (HS : S = after_closeWindow this wm n o s)
  end.
  { unfold after_closeWindow, nativeHandle_in. simpl.
    rewrite removeWindow_delete. cbv beta. rewrite lookup_insert_eq.
    unfold world_with_windows, world_with_trace, world_with_nswindows,
      world_with_native_window_lookup_. simpl.
    rewrite insert_insert_eq, <- app_assoc. reflexivity. }
  rewrite HS. cbv zeta in HQ.
  change (running_event_loop_ (after_closeWindow this wm n o s))
    with (running_event_loop_ s).
  destruct (running_event_loop_ s && _); simpl; steps; exact HQ.
Qed.

Lemma isShowing_after_closeWindow this wm n o s w' :
  isShowing_in (after_closeWindow this wm n o s) w' = true <->
  w' <> this
  /\ isShowing_in s w' = true
  /\ forall wm', windows s !! w' = Some wm' -> window_handle_ wm' <> Some n.
Proof.
  unfold isShowing_in, after_closeWindow. simpl.
  destruct (decide (this = w')) as [<-|Hne].
  - rewrite lookup_insert_eq. simpl. split; [discriminate|]. intros [[] _].
    reflexivity.
  - rewrite lookup_insert_ne by exact Hne.
    destruct (windows s !! w') as [wm'|]; [|split; [discriminate|tauto]].
    destruct (window_handle_ wm') as [n'|] eqn:Hh';
      [|split; [discriminate|tauto]].
    destruct (decide (n = n')) as [<-|Hne'].
    + rewrite lookup_insert_eq. simpl. split; [discriminate|].
      intros (_ & _ & Hother). destruct (Hother wm' eq_refl). exact Hh'.
    + rewrite lookup_insert_ne by exact Hne'. split.
      * intros Hshow. split; [congruence|]. split; [exact Hshow|].
        intros ? [= <-]. congruence.
      * tauto.
Qed.

Lemma anyWindowOpen_after_closeWindow this wm n o s :
  windows s !! this = Some wm ->
  let s1 := after_closeWindow this wm n o s in
  NativeWindowLookup.anyWindowOpen (isShowing_in s1) (native_window_lookup_ s1) = true
  <-> another_window_showing s this n.
Proof.
  intros Hw s1. rewrite anyWindowOpen_spec. unfold map_Exists, another_window_showing.
  unfold nativeHandle_in. rewrite Hw.
  split.
  - intros (h & w' & Hreg & Hshow). simpl in Hreg.
    apply lookup_delete_Some in Hreg as [Hne Hreg].
    apply isShowing_after_closeWindow in Hshow as (Hw' & Hshow & Hother).
    pose proof Hshow as Halive. unfold isShowing_in in Halive.
    destruct (windows s !! w') as [wm'|] eqn:Hwm'; [|discriminate].
    exists h, w', wm'. auto 10.
  - intros (h & w' & wm' & Hreg & Hne & Hw' & Hwm' & Hother & Hshow).
    exists h, w'. split.
    + simpl. apply lookup_delete_Some. auto.
    + apply isShowing_after_closeWindow. split; [exact Hw'|].
      split; [exact Hshow|]. intros ? ?. congruence.
Qed.

(** X10: [closeWindow] on a standalone window takes its native window off
    the screen, unregisters the window, and stops the application's event
    loop exactly when that loop is running and no other registered window
    is left on screen. *)
Theorem closeWindow_stops_the_event_loop_with_the_last_window
        (this : WindowPtr) (wm : WindowMac) (n : NSWindowPtr) (o : NSWindow)
        (s : World)
        (Hw : windows s !! this = Some wm)
        (Hparent : parent_view_ wm = None)
        (Hh : window_handle_ wm = Some n)
        (Hn : nswindows s !! n = Some o) :
  returns (closeWindow this) s (fun _ s' =>
    isShowing_in s' this = false
    /\ NativeWindowLookup.findWindow (nativeHandle_of wm) (native_window_lookup_ s')
       = None
    /\ exists stop,
         trace s' = trace s ++ [OrderOut n; NotifyHide this] ++ stop
         /\ (stop = [NSAppStop] \/ stop = [])
         /\ (stop = [NSAppStop] <->
             running_event_loop_ s = true /\ ~ another_window_showing s this n)).
Proof.
  apply (closeWindow_standalone this wm n o s _ Hw Hparent Hh Hn).
  intros s1 stop.
  pose proof (anyWindowOpen_after_closeWindow this wm n o s Hw) as Hopen.
  cbv zeta in Hopen. fold s1 in Hopen.
  assert (Hhidden : isShowing_in s1 this = false).
  { apply not_true_is_false. intros Hshow.
    apply isShowing_after_closeWindow in Hshow as [[] _]. reflexivity. }
  assert (Hgone : native_window_lookup_ s1 !! nativeHandle_of wm = None)
    by apply lookup_delete_eq.
  assert (Htrace : trace s1 = trace s ++ [OrderOut n; NotifyHide this])
    by reflexivity.
  assert (Hstop : stop = true <->
                  running_event_loop_ s = true /\ ~ another_window_showing s this n).
  { unfold stop. rewrite andb_true_iff, negb_true_iff, <- Hopen.
    destruct (NativeWindowLookup.anyWindowOpen _ _); intuition congruence. }
  destruct stop; (split; [exact Hhidden|]); (split; [exact Hgone|]).
  - exists [NSAppStop]. cbn [trace world_with_trace]. rewrite Htrace, <- app_assoc.
    split; [reflexivity|]. split; [auto|]. tauto.
  - exists []. rewrite Htrace, app_nil_r.
    split; [reflexivity|]. split; [auto|].
    split; [discriminate|]. intros H. apply Hstop in H. discriminate.
Qed.

Lemma closeWindow_stops_the_event_loop_with_the_last_window_witness :
  let s := process_with_standalone_window in
  returns (closeWindow 1%positive) s (fun _ s' =>
    isShowing_in s' 1%positive = false
    /\ NativeWindowLookup.findWindow 2%N (native_window_lookup_ s') = None
    /\ exists stop,
         trace s' = trace s ++ [OrderOut 3%positive; NotifyHide 1%positive] ++ stop
         /\ (stop = [NSAppStop] \/ stop = [])
         /\ (stop = [NSAppStop] <->
             running_event_loop_ s = true
             /\ ~ another_window_showing s 1%positive 3%positive)).
Proof.
  exact (closeWindow_stops_the_event_loop_with_the_last_window
           1%positive the_standalone_window 3%positive the_native_window
           process_with_standalone_window
           standalone_window_lookup eq_refl eq_refl standalone_native_window_lookup).
Defined.

(** ** The window delegate *)

(** X11: the window delegate finds the window of a native window through
    the content view.  When a window is registered under the content view,
    [windowShouldClose:] answers what that window's close request answers
    and changes nothing.  When none is, [windowWillClose:] does nothing,
    but [windowShouldClose:] calls [closeRequested] through the null
    pointer: it has no defined result. *)
Theorem windowShouldClose_asks_the_registered_window
        (sender : NSWindowPtr) (o : NSWindow) (s : World)
        (Hn : nswindows s !! sender = Some o) :
  (forall this wm,
      NativeWindowLookup.findWindow (bridge (contentView o))
                                    (native_window_lookup_ s) = Some this ->
      windows s !! this = Some wm ->
      windowShouldClose sender s = Some (close_requested_ wm, s))
  /\ (NativeWindowLookup.findWindow (bridge (contentView o))
                                    (native_window_lookup_ s) = None ->
      windowShouldClose sender s = None
      /\ windowWillClose sender s = Some (tt, s)).
Proof.
  split.
  - intros this wm Hreg Hw.
    unfold windowShouldClose, registry_findWindow, closeRequested, getNSWindow,
      getWindow, bind, gets, deref, ret.
    rewrite Hn. simpl. rewrite Hreg. simpl. rewrite Hw. reflexivity.
  - intros Hreg.
    unfold windowShouldClose, windowWillClose, registry_findWindow, getNSWindow,
      bind, gets, deref, ret.
    rewrite Hn. simpl. rewrite Hreg. split; reflexivity.
Qed.

Lemma windowShouldClose_asks_the_registered_window_witness :
  let s := process_with_standalone_window in
  (forall this wm,
      NativeWindowLookup.findWindow 2%N (native_window_lookup_ s) = Some this ->
      windows s !! this = Some wm ->
      windowShouldClose 3%positive s = Some (close_requested_ wm, s))
  /\ (NativeWindowLookup.findWindow 2%N (native_window_lookup_ s) = None ->
      windowShouldClose 3%positive s = None
      /\ windowWillClose 3%positive s = Some (tt, s)).
Proof.
  exact (windowShouldClose_asks_the_registered_window
           3%positive the_native_window process_with_standalone_window
           standalone_native_window_lookup).
Defined.

(** X12: [windowWillClose:] for the native window of a standalone window
    closes the window: it is off the screen and out of the registry, it
    has no native window any more and remembers the content rectangle of
    the one it had.  A second [windowWillClose:] for that native window
    finds no window and changes nothing. *)
Theorem windowWillClose_closes_the_window_once
        (this : WindowPtr) (wm : WindowMac) (view : NSViewPtr)
        (n : NSWindowPtr) (o : NSWindow) (s : World)
        (Hw : windows s !! this = Some wm)
        (Hparent : parent_view_ wm = None)
        (Hh : window_handle_ wm = Some n)
        (Hview : view_ wm = Some view)
        (Hn : nswindows s !! n = Some o)
        (Hcontent : contentView o = Some view)
        (Hreg : NativeWindowLookup.findWindow (Npos view) (native_window_lookup_ s)
                = Some this) :
  returns (windowWillClose n) s (fun _ s1 =>
    (exists wm1, windows s1 !! this = Some wm1
                 /\ window_handle_ wm1 = None
                 /\ last_content_rect_ wm1 = contentLayoutRect o)
    /\ isShowing_in s1 this = false
    /\ NativeWindowLookup.findWindow (Npos view) (native_window_lookup_ s1) = None
    /\ returns (windowWillClose n) s1 (fun _ s2 => s2 = s1)).
Proof.
  unfold windowWillClose at 1, registry_findWindow. steps.
  rewrite Hcontent. simpl. rewrite Hreg.
  apply (closeWindow_standalone this wm n o s _ Hw Hparent Hh Hn).
  intros s1 stop.
  assert (Hs1 : (exists wm1, windows s1 !! this = Some wm1
                             /\ window_handle_ wm1 = None
                             /\ last_content_rect_ wm1 = contentLayoutRect o)
                /\ isShowing_in s1 this = false
                /\ NativeWindowLookup.findWindow (Npos view)
                                                 (native_window_lookup_ s1) = None
                /\ exists o1, nswindows s1 !! n = Some o1
                              /\ contentView o1 = Some view).
  { split; [|split; [|split]].
    - eexists. split; [apply lookup_insert_eq|]. split; reflexivity.
    - apply not_true_is_false. intros Hshow.
      apply isShowing_after_closeWindow in Hshow as [[] _]. reflexivity.
    - simpl. unfold nativeHandle_of. rewrite Hview. apply lookup_delete_eq.
    - eexists. split; [apply lookup_insert_eq|exact Hcontent]. }
  assert (Hdone : forall s' : World,
             windows s' = windows s1 -> nswindows s' = nswindows s1 ->
             native_window_lookup_ s' = native_window_lookup_ s1 ->
             (exists wm1, windows s' !! this = Some wm1
                          /\ window_handle_ wm1 = None
                          /\ last_content_rect_ wm1 = contentLayoutRect o)
             /\ isShowing_in s' this = false
             /\ NativeWindowLookup.findWindow (Npos view)
                                              (native_window_lookup_ s') = None
             /\ returns (windowWillClose n) s' (fun _ s2 => s2 = s')).
  { intros s' Hws Hns Hrs.
    destruct Hs1 as (Hwm1 & Hhidden & Hgone & o1 & Ho1 & Hcontent1).
    unfold isShowing_in in *. rewrite Hws, Hns, Hrs.
    split; [exact Hwm1|]. split; [exact Hhidden|]. split; [exact Hgone|].
    unfold windowWillClose, registry_findWindow.
    eapply returns_bind, returns_getNSWindow; [rewrite Hns; exact Ho1|].
    apply returns_bind, returns_gets. rewrite Hcontent1. simpl.
    rewrite Hrs, Hgone.
    apply returns_ret. reflexivity. }
  destruct stop; apply Hdone; reflexivity.
Qed.

Lemma windowWillClose_closes_the_window_once_witness :
  returns (windowWillClose 3%positive) process_with_standalone_window (fun _ s1 =>
    (exists wm1, windows s1 !! 1%positive = Some wm1
                 /\ window_handle_ wm1 = None
                 /\ last_content_rect_ wm1 = contentLayoutRect the_native_window)
    /\ isShowing_in s1 1%positive = false
    /\ NativeWindowLookup.findWindow 2%N (native_window_lookup_ s1) = None
    /\ returns (windowWillClose 3%positive) s1 (fun _ s2 => s2 = s1)).
Proof.
  exact (windowWillClose_closes_the_window_once
           1%positive the_standalone_window 2%positive 3%positive the_native_window
           process_with_standalone_window
           standalone_window_lookup eq_refl eq_refl eq_refl
           standalone_native_window_lookup eq_refl standalone_registry_lookup).
Defined.

(** ** Showing and hiding *)

(** X13: [show] puts the native window of a standalone window on screen
    and tells the framework; [hide] takes it off again and tells the
    framework: the window is showing in between and not afterwards.  The
    window keeps its native window and its registration throughout. *)
Theorem show_then_hide
        (this : WindowPtr) (wm : WindowMac) (n : NSWindowPtr) (o : NSWindow)
        (s : World)
        (Hw : windows s !! this = Some wm)
        (Hparent : parent_view_ wm = None)
        (Hh : window_handle_ wm = Some n)
        (Hn : nswindows s !! n = Some o) :
  returns (show this) s (fun _ s1 =>
    isShowing_in s1 this = true
    /\ trace s1 = trace s ++ [if isPopup_of wm then OrderFront n
                              else MakeKeyAndOrderFront n;
                              NotifyShow this]
    /\ returns (hide this) s1 (fun _ s2 =>
         isShowing_in s2 this = false
         /\ trace s2 = trace s1 ++ [OrderOut n; NotifyHide this]
         /\ windows s2 = windows s
         /\ native_window_lookup_ s2 = native_window_lookup_ s)).
Proof.
  eapply show_existing; try eassumption. intros s1 Hq.
  pose proof (quiet_windows _ _ Hq) as Hws.
  pose proof (quiet_nswindows _ _ Hq) as Hns.
  pose proof (quiet_trace _ _ Hq) as Htr.
  pose proof (quiet_registry _ _ Hq) as Hrs.
  unfold after_show in *. simpl in Hws, Hns, Htr, Hrs.
  split; [|split; [exact Htr|]].
  - unfold isShowing_in. rewrite Hws, Hw, Hh, Hns, lookup_insert_eq. reflexivity.
  - unfold hide. eapply returns_bind, returns_getWindow; [rewrite Hws; exact Hw|].
    rewrite Hh, Hparent.
    eapply returns_bind, returns_getNSWindow;
      [rewrite Hns; apply lookup_insert_eq|].
    steps. split; [|split; [|split]].
    + unfold isShowing_in. simpl. rewrite Hws, Hw, Hh, lookup_insert_eq.
      reflexivity.
    + rewrite <- app_assoc. reflexivity.
    + exact Hws.
    + exact Hrs.
Qed.

Lemma show_then_hide_witness :
  let s := process_with_standalone_window in
  returns (show 1%positive) s (fun _ s1 =>
    isShowing_in s1 1%positive = true
    /\ trace s1 = trace s ++ [MakeKeyAndOrderFront 3%positive; NotifyShow 1%positive]
    /\ returns (hide 1%positive) s1 (fun _ s2 =>
         isShowing_in s2 1%positive = false
         /\ trace s2 = trace s1 ++ [OrderOut 3%positive; NotifyHide 1%positive]
         /\ windows s2 = windows s
         /\ native_window_lookup_ s2 = native_window_lookup_ s)).
Proof.
  exact (show_then_hide
           1%positive the_standalone_window 3%positive the_native_window
           process_with_standalone_window
           standalone_window_lookup eq_refl eq_refl standalone_native_window_lookup).
Defined.

(** X14: [show] on a standalone window that [closeWindow] has closed
    creates a new native window and puts it on screen, but the window
    stays out of the registry, where [closeWindow] took it from:
    [findWindow] on its handle gives null. *)
Theorem show_after_closeWindow_stays_unregistered
        (this : WindowPtr) (wm : WindowMac) (view : NSViewPtr) (v : VisageAppView)
        (n : NSWindowPtr) (o : NSWindow) (s : World)
        (Hw : windows s !! this = Some wm)
        (Hparent : parent_view_ wm = None)
        (Hh : window_handle_ wm = Some n)
        (Hview : view_ wm = Some view)
        (Hn : nswindows s !! n = Some o)
        (Hv : views s !! view = Some v)
        (Hown : visage_window v = Some this) :
  returns (closeWindow this) s (fun _ s1 =>
    returns (show this) s1 (fun _ s2 =>
      exists wm2,
        windows s2 !! this = Some wm2
        /\ window_handle_ wm2 = Some (next_object s)
        /\ isShowing_in s2 this = true
        /\ NativeWindowLookup.findWindow (nativeHandle_of wm2)
                                         (native_window_lookup_ s2) = None)).
Proof.
  apply (closeWindow_standalone this wm n o s _ Hw Hparent Hh Hn).
  intros s1 stop.
  assert (Hdone : forall s' : World,
             windows s' = windows s1 -> views s' = views s1 ->
             next_object s' = next_object s1 ->
             native_window_lookup_ s' = native_window_lookup_ s1 ->
             returns (show this) s' (fun _ s2 =>
               exists wm2,
                 windows s2 !! this = Some wm2
                 /\ window_handle_ wm2 = Some (next_object s)
                          /\ isShowing_in s2 this = true
                 /\ NativeWindowLookup.findWindow (nativeHandle_of wm2)
                                                  (native_window_lookup_ s2) = None)).
  { intros s' Hws Hvs Hno Hrs.
    eapply show_creating.
    - rewrite Hws. apply lookup_insert_eq.
    - exact Hparent.
    - reflexivity.
    - exact Hview.
    - rewrite Hvs. exact Hv.
    - exact Hown.
    - intros s2 Hq.
      pose proof (quiet_windows _ _ Hq) as Hws2.
      pose proof (quiet_nswindows _ _ Hq) as Hns2.
      pose proof (quiet_registry _ _ Hq) as Hrs2.
      unfold after_show, after_createWindow in Hws2, Hns2, Hrs2.
      simpl in Hws2, Hns2, Hrs2. rewrite Hno in *.
      eexists. split; [rewrite Hws2; apply lookup_insert_eq|].
      split; [reflexivity|]. split.
      + unfold isShowing_in. rewrite Hws2, lookup_insert_eq. simpl.
        rewrite Hns2, lookup_insert_eq. reflexivity.
      + unfold NativeWindowLookup.findWindow. rewrite Hrs2, Hrs. simpl.
        unfold nativeHandle_of. simpl. apply lookup_delete_eq. }
  destruct stop; apply Hdone; reflexivity.
Qed.

Lemma show_after_closeWindow_stays_unregistered_witness :
  let s := process_with_standalone_window in
  returns (closeWindow 1%positive) s (fun _ s1 =>
    returns (show 1%positive) s1 (fun _ s2 =>
      exists wm2,
        windows s2 !! 1%positive = Some wm2
        /\ window_handle_ wm2 = Some (next_object s)
        /\ isShowing_in s2 1%positive = true
        /\ NativeWindowLookup.findWindow (nativeHandle_of wm2)
                                         (native_window_lookup_ s2) = None)).
Proof.
  exact (show_after_closeWindow_stays_unregistered
           1%positive the_standalone_window 2%positive the_standalone_view
           3%positive the_native_window process_with_standalone_window
           standalone_window_lookup eq_refl eq_refl eq_refl
           standalone_native_window_lookup standalone_view_lookup eq_refl).
Defined.

(** ** Construction and destruction *)

Lemma WindowMac_standalone_registers x y width height scale decoration s :
  returns (WindowMac_standalone x y width height scale decoration) s
    (fun this s1 =>
       let view := Pos.succ this in
       let n := Pos.succ view in
       this = next_object s
       /\ native_window_lookup_ s1 = <[Npos view := this]> (native_window_lookup_ s)
       /\ exists wm v o,
            windows s1 = <[this := wm]> (windows s)
            /\ parent_view_ wm = None
            /\ view_ wm = Some view
            /\ window_handle_ wm = Some n
            /\ views s1 !! view = Some v
            /\ nswindows s1 !! n = Some o).
Proof.
  unfold WindowMac_standalone, alloc. steps.
  eapply initWithFrame_spec. intros v s1 Hown Hquit Hwin Hobs Hsize Hmatch Hq1.
  steps.
  eapply createWindow_spec;
    [lookup | reflexivity | reflexivity | lookup | simpl; exact Hown |].
  intros s2 Hq2. steps.
  pose proof (quiet_windows _ _ Hq2) as Hws.
  pose proof (quiet_views _ _ Hq2) as Hvs.
  pose proof (quiet_nswindows _ _ Hq2) as Hns.
  pose proof (quiet_registry _ _ Hq2) as Hreg.
  pose proof (quiet_next_object _ _ Hq1) as Hno1.
  pose proof (quiet_registry _ _ Hq1) as Hreg1.
  pose proof (quiet_windows _ _ Hq1) as Hws1.
  unfold after_createWindow in *. simpl in *.
  split; [reflexivity|]. split.
  - unfold NativeWindowLookup.addWindow, nativeHandle_in.
    rewrite Hws, lookup_insert_eq, Hreg, Hreg1. reflexivity.
  - eexists _, _, _.
    split; [rewrite Hws, Hws1; rewrite !insert_insert_eq; reflexivity|].
    split; [reflexivity|]. split; [reflexivity|].
    split; [simpl; rewrite Hno1; reflexivity|].
    split; [rewrite Hvs; apply lookup_insert_eq|].
    rewrite Hns, Hno1. apply lookup_insert_eq.
Qed.

Lemma WindowMac_destroy_standalone this wm self v n o s :
  windows s !! this = Some wm ->
  parent_view_ wm = None ->
  window_handle_ wm = Some n ->
  view_ wm = Some self ->
  views s !! self = Some v ->
  nswindows s !! n = Some o ->
  returns (WindowMac_destroy this) s (fun _ s' =>
    windows s' = delete this (windows s)
    /\ native_window_lookup_ s'
       = delete (Npos self) (native_window_lookup_ s)
    /\ views s' = <[self := view_with_visage_window None v]> (views s)
    /\ nswindows s' = <[n := NSWindow_with_isVisible false o]> (nswindows s)
    /\ trace s' = trace s ++ [OrderOut n; NotifyHide this]).
Proof.
  intros Hw Hparent Hh Hview Hv Hn. unfold WindowMac_destroy, hide. steps.
  rewrite Hh, Hparent. steps. rewrite Hview, Hparent. steps.
  split; [reflexivity|]. split.
  - rewrite removeWindow_delete. unfold nativeHandle_in. rewrite Hw.
    unfold nativeHandle_of. rewrite Hview. reflexivity.
  - split; [reflexivity|]. split; [reflexivity|].
    rewrite <- app_assoc. reflexivity.
Qed.

(** X15: the destructor of a standalone window undoes what the constructor
    did to the registry and to the heap of windows: the window was found
    under the handle of its view in between, and after the destructor the
    registry and the window objects are as they were before the
    constructor.  The view stays behind, detached, and the native window
    stays behind, off screen. *)
Theorem destructor_undoes_the_registration
        (x y width height : Z) (scale : f32) (decoration : Decoration) (s : World)
        (Hfree : NativeWindowLookup.findWindow (Npos (Pos.succ (next_object s)))
                                               (native_window_lookup_ s) = None)
        (Hfresh : windows s !! next_object s = None) :
  returns (WindowMac_standalone x y width height scale decoration) s
    (fun this s1 =>
       NativeWindowLookup.findWindow (Npos (Pos.succ this)) (native_window_lookup_ s1)
       = Some this
       /\ returns (WindowMac_destroy this) s1 (fun _ s2 =>
            native_window_lookup_ s2 = native_window_lookup_ s
            /\ windows s2 = windows s
            /\ (exists v, views s2 !! Pos.succ this = Some v
                          /\ visage_window v = None)
            /\ (exists o, nswindows s2 !! Pos.succ (Pos.succ this) = Some o
                          /\ isVisible o = false)
            /\ trace s2 = trace s1 ++ [OrderOut (Pos.succ (Pos.succ this));
                                       NotifyHide this])).
Proof.
  eapply returns_weaken;
    [apply (WindowMac_standalone_registers x y width height scale decoration s)|].
  intros this s1 (-> & Hreg & wm & v & o & Hws & Hparent & Hview & Hh & Hv & Hn).
  cbv zeta in *. split.
  - rewrite Hreg. apply lookup_insert_eq.
  - eapply returns_weaken.
    { eapply (WindowMac_destroy_standalone (next_object s) wm); try eassumption.
      rewrite Hws. apply lookup_insert_eq. }
    intros [] s2 (Hws2 & Hreg2 & Hvs2 & Hns2 & Htr2).
    split; [|split; [|split; [|split]]].
    + rewrite Hreg2, Hreg, delete_insert_eq. apply delete_id. exact Hfree.
    + rewrite Hws2, Hws, delete_insert_eq. apply delete_id. exact Hfresh.
    + eexists. rewrite Hvs2, lookup_insert_eq. split; reflexivity.
    + eexists. rewrite Hns2, lookup_insert_eq. split; reflexivity.
    + exact Htr2.
Qed.

Lemma destructor_undoes_the_registration_witness :
  let s := retina_process in
  returns (WindowMac_standalone 100 100 1600 1200 (of_Z32 2) Native) s
    (fun this s1 =>
       NativeWindowLookup.findWindow (Npos (Pos.succ this)) (native_window_lookup_ s1)
       = Some this
       /\ returns (WindowMac_destroy this) s1 (fun _ s2 =>
            native_window_lookup_ s2 = native_window_lookup_ s
            /\ windows s2 = windows s
            /\ (exists v, views s2 !! Pos.succ this = Some v
                          /\ visage_window v = None)
            /\ (exists o, nswindows s2 !! Pos.succ (Pos.succ this) = Some o
                          /\ isVisible o = false)
            /\ trace s2 = trace s1 ++ [OrderOut (Pos.succ (Pos.succ this));
                                       NotifyHide this])).
Proof.
  exact (destructor_undoes_the_registration
           100 100 1600 1200 (of_Z32 2) Native retina_process eq_refl eq_refl).
Defined.

(** ** A change of the backing scale *)

(** X16: when the native window of a standalone window comes to a display
    of another backing scale, the Metal layer of the view takes that scale
    (and the drawable the bounds times it), the window takes it as its DPI
    scale, and the pointer positions that follow are scaled by it. *)
Theorem backing_scale_change_reaches_the_window
        (this : WindowPtr) (wm : WindowMac) (view : NSViewPtr) (v : VisageAppView)
        (l : CAMetalLayer) (n : NSWindowPtr) (o : NSWindow) (scale : f64)
        (event : NSEvent) (s : World)
        (Hw : windows s !! this = Some wm)
        (Hh : window_handle_ wm = Some n)
        (Hn : nswindows s !! n = Some o)
        (Hcontent : contentView o = Some view)
        (Hv : views s !! view = Some v)
        (Hl : layer v = Some l)
        (Hwin : window v = Some n)
        (Hown : visage_window v = Some this) :
  returns (backingScaleChanged n scale) s (fun _ s1 =>
    (exists wm1, windows s1 !! this = Some wm1 /\ dpi_scale_ wm1 = to_f32 scale)
    /\ (exists v1, views s1 !! view = Some v1
                   /\ layer v1 = Some (updated_layer scale v)
                   /\ bounds_size v1 = bounds_size v)
    /\ returns (eventPosition view event) s1 (fun p _ =>
         p = framework_point (view_location event) (height (frame_size v))
                             (to_f32 scale))).
Proof.
  unfold backingScaleChanged. steps. rewrite Hcontent. simpl.
  unfold viewDidChangeBackingProperties. step.
  eapply updateMetalLayerDrawableSize_spec.
  - simpl. exact Hv.
  - exact Hl.
  - intros m Hm. simpl. rewrite Hwin in Hm. injection Hm as <-.
    rewrite lookup_insert_eq. eauto.
  - intros scale' s1 Hscale Hq1.
    assert (scale' = scale) as ->.
    { apply (Hscale n (NSWindow_with_backingScaleFactor scale o) Hwin).
      simpl. apply lookup_insert_eq. }
    step. eapply returns_getView; [apply (view_becomes_lookup _ _ _ _ Hq1)|].
    simpl. rewrite Hown. step.
    pose proof (view_becomes_windows _ _ _ _ Hq1) as Hws1.
    pose proof (view_becomes_nswindows _ _ _ _ Hq1) as Hns1.
    pose proof (quiet_views _ _ Hq1) as Hvs1.
    simpl in Hws1, Hns1, Hvs1.
    unfold resetBackingScale.
    eapply returns_bind, returns_getWindow; [rewrite Hws1; exact Hw|].
    rewrite Hh. simpl.
    eapply returns_bind, returns_getNSWindow;
      [rewrite Hns1; apply lookup_insert_eq|].
    simpl. eapply setDpiScale_spec; [rewrite Hws1; exact Hw|].
    apply log_every_quiet. intros s2 Hq2.
    pose proof (quiet_windows _ _ Hq2) as Hws2.
    pose proof (quiet_views _ _ Hq2) as Hvs2.
    simpl in Hws2, Hvs2.
    split; [|split].
    + eexists. rewrite Hws2, lookup_insert_eq. split; reflexivity.
    + eexists. rewrite Hvs2, Hvs1, lookup_insert_eq. split; [reflexivity|].
      split; reflexivity.
    + eapply eventPosition_spec.
      * rewrite Hvs2, Hvs1. apply lookup_insert_eq.
      * simpl. exact Hown.
      * rewrite Hws2. apply lookup_insert_eq.
      * intros s3 _. reflexivity.
Qed.

Lemma backing_scale_change_reaches_the_window_witness :
  let s := process_with_standalone_window in
  let event := click_at 10 0 in
  returns (backingScaleChanged 3%positive (of_Z64 1)) s (fun _ s1 =>
    (exists wm1, windows s1 !! 1%positive = Some wm1
                 /\ dpi_scale_ wm1 = to_f32 (of_Z64 1))
    /\ (exists v1, views s1 !! 2%positive = Some v1
                   /\ layer v1 = Some (updated_layer (of_Z64 1) the_standalone_view)
                   /\ bounds_size v1 = bounds_size the_standalone_view)
    /\ returns (eventPosition 2%positive event) s1 (fun p _ =>
         p = framework_point (view_location event) (of_Z64 600)
                             (to_f32 (of_Z64 1)))).
Proof.
  exact (backing_scale_change_reaches_the_window
           1%positive the_standalone_window 2%positive the_standalone_view _
           3%positive the_native_window (of_Z64 1) (click_at 10 0)
           process_with_standalone_window
           standalone_window_lookup eq_refl standalone_native_window_lookup eq_refl
           standalone_view_lookup eq_refl eq_refl eq_refl).
Defined.

(** ** Redraws while the window is there *)

Lemma drawWindow_attached_quiet self v w wm s (Q : unit -> World -> Prop) :
  views s !! self = Some v ->
  visage_window v = Some w ->
  windows s !! w = Some wm ->
  (forall time s',
      quiet (world_with_trace (trace s ++ [DrawCallback w time]) s) s' -> Q tt s') ->
  returns (drawWindow self) s Q.
Proof.
  intros Hv Hown Hw HQ. unfold drawWindow. step. step. rewrite Hown.
  step. apply time_microseconds_quiet. intros t s1 Hq.
  unfold drawCallback, call_window. step.
  eapply returns_getWindow; [rewrite (quiet_windows _ _ Hq); exact Hw|].
  step. eapply HQ. quiet_solve.
Qed.

Lemma displayLayer_attached self v w wm s :
  views s !! self = Some v ->
  visage_window v = Some w ->
  windows s !! w = Some wm ->
  returns (displayLayer self) s (fun _ s' =>
    exists time v',
      trace s' = trace s ++ [DrawCallback w time]
      /\ windows s' = windows s
      /\ views s' !! self = Some v'
      /\ visage_window v' = Some w
      /\ draw_count v' = uint64 (draw_count v + 1)).
Proof.
  intros Hv Hown Hw. unfold displayLayer. repeat step.
  apply time_microseconds_quiet. intros start_us s1 Hq1. step.
  eapply drawWindow_attached_quiet.
  { rewrite (quiet_views _ _ Hq1). simpl. apply lookup_insert_eq. }
  { exact Hown. }
  { rewrite (quiet_windows _ _ Hq1). exact Hw. }
  intros time s2 Hq2. step.
  apply time_microseconds_quiet. intros end_us s3 Hq3. step.
  assert (Hq : quiet (world_with_trace (trace s ++ [DrawCallback w time])
                        (world_with_views
                           (<[self := view_with_draw_count
                                        (uint64 (draw_count v + 1)) v]> (views s)) s))
                     s3) by quiet_solve.
  clear Hq1 Hq2 Hq3.
  eapply returns_getView.
  { rewrite (quiet_views _ _ Hq). simpl. apply lookup_insert_eq. }
  assert (Hdone : forall v' s',
             visage_window v' = Some w ->
             draw_count v' = uint64 (draw_count v + 1) ->
             quiet (world_with_trace (trace s ++ [DrawCallback w time])
                      (world_with_views (<[self := v']> (views s)) s)) s' ->
             exists time v',
               trace s' = trace s ++ [DrawCallback w time]
               /\ windows s' = windows s
               /\ views s' !! self = Some v'
               /\ visage_window v' = Some w
               /\ draw_count v' = uint64 (draw_count v + 1)).
  { intros v' s' Hown' Hcount' Hq'. exists time, v'.
    split; [apply (quiet_trace _ _ Hq')|].
    split; [apply (quiet_windows _ _ Hq')|].
    split; [rewrite (quiet_views _ _ Hq'); apply lookup_insert_eq|]. auto. }
  repeat step. apply returns_when; intros Hd.
  - step.
    destruct (12000 <? uint64 (end_us - start_us)).
    + step. apply returns_when; [intros _|discriminate].
      apply visageDebugLog_quiet. intros s4 Hq4.
      eapply Hdone; [| |quiet_solve]; [exact Hown|reflexivity].
    + step. eapply returns_getView; [lookup|]. step.
      apply shouldLogEvery_quiet. intros r s4 Hq4. repeat step.
      eapply returns_weaken.
      { apply returns_when with
          (Q := fun _ s' => quiet (world_with_trace (trace s ++ [DrawCallback w time])
                                     (world_with_views
                                     (<[self := view_with_last_draw_log_us (snd r)
                                          (view_with_last_render_us end_us
                                             (view_with_draw_count
                                                (uint64 (draw_count v + 1)) v))]>
                                        (views s)) s)) s').
        - intros _. apply visageDebugLog_quiet. intros s5 Hq5. quiet_solve.
        - intros _. quiet_solve. }
      intros [] s5 Hq5.
      eapply Hdone; [| |exact Hq5]; [exact Hown|reflexivity].
  - eapply Hdone; [| |quiet_solve]; [exact Hown|reflexivity].
Qed.

(** X17: while the owning window is there, each redraw of the view calls
    the window's [drawCallback] exactly once, and calls nothing else:
    after [n] redraws the calls that left are [n] draw callbacks, and the
    view has counted [n] more draws. *)
Theorem each_redraw_calls_drawCallback_once
        (self : NSViewPtr) (v : VisageAppView) (w : WindowPtr) (wm : WindowMac)
        (n : nat) (s : World)
        (Hv : views s !! self = Some v)
        (Hown : visage_window v = Some w)
        (Hw : windows s !! w = Some wm) :
  returns (redraws n self) s (fun _ s' =>
    exists times v',
      length times = n
      /\ trace s' = trace s ++ map (DrawCallback w) times
      /\ views s' !! self = Some v'
      /\ visage_window v' = Some w
      /\ uint64 (draw_count v') = uint64 (draw_count v + Z.of_nat n)).
Proof.
  revert v s Hv Hown Hw. induction n as [|n IH]; intros v s Hv Hown Hw.
  - simpl. step. exists [], v. rewrite app_nil_r, Z.add_0_r. auto.
  - cbn [redraws]. step.
    eapply returns_weaken; [apply (displayLayer_attached self v w wm s Hv Hown Hw)|].
    intros [] s1 (time & v1 & Htr1 & Hws1 & Hv1 & Hown1 & Hcount1).
    eapply returns_weaken.
    { apply (IH v1 s1 Hv1 Hown1). rewrite Hws1. exact Hw. }
    intros [] s2 (times & v2 & Hlen & Htr2 & Hv2 & Hown2 & Hcount2).
    exists (time :: times), v2.
    split; [simpl; congruence|].
    split; [rewrite Htr2, Htr1, <- app_assoc; reflexivity|].
    split; [exact Hv2|]. split; [exact Hown2|].
    rewrite Hcount2, Hcount1. unfold uint64.
    rewrite Zplus_mod_idemp_l. f_equal. lia.
Qed.

Lemma each_redraw_calls_drawCallback_once_witness :
  let s := process_with_standalone_window in
  returns (redraws 3 2%positive) s (fun _ s' =>
    exists times v',
      length times = 3%nat
      /\ trace s' = trace s ++ map (DrawCallback 1%positive) times
      /\ views s' !! 2%positive = Some v'
      /\ visage_window v' = Some 1%positive
      /\ uint64 (draw_count v') = uint64 (0 + Z.of_nat 3)).
Proof.
  exact (each_redraw_calls_drawCallback_once
           2%positive the_standalone_view 1%positive the_standalone_window 3
           process_with_standalone_window
           standalone_view_lookup eq_refl standalone_window_lookup).
Defined.

(** ** What the pointer handlers call *)

Section HandlerFacts.

Context {K : EventConstants}.

Ltac handler Hown :=
  repeat first
    [ step
    | eapply eventPosition_spec; [lookup | simpl; exact Hown | lookup | intros ? ?]
    | eapply dragPosition_spec; [lookup | simpl; exact Hown | lookup | ]
    | apply log_every_quiet; intros ? ?
    | rewrite Hown
    | progress unfold mouseMoved, mouseEntered, mouseExited, mouseDown, mouseUp,
        mouseDragged, rightMouseDown, rightMouseUp, rightMouseDragged,
        otherMouseDown, otherMouseUp, otherMouseDragged, scrollWheel,
        dragFiles, performDragOperation, forwardMouseMove, forwardMouseDown,
        forwardMouseUp, checkRelativeMode, makeKeyWindow, call_window,
        mouseRelativeMode, isPopup, on_handle, when
    | progress simpl ].

Ltac called Hv :=
  quiet_subst; simpl;
  rewrite ?(insert_id _ _ _ Hv), ?app_nil_r;
  repeat split; rewrite <- ?app_assoc; reflexivity.

Lemma dispatch_calls (k : PointerEvent) self v w wm event s :
  views s !! self = Some v ->
  visage_window v = Some w ->
  windows s !! w = Some wm ->
  returns (dispatch k self event) s (fun _ s' =>
    trace s' = trace s ++ handler_calls k self v w wm event
    /\ views s' = <[self := view_after k event v]> (views s)
    /\ windows s' = windows s).
Proof.
  intros Hv Hown Hw. unfold view_after.
  destruct k; simpl dispatch; simpl is_button_down; cbv iota.
  - handler Hown. called Hv.
  - handler Hown. called Hv.
  - handler Hown. called Hv.
  - handler Hown.
    destruct (isPopup_of wm), (window v), drag_source; handler Hown; called Hv.
  - handler Hown. called Hv.
  - handler Hown.
    destruct (mouse_relative_mode_ wm); handler Hown; called Hv.
  - handler Hown.
    destruct (isPopup_of wm), (window v); handler Hown; called Hv.
  - handler Hown. called Hv.
  - handler Hown.
    destruct (mouse_relative_mode_ wm); handler Hown; called Hv.
  - unfold otherMouseDown, handler_calls.
    destruct (buttonNumber event =? 2); simpl.
    + handler Hown.
      destruct (isPopup_of wm), (window v); handler Hown; called Hv.
    + handler Hown. called Hv.
  - unfold otherMouseUp, handler_calls.
    destruct (buttonNumber event =? 2); simpl.
    + handler Hown. called Hv.
    + handler Hown. called Hv.
  - handler Hown.
    destruct (mouse_relative_mode_ wm); handler Hown; called Hv.
  - handler Hown. called Hv.
  - handler Hown. called Hv.
  - handler Hown. called Hv.
  - handler Hown. called Hv.
Qed.

(** X18: the handler of a pointer event calls one handler of the window,
    first of all, and no second one; the events of another button than
    the middle one going down or up are dropped: their handlers return at
    once and change nothing. *)
Theorem each_pointer_event_reaches_one_handler
        (k : PointerEvent) (self : NSViewPtr) (v : VisageAppView)
        (w : WindowPtr) (wm : WindowMac) (event : NSEvent) (s : World)
        (Hv : views s !! self = Some v)
        (Hown : visage_window v = Some w)
        (Hw : windows s !! w = Some wm) :
  returns (dispatch k self event) s (fun _ s' =>
    if is_forwarded k event
    then exists call rest,
           trace s' = trace s ++ call :: rest
           /\ is_handler_call call = true
           /\ Forall (fun e => is_handler_call e = false) rest
    else s' = s).
Proof.
  destruct (is_forwarded k event) eqn:Hfwd.
  - eapply returns_weaken; [apply (dispatch_calls k self v w wm event s Hv Hown Hw)|].
    intros [] s' (Htr & _ & _). rewrite Htr. clear Htr.
    destruct k; simpl in Hfwd; unfold handler_calls; rewrite ?Hfwd;
      try destruct drag_source;
      destruct (isPopup_of wm), (window v), (mouse_relative_mode_ wm);
      simpl; eexists _, _; (split; [reflexivity|]);
      (split; [reflexivity|]); repeat constructor.
  - destruct k; try discriminate Hfwd; simpl in Hfwd;
      unfold dispatch, otherMouseDown, otherMouseUp; rewrite Hfwd; simpl;
      apply returns_ret; reflexivity.
Qed.

(** X19: the handler of a pointer event makes the native window that the
    view is in the key window exactly when a button goes down and the
    window is not a popup. *)
Theorem a_button_down_makes_the_window_key_unless_popup
        (k : PointerEvent) (self : NSViewPtr) (v : VisageAppView)
        (w : WindowPtr) (wm : WindowMac) (event : NSEvent) (s : World)
        (Hv : views s !! self = Some v)
        (Hown : visage_window v = Some w)
        (Hw : windows s !! w = Some wm) :
  returns (dispatch k self event) s (fun _ s' =>
    exists es,
      trace s' = trace s ++ es
      /\ forall e, In e es /\ is_make_key e = true <->
                   is_button_down k event = true
                   /\ isPopup_of wm = false
                   /\ exists n, window v = Some n /\ e = MakeKeyWindow n).
Proof.
  eapply returns_weaken; [apply (dispatch_calls k self v w wm event s Hv Hown Hw)|].
  intros [] s' (Htr & _ & _). eexists. split; [exact Htr|]. clear Htr.
  intros e. unfold handler_calls.
  destruct k; simpl is_button_down;
    try destruct (buttonNumber event =? 2);
    try destruct drag_source;
    destruct (isPopup_of wm), (window v), (mouse_relative_mode_ wm); simpl;
    (split;
     [ intros [Hin Hkey];
       repeat match type of Hin with
              | _ \/ _ => destruct Hin as [<-|Hin]; [try discriminate Hkey|]
              | False => destruct Hin
              end;
       eauto 10
     | intros (Hdown & Hpopup & n' & Hwin & ->);
       first [ discriminate
             | injection Hwin as <-; split; [auto 10|reflexivity] ] ]).
Qed.

(** X20: a button that goes down leaves the screen position of the pointer
    with the view.  A drag that follows calls the window's
    [handleMouseMove], with the position, the buttons and the modifiers of
    the drag, and nothing before it; while the window is in relative mouse
    mode it then warps the pointer back to the position of the button
    down, and out of relative mode it does nothing more.  (Whatever the
    framework did to the window in between.) *)
Theorem a_relative_drag_warps_back_to_the_button_down
        (k_down k_drag : PointerEvent) (self : NSViewPtr) (v : VisageAppView)
        (w : WindowPtr) (wm : WindowMac) (down drag : NSEvent) (s : World)
        (Hv : views s !! self = Some v)
        (Hown : visage_window v = Some w)
        (Hw : windows s !! w = Some wm)
        (Hdown : is_button_down k_down down = true)
        (Hdrag : is_drag k_drag = true) :
  returns (dispatch k_down self down) s (fun _ s1 =>
    (exists v1, views s1 !! self = Some v1
                /\ mouse_down_screen_position v1 = mouseScreenPosition down)
    /\ forall s2 wm2,
         views s2 = views s1 -> windows s2 !! w = Some wm2 ->
         returns (dispatch k_drag self drag) s2 (fun _ s3 =>
           let p := framework_point (view_location drag) (height (frame_size v))
                                    (dpi_scale_ wm2) in
           trace s3
           = trace s2
             ++ HandleMouseMove w (pt_x p) (pt_y p)
                                (mouseButtonState drag) (keyboardModifiers drag)
                :: (if mouse_relative_mode_ wm2
                    then [WarpMouseCursor (mouseScreenPosition down)]
                    else []))).
Proof.
  eapply returns_weaken;
    [apply (dispatch_calls k_down self v w wm down s Hv Hown Hw)|].
  intros [] s1 (_ & Hvs1 & _).
  unfold view_after in Hvs1. rewrite Hdown in Hvs1.
  split.
  { eexists. rewrite Hvs1, lookup_insert_eq. split; reflexivity. }
  intros s2 wm2 Hvs2 Hw2.
  eapply returns_weaken.
  { eapply (dispatch_calls k_drag self _ w wm2 drag s2).
    - rewrite Hvs2, Hvs1. apply lookup_insert_eq.
    - simpl. exact Hown.
    - exact Hw2. }
  intros [] s3 (Htr & _ & _). rewrite Htr. clear Htr.
  destruct k_drag; try discriminate Hdrag; unfold handler_calls; simpl;
    reflexivity.
Qed.

End HandlerFacts.

Lemma each_pointer_event_reaches_one_handler_witness :
  let s := process_with_standalone_window in
  returns (dispatch (K := example_constants) MouseUp 2%positive (click_at 10 0)) s
    (fun _ s' =>
       exists call rest,
         trace s' = trace s ++ call :: rest
         /\ is_handler_call call = true
         /\ Forall (fun e => is_handler_call e = false) rest).
Proof.
  exact (each_pointer_event_reaches_one_handler
           (K := example_constants) MouseUp
           2%positive the_standalone_view 1%positive the_standalone_window
           (click_at 10 0) process_with_standalone_window
           standalone_view_lookup eq_refl standalone_window_lookup).
Defined.

Lemma a_button_down_makes_the_window_key_unless_popup_witness :
  let s := process_with_standalone_window in
  returns (dispatch (K := example_constants) RightMouseDown 2%positive (click_at 10 0))
          s
    (fun _ s' =>
       exists es,
         trace s' = trace s ++ es
         /\ forall e, In e es /\ is_make_key e = true <->
                      true = true
                      /\ isPopup_of the_standalone_window = false
                      /\ exists n, Some 3%positive = Some n /\ e = MakeKeyWindow n).
Proof.
  exact (a_button_down_makes_the_window_key_unless_popup
           (K := example_constants) RightMouseDown
           2%positive the_standalone_view 1%positive the_standalone_window
           (click_at 10 0) process_with_standalone_window
           standalone_view_lookup eq_refl standalone_window_lookup).
Defined.

Lemma a_relative_drag_warps_back_to_the_button_down_witness :
  let K := example_constants in
  let w := 1%positive in
  let self := 2%positive in
  let down := click_at 10 0 in
  let drag := click_at 20 5 in
  returns (dispatch (MouseDown None) self down) process_with_standalone_window
    (fun _ s1 =>
       (exists v1, views s1 !! self = Some v1
                   /\ mouse_down_screen_position v1 = mouseScreenPosition down)
       /\ forall s2 wm2,
            views s2 = views s1 -> windows s2 !! w = Some wm2 ->
            returns (dispatch MouseDragged self drag) s2 (fun _ s3 =>
              let p := framework_point (view_location drag)
                                       (height (frame_size the_standalone_view))
                                       (dpi_scale_ wm2) in
              trace s3
              = trace s2
                ++ HandleMouseMove w (pt_x p) (pt_y p)
                                   (mouseButtonState drag) (keyboardModifiers drag)
                   :: (if mouse_relative_mode_ wm2
                       then [WarpMouseCursor (mouseScreenPosition down)]
                       else []))).
Proof.
  exact (a_relative_drag_warps_back_to_the_button_down
           (K := example_constants) (MouseDown None) MouseDragged
           2%positive the_standalone_view 1%positive the_standalone_window
           (click_at 10 0) (click_at 20 5) process_with_standalone_window
           standalone_view_lookup eq_refl standalone_window_lookup eq_refl eq_refl).
Defined.

(** ** An embedded window and its host *)

Lemma host_untouched_refl s : host_untouched s s.
Proof.
  split; [eauto|]. split; [|auto].
  exists []. split; [symmetry; apply app_nil_r|constructor].
Qed.

Lemma host_untouched_trans s1 s2 s3 :
  host_untouched s1 s2 -> host_untouched s2 s3 -> host_untouched s1 s3.
Proof.
  intros (Hn & (es & Ht & Hes) & Hr) (Hn' & (es' & Ht' & Hes') & Hr').
  split; [|split].
  - intros m o Ho. destruct (Hn m o Ho) as (o' & Ho' & Hvis).
    destruct (Hn' m o' Ho') as (o'' & Ho'' & Hvis').
    exists o''. split; [exact Ho''|congruence].
  - exists (es ++ es'). rewrite Ht', Ht, <- app_assoc.
    split; [reflexivity|]. apply Forall_app. auto.
  - auto.
Qed.

Lemma host_untouched_intro s s' es :
  nswindows s' = nswindows s ->
  trace s' = trace s ++ es ->
  Forall (fun e => is_ordering e = false) es ->
  native_window_lookup_ s' = native_window_lookup_ s ->
  host_untouched s s'.
Proof.
  intros Hn Ht Hes Hr. split; [|split].
  - intros m o Ho. rewrite Hn. eauto.
  - eauto.
  - intros h Hh. rewrite Hr. exact Hh.
Qed.

Lemma host_attach_untouched this self n s :
  embedded_inv this self s ->
  is_Some (nswindows s !! n) ->
  returns (host_event self (HostAttach n)) s (fun _ s' => host_untouched s s').
Proof.
  intros Hinv [o Ho]. pose proof Hinv as
      ((wm & p & Hw & Hparent & Halive) & (v & Hv & Hown & Hobs) & Hothers).
  unfold host_event, viewWillMoveToWindow, setParentWindow, resetBackingScale.
  steps. rewrite Hown. steps. rewrite Hparent. steps.
  destruct (view_ wm) as [view|]; steps.
  all: unfold isEmbedded_of; simpl; rewrite Hparent; steps.
  all: apply visageDebugLog_quiet; intros s1 Hq; steps.
  all: eapply host_untouched_intro; simpl;
    [ rewrite (quiet_nswindows _ _ Hq); reflexivity
    | rewrite (quiet_trace _ _ Hq); simpl; rewrite <- ?app_assoc; simpl; reflexivity
    | repeat constructor
    | rewrite (quiet_registry _ _ Hq); reflexivity ].
Qed.

Lemma host_detach_untouched this self s :
  embedded_inv this self s ->
  returns (host_event self HostDetach) s (fun _ s' =>
    host_untouched s s'
    /\ forall wm, windows s !! this = Some wm ->
                  native_window_lookup_ s' !! nativeHandle_of wm = None).
Proof.
  intros Hinv. pose proof Hinv as
      ((wm & p & Hw & Hparent & Halive) & (v & Hv & Hown & Hobs) & Hothers).
  unfold host_event, viewWillMoveToWindow, closeWindow, hide.
  steps. rewrite Hown. steps.
  assert (Hdone : forall s' es,
             nswindows s' = nswindows s ->
             trace s' = trace s ++ es ->
             Forall (fun e => is_ordering e = false) es ->
             native_window_lookup_ s'
             = delete (nativeHandle_of wm) (native_window_lookup_ s) ->
             host_untouched s s'
             /\ forall wm0, windows s !! this = Some wm0 ->
                  native_window_lookup_ s' !! nativeHandle_of wm0 = None).
  { intros s' es Hn Ht Hes Hr. split.
    - split; [|split].
      + intros m o Ho. rewrite Hn. eauto.
      + eauto.
      + intros h Hh. rewrite Hr. apply lookup_delete_None. auto.
    - intros wm0 Hwm0. rewrite Hr. assert (wm0 = wm) as -> by congruence.
      apply lookup_delete_eq. }
  assert (Hreg : forall rect,
             NativeWindowLookup.removeWindow
               (nativeHandle_in
                  (world_with_windows
                     (<[this := win_with_last_content_rect_ rect wm]> (windows s)) s))
               this (native_window_lookup_ s)
             = delete (nativeHandle_of wm) (native_window_lookup_ s)).
  { intros rect. rewrite removeWindow_delete. unfold nativeHandle_in. simpl.
    rewrite lookup_insert_eq. reflexivity. }
  destruct (window_handle_ wm) as [h|] eqn:Hh.
  - destruct (Halive h eq_refl) as [o Ho]. steps. rewrite Hh, Hparent. steps.
    match goal with |- returns (when ?b _) _ _ => destruct b end; steps.
    + match goal with
      | |- host_untouched s ?S /\ _ => apply (Hdone S [NSAppStop])
      end; simpl; auto; repeat constructor.
    + match goal with
      | |- host_untouched s ?S /\ _ => apply (Hdone S [])
      end; simpl; auto; symmetry; apply app_nil_r.
  - steps. rewrite Hh. steps.
    match goal with |- returns (when ?b _) _ _ => destruct b end; steps.
    + match goal with
      | |- host_untouched s ?S /\ _ => apply (Hdone S [NSAppStop])
      end; simpl; auto; repeat constructor.
    + match goal with
      | |- host_untouched s ?S /\ _ => apply (Hdone S [])
      end; simpl; auto; symmetry; apply app_nil_r.
Qed.

Lemma windowOcclusionChanged_trace a va n o s :
  views s !! a = Some va ->
  nswindows s !! n = Some o ->
  (forall w', visage_window va = Some w' -> is_Some (windows s !! w')) ->
  returns (windowOcclusionChanged a n) s (fun _ s' => trace s' = trace s).
Proof.
  intros Hva Hn Hown. unfold windowOcclusionChanged. steps.
  destruct (visage_window va) as [w'|] eqn:Hw'.
  - destruct (Hown w' eq_refl) as (wm' & Hwm'). steps.
    apply visageDebugLog_quiet. intros s' Hq. apply (quiet_trace _ _ Hq).
  - steps. apply visageDebugLog_quiet. intros s' Hq. apply (quiet_trace _ _ Hq).
Qed.

Lemma deliver_occlusion_trace this n o observers : forall s,
  nswindows s !! n = Some o ->
  Forall (fun a => exists va, views s !! a = Some va
                              /\ forall w', visage_window va = Some w' ->
                                            w' <> this /\ is_Some (windows s !! w'))
         observers ->
  returns (deliver_occlusion n observers) s (fun _ s' => trace s' = trace s).
Proof.
  induction observers as [|a rest IH]; intros s Hn Hall; simpl.
  - step. reflexivity.
  - inversion Hall as [|? ? (va & Hva & Hown) Hrest]; subst.
    step. eapply returns_weaken.
    { apply returns_conj.
      - apply (windowOcclusionChanged_other this a va n o s Hva Hn Hown).
      - apply (windowOcclusionChanged_trace a va n o s Hva Hn).
        intros w' Hw'. apply (Hown w' Hw'). }
    intros [] s1 [Hl1 Ht1]. eapply returns_weaken.
    { apply IH.
      - destruct Hl1 as (_ & -> & _). exact Hn.
      - destruct Hl1 as (Hv1 & _ & _ & _ & Hdom).
        eapply Forall_impl; [exact Hrest|]. intros b (vb & Hvb & Hownb).
        exists vb. rewrite Hv1. split; [exact Hvb|].
        intros w' Hw'. destruct (Hownb w' Hw'). auto. }
    intros [] s2 Ht2. congruence.
Qed.

Lemma host_occlusion_untouched this self n state s :
  embedded_inv this self s ->
  is_Some (nswindows s !! n) ->
  returns (host_event self (HostOcclusion n state)) s (fun _ s' =>
    host_untouched s s').
Proof.
  intros Hinv [o Ho]. pose proof Hinv as
      ((wm & p & Hw & Hparent & Halive) & (v & Hv & Hown & Hobs) & Hothers).
  unfold host_event, occlusionStateChanged. steps.
  assert (Hobservers :
            Forall (fun a => exists va, views s !! a = Some va
                               /\ forall w', visage_window va = Some w' ->
                                             w' <> this /\ is_Some (windows s !! w'))
                   (occlusion_observers n (views s))).
  { apply Forall_forall. intros a Ha.
    destruct (occlusion_observers_spec _ _ _ Ha) as (va & Hva & Hsub).
    exists va. split; [exact Hva|]. intros w' Hw'.
    exact (Hothers a va w' Hva Hsub Hw'). }
  eapply returns_weaken.
  { apply returns_conj.
    - eapply (deliver_occlusion_others this n); [simpl; apply lookup_insert_eq|].
      exact Hobservers.
    - eapply (deliver_occlusion_trace this n); [simpl; apply lookup_insert_eq|].
      exact Hobservers. }
  intros [] s' [(Hvs & Hns & Hreg & Hthis & Hdom) Htr]. simpl in *.
  split; [|split].
  - intros m o' Ho'. rewrite Hns. destruct (decide (n = m)) as [<-|Hne].
    + rewrite lookup_insert_eq. eexists. split; [reflexivity|].
      simpl. congruence.
    + rewrite lookup_insert_ne by exact Hne. eauto.
  - exists []. rewrite app_nil_r. split; [exact Htr|constructor].
  - intros h Hh. rewrite Hreg. exact Hh.
Qed.

Lemma show_embedded this self s :
  embedded_inv this self s ->
  returns (show this) s (fun _ s' =>
    embedded_inv this self s'
    /\ nswindows s' = nswindows s
    /\ visible_in s' this = visible_in s this
    /\ host_untouched s s').
Proof.
  intros Hinv. pose proof Hinv as
      ((wm & p & Hw & Hparent & Halive) & (v & Hv & Hown & Hobs) & Hothers).
  unfold show. steps. rewrite Hparent. steps.
  split; [|split; [reflexivity|split; [reflexivity|]]].
  - eapply embedded_inv_ext; [..|exact Hinv]; reflexivity.
  - eapply host_untouched_intro; simpl; try reflexivity. repeat constructor.
Qed.

Lemma hide_embedded this self s :
  embedded_inv this self s ->
  returns (hide this) s (fun _ s' => s' = s).
Proof.
  intros ((wm & p & Hw & Hparent & Halive) & _).
  unfold hide. steps. rewrite Hparent.
  destruct (window_handle_ wm); steps; reflexivity.
Qed.

Lemma embedded_call_untouched this self c s :
  embedded_inv this self s ->
  Forall (fun n => is_Some (nswindows s !! n)) (host_windows (host_events_of [c])) ->
  returns (embedded_call this self c) s (fun _ s' =>
    embedded_inv this self s' /\ host_untouched s s').
Proof.
  intros Hinv Halive. destruct c as [[n| |n state]| |]; simpl in *.
  - inversion Halive as [|? ? Hn _]; subst.
    eapply returns_weaken.
    { apply returns_conj;
        [ apply (host_attach_embedded this self n s Hinv Hn)
        | apply (host_attach_untouched this self n s Hinv Hn) ]. }
    intros [] s' [(Hinv' & _) Hun]. auto.
  - eapply returns_weaken.
    { apply returns_conj;
        [ apply (host_detach_embedded this self s Hinv)
        | apply (host_detach_untouched this self s Hinv) ]. }
    intros [] s' [(Hinv' & _) (Hun & _)]. auto.
  - inversion Halive as [|? ? Hn _]; subst.
    eapply returns_weaken.
    { apply returns_conj;
        [ apply (host_occlusion_embedded this self n state s Hinv Hn)
        | apply (host_occlusion_untouched this self n state s Hinv Hn) ]. }
    intros [] s' [(Hinv' & _) Hun]. auto.
  - eapply returns_weaken; [apply (show_embedded this self s Hinv)|].
    intros [] s' (Hinv' & _ & _ & Hun). auto.
  - eapply returns_weaken; [apply (hide_embedded this self s Hinv)|].
    intros [] s' ->. split; [exact Hinv|apply host_untouched_refl].
Qed.

Lemma embedded_calls_untouched this self cs : forall s,
  embedded_inv this self s ->
  Forall (fun n => is_Some (nswindows s !! n)) (host_windows (host_events_of cs)) ->
  returns (embedded_calls this self cs) s (fun _ s' =>
    embedded_inv this self s' /\ host_untouched s s').
Proof.
  induction cs as [|c cs IH]; intros s Hinv Halive.
  - simpl. step. split; [exact Hinv|apply host_untouched_refl].
  - cbn [embedded_calls]. step.
    assert (Hsplit :
              Forall (fun n => is_Some (nswindows s !! n))
                     (host_windows (host_events_of [c]))
              /\ Forall (fun n => is_Some (nswindows s !! n))
                        (host_windows (host_events_of cs))).
    { destruct c as [[n| |n state]| |]; simpl in *;
        try (inversion Halive; subst); auto. }
    destruct Hsplit as [Hhere Hrest].
    eapply returns_weaken;
      [apply (embedded_call_untouched this self c s Hinv Hhere)|].
    intros [] s1 [Hinv1 Hun1]. eapply returns_weaken.
    { apply (IH s1 Hinv1). eapply Forall_impl; [exact Hrest|].
      intros m [o Ho]. destruct Hun1 as (Hn & _).
      destruct (Hn m o Ho) as (o' & Ho' & _). eauto. }
    intros [] s2 [Hinv2 Hun2]. split; [exact Hinv2|].
    exact (host_untouched_trans _ _ _ Hun1 Hun2).
Qed.

(** X21: an embedded window leaves the native windows to the host.
    Whatever the host does to the view (attaching it to a window,
    detaching it, window occlusion) and whenever the framework calls
    [show] or [hide], all the calls are defined, none of them puts a
    native window on screen or takes one off, and every native window is
    as visible afterwards as it was before. *)
Theorem an_embedded_window_never_orders_a_native_window
        (this : WindowPtr) (self : NSViewPtr) (cs : list EmbeddedCall) (s : World)
        (Hinv : embedded_inv this self s)
        (Halive : Forall (fun n => is_Some (nswindows s !! n))
                         (host_windows (host_events_of cs))) :
  returns (embedded_calls this self cs) s (fun _ s' =>
    (exists es, trace s' = trace s ++ es
                /\ Forall (fun e => is_ordering e = false) es)
    /\ forall n o, nswindows s !! n = Some o ->
                   exists o', nswindows s' !! n = Some o'
                              /\ isVisible o' = isVisible o).
Proof.
  eapply returns_weaken;
    [apply (embedded_calls_untouched this self cs s Hinv Halive)|].
  intros [] s' (_ & Hn & Ht & _). auto.
Qed.

Lemma an_embedded_window_never_orders_a_native_window_witness :
  let s := process_with_embedded_window in
  returns (embedded_calls 1%positive 2%positive
             [CallShow; HostCall (HostOcclusion 10%positive 0); CallHide;
              HostCall HostDetach; HostCall (HostAttach 10%positive)]) s
    (fun _ s' =>
       (exists es, trace s' = trace s ++ es
                   /\ Forall (fun e => is_ordering e = false) es)
       /\ forall n o, nswindows s !! n = Some o ->
                      exists o', nswindows s' !! n = Some o'
                                 /\ isVisible o' = isVisible o).
Proof.
  apply (an_embedded_window_never_orders_a_native_window
           1%positive 2%positive
           [CallShow; HostCall (HostOcclusion 10%positive 0); CallHide;
            HostCall HostDetach; HostCall (HostAttach 10%positive)]
           process_with_embedded_window embedded_window_inv).
  repeat (apply List.Forall_cons;
          [exists host_window; exact embedded_host_window_lookup|]).
  apply List.Forall_nil.
Defined.

(** X22: when the host takes the view of an embedded window out of its
    window, the window goes out of the registry, and nothing that follows
    brings it back: the host may attach the view to a window again, the
    framework may show the window, the window object is there, and
    [findWindow] on its handle still gives null. *)
Theorem a_detached_embedded_window_stays_unregistered
        (this : WindowPtr) (self : NSViewPtr) (wm : WindowMac)
        (cs : list EmbeddedCall) (s : World)
        (Hinv : embedded_inv this self s)
        (Hw : windows s !! this = Some wm)
        (Hview : view_ wm = Some self)
        (Halive : Forall (fun n => is_Some (nswindows s !! n))
                         (host_windows (host_events_of cs))) :
  returns (host_event self HostDetach) s (fun _ s1 =>
    NativeWindowLookup.findWindow (Npos self) (native_window_lookup_ s1) = None
    /\ returns (embedded_calls this self cs) s1 (fun _ s2 =>
         is_Some (windows s2 !! this)
         /\ NativeWindowLookup.findWindow (Npos self) (native_window_lookup_ s2)
            = None)).
Proof.
  eapply returns_weaken.
  { apply returns_conj;
      [ apply (host_detach_embedded this self s Hinv)
      | apply (host_detach_untouched this self s Hinv) ]. }
  intros [] s1 [(Hinv1 & _ & Hns1) (_ & Hgone)].
  specialize (Hgone wm Hw). unfold nativeHandle_of in Hgone. rewrite Hview in Hgone.
  split; [exact Hgone|].
  eapply returns_weaken.
  { apply (embedded_calls_untouched this self cs s1 Hinv1).
    rewrite Hns1. exact Halive. }
  intros [] s2 (Hinv2 & _ & _ & Hreg). split; [|apply Hreg, Hgone].
  destruct Hinv2 as ((wm2 & p2 & Hw2 & _) & _). eauto.
Qed.

Lemma a_detached_embedded_window_stays_unregistered_witness :
  returns (host_event 2%positive HostDetach) process_with_embedded_window
    (fun _ s1 =>
       NativeWindowLookup.findWindow 2%N (native_window_lookup_ s1) = None
       /\ returns (embedded_calls 1%positive 2%positive
                     [HostCall (HostAttach 10%positive); CallShow]) s1
            (fun _ s2 =>
               is_Some (windows s2 !! 1%positive)
               /\ NativeWindowLookup.findWindow 2%N (native_window_lookup_ s2) = None)).
Proof.
  apply (a_detached_embedded_window_stays_unregistered
           1%positive 2%positive the_embedded_window
           [HostCall (HostAttach 10%positive); CallShow]
           process_with_embedded_window
           embedded_window_inv embedded_window_lookup eq_refl).
  repeat (apply List.Forall_cons;
          [exists host_window; exact embedded_host_window_lookup|]).
  apply List.Forall_nil.
Defined.

(** X23: when the host puts the view of an embedded window in one of its
    windows, the window object takes that window as its native window and
    its backing scale as the DPI scale, and counts as visible; from then
    on it is showing exactly when the host's window is on screen.  The
    view does not start to observe the occlusion of the window. *)
Theorem an_embedded_window_adopts_the_host_window
        (this : WindowPtr) (wm : WindowMac) (p : NSViewPtr)
        (self : NSViewPtr) (v : VisageAppView)
        (n : NSWindowPtr) (o : NSWindow) (s : World)
        (Hw : windows s !! this = Some wm)
        (Hparent : parent_view_ wm = Some p)
        (Hview : view_ wm = Some self)
        (Hv : views s !! self = Some v)
        (Hown : visage_window v = Some this)
        (Hn : nswindows s !! n = Some o) :
  returns (host_event self (HostAttach n)) s (fun _ s1 =>
    (exists wm1, windows s1 !! this = Some wm1
                 /\ window_handle_ wm1 = Some n
                 /\ dpi_scale_ wm1 = to_f32 (backingScaleFactor o)
                 /\ visible_ wm1 = true)
    /\ (exists v1, views s1 !! self = Some v1
                   /\ window v1 = Some n
                   /\ occlusion_observed v1 = occlusion_observed v)
    /\ isShowing_in s1 this = isVisible o
    /\ trace s1 = trace s ++ [MakeFirstResponder n self; MakeFirstResponder n self;
                              ActivateIgnoringOtherApps]).
Proof.
  unfold host_event, viewWillMoveToWindow, setParentWindow, resetBackingScale.
  steps. rewrite Hown. steps. rewrite Hparent. steps. rewrite Hview. steps.
  unfold isEmbedded_of; simpl; rewrite Hparent; steps.
  apply visageDebugLog_quiet; intros s1 Hq; steps.
  pose proof (quiet_windows _ _ Hq) as Hws.
  pose proof (quiet_views _ _ Hq) as Hvs.
  pose proof (quiet_nswindows _ _ Hq) as Hns.
  pose proof (quiet_trace _ _ Hq) as Htr.
  simpl in Hws, Hvs, Hns, Htr. rewrite ?insert_insert_eq in Hws.
  split; [|split; [|split]].
  - eexists. rewrite Hws, lookup_insert_eq. split; [reflexivity|]. auto.
  - eexists. rewrite lookup_insert_eq. split; [reflexivity|]. auto.
  - unfold isShowing_in. simpl. rewrite Hws, lookup_insert_eq. simpl.
    rewrite Hns, Hn. reflexivity.
  - rewrite Htr, <- !app_assoc. reflexivity.
Qed.

Lemma an_embedded_window_adopts_the_host_window_witness :
  let s := process_with_embedded_window in
  returns (host_event 2%positive (HostAttach 10%positive)) s (fun _ s1 =>
    (exists wm1, windows s1 !! 1%positive = Some wm1
                 /\ window_handle_ wm1 = Some 10%positive
                 /\ dpi_scale_ wm1 = to_f32 (of_Z64 2)
                 /\ visible_ wm1 = true)
    /\ (exists v1, views s1 !! 2%positive = Some v1
                   /\ window v1 = Some 10%positive
                   /\ occlusion_observed v1 = [])
    /\ isShowing_in s1 1%positive = true
    /\ trace s1 = trace s ++ [MakeFirstResponder 10%positive 2%positive;
                              MakeFirstResponder 10%positive 2%positive;
                              ActivateIgnoringOtherApps]).
Proof.
  exact (an_embedded_window_adopts_the_host_window
           1%positive the_embedded_window 9%positive 2%positive the_embedded_view
           10%positive host_window process_with_embedded_window
           embedded_window_lookup eq_refl eq_refl embedded_view_lookup eq_refl
           embedded_host_window_lookup).
Defined.

(** ** Occlusion of a standalone window *)

Lemma occlusion_observers_In n (vs : gmap NSViewPtr VisageAppView) a :
  In a (occlusion_observers n vs) <->
  exists va, vs !! a = Some va /\ In n (occlusion_observed va).
Proof.
  unfold occlusion_observers. rewrite in_flat_map. split.
  - intros ([b vb] & Hin & Ha). simpl in Ha.
    apply in_map_iff in Ha as (m & <- & Hm).
    apply list_elem_of_In, list_elem_of_filter in Hm as [-> Hm].
    exists vb. split.
    + apply elem_of_map_to_list, list_elem_of_In, Hin.
    + apply list_elem_of_In, Hm.
  - intros (va & Hva & Hn). exists (a, va). split.
    + apply list_elem_of_In, elem_of_map_to_list, Hva.
    + simpl. apply in_map_iff. exists n. split; [reflexivity|].
      apply list_elem_of_In, list_elem_of_filter. split; [reflexivity|].
      apply list_elem_of_In, Hn.
Qed.

Lemma windowOcclusionChanged_spec a va n o s (Q : unit -> World -> Prop) :
  views s !! a = Some va ->
  nswindows s !! n = Some o ->
  (forall w', visage_window va = Some w' -> is_Some (windows s !! w')) ->
  (forall s',
      quiet (match visage_window va with
             | Some w' =>
                 match windows s !! w' with
                 | Some wm' =>
                     world_with_windows
                       (<[w' := win_with_visible_
                                  (occlusion_visible (occlusionState o)) wm']>
                          (windows s)) s
                 | None => s
                 end
             | None => s
             end) s' -> Q tt s') ->
  returns (windowOcclusionChanged a n) s Q.
Proof.
  intros Hva Hn Hown HQ. unfold windowOcclusionChanged. steps.
  destruct (visage_window va) as [w'|] eqn:Hw'.
  - destruct (Hown w' eq_refl) as (wm' & Hwm'). steps.
    apply visageDebugLog_quiet. intros s' Hq. apply HQ. rewrite Hwm'. exact Hq.
  - steps. apply visageDebugLog_quiet. intros s' Hq. apply HQ. exact Hq.
Qed.

Lemma deliver_occlusion_visible n o observers : forall s,
  nswindows s !! n = Some o ->
  Forall (fun a => exists va, views s !! a = Some va
                              /\ forall w', visage_window va = Some w' ->
                                            is_Some (windows s !! w'))
         observers ->
  returns (deliver_occlusion n observers) s (fun _ s' =>
    views s' = views s
    /\ nswindows s' = nswindows s
    /\ (forall w, is_Some (windows s !! w) -> is_Some (windows s' !! w))
    /\ (forall w, visible_in s' w = Some (occlusion_visible (occlusionState o))
                  \/ visible_in s' w = visible_in s w)
    /\ (forall w, (exists a va, In a observers /\ views s !! a = Some va
                                /\ visage_window va = Some w) ->
                  visible_in s' w = Some (occlusion_visible (occlusionState o)))
    /\ (forall w, (forall a va, In a observers -> views s !! a = Some va ->
                                visage_window va <> Some w) ->
                  visible_in s' w = visible_in s w)).
Proof.
  induction observers as [|a rest IH]; intros s Hn Hall; simpl.
  - step. split; [reflexivity|]. split; [reflexivity|]. split; [auto|].
    split; [auto|]. split; [|auto]. intros w (a & va & [] & _).
  - inversion Hall as [|? ? (va & Hva & Hown) Hrest]; subst.
    step. eapply windowOcclusionChanged_spec; try eassumption.
    intros s1 Hq.
    pose proof (quiet_views _ _ Hq) as Hvs1.
    pose proof (quiet_nswindows _ _ Hq) as Hns1.
    pose proof (quiet_windows _ _ Hq) as Hws1.
    assert (Hvs1' : views s1 = views s).
    { rewrite Hvs1. destruct (visage_window va) as [w'|]; [|reflexivity].
      destruct (windows s !! w'); reflexivity. }
    assert (Hns1' : nswindows s1 = nswindows s).
    { rewrite Hns1. destruct (visage_window va) as [w'|]; [|reflexivity].
      destruct (windows s !! w'); reflexivity. }
    assert (Hgrow1 : forall w, is_Some (windows s !! w) -> is_Some (windows s1 !! w)).
    { intros w Hw. rewrite Hws1.
      destruct (visage_window va) as [w'|]; [|exact Hw].
      destruct (windows s !! w') as [wm'|] eqn:Hwm'; [|exact Hw]. simpl.
      destruct (decide (w' = w)) as [->|Hne].
      - rewrite lookup_insert_eq. eauto.
      - rewrite lookup_insert_ne by exact Hne. exact Hw. }
    assert (Hvis1 : forall w,
               visible_in s1 w
               = if decide (visage_window va = Some w)
                 then Some (occlusion_visible (occlusionState o))
                 else visible_in s w).
    { intros w. unfold visible_in. rewrite Hws1.
      destruct (visage_window va) as [w'|] eqn:Hw'.
      - destruct (Hown w' eq_refl) as [wm' Hwm']. rewrite Hwm'. simpl.
        destruct (decide (Some w' = Some w)) as [[= ->]|Hne].
        + rewrite lookup_insert_eq. reflexivity.
        + rewrite lookup_insert_ne by congruence. reflexivity.
      - destruct (decide (None = Some w)); [discriminate|reflexivity]. }
    clear Hq Hvs1 Hns1 Hws1.
    eapply returns_weaken.
    { apply IH.
      - rewrite Hns1'. exact Hn.
      - eapply Forall_impl; [exact Hrest|]. intros b (vb & Hvb & Hownb).
        exists vb. rewrite Hvs1'. split; [exact Hvb|]. auto. }
    intros [] s2 (Hvs2 & Hns2 & Hgrow2 & Hany2 & Hset2 & Hkeep2).
    split; [congruence|]. split; [congruence|]. split; [auto|].
    split; [|split].
    + intros w. destruct (Hany2 w) as [Hv|Hv]; [auto|].
      rewrite Hv, Hvis1. destruct (decide (visage_window va = Some w)); auto.
    + intros w (b & vb & [<-|Hin] & Hvb & Hownb).
      * destruct (Hany2 w) as [Hv|Hv]; [exact Hv|].
        rewrite Hv, Hvis1.
        assert (vb = va) as -> by congruence.
        destruct (decide (visage_window va = Some w)); [reflexivity|contradiction].
      * apply Hset2. exists b, vb. rewrite Hvs1'. auto.
    + intros w Hnone. rewrite Hkeep2, Hvis1.
      * destruct (decide (visage_window va = Some w)) as [Heq|]; [|reflexivity].
        destruct (Hnone a va (or_introl eq_refl) Hva Heq).
      * intros b vb Hin Hvb. rewrite Hvs1' in Hvb. apply (Hnone b vb); auto.
Qed.

(** X24: the visibility of a standalone window follows the occlusion of its
    native window: when the occlusion state of a native window changes,
    every window with a view that observes it becomes visible if the
    state has the visible bit and hidden if not, and the visibility of the
    other windows stays as it is. *)
Theorem a_window_follows_the_occlusion_it_observes
        (n : NSWindowPtr) (o : NSWindow) (state : Z) (s : World)
        (Hn : nswindows s !! n = Some o)
        (Hwf : forall w, observed_by s n w -> is_Some (windows s !! w)) :
  returns (occlusionStateChanged n state) s (fun _ s' =>
    (forall w, observed_by s n w ->
               visible_in s' w = Some (occlusion_visible state))
    /\ (forall w, ~ observed_by s n w -> visible_in s' w = visible_in s w)).
Proof.
  unfold occlusionStateChanged. steps.
  eapply returns_weaken.
  { eapply (deliver_occlusion_visible n); [simpl; apply lookup_insert_eq|].
    simpl. apply Forall_forall. intros a Ha%list_elem_of_In.
    apply occlusion_observers_In in Ha as (va & Hva & Hobs).
    exists va. split; [exact Hva|]. intros w' Hw'. apply Hwf.
    exists a, va. auto. }
  intros [] s' (_ & _ & _ & _ & Hset & Hkeep). simpl in *. split.
  - intros w (a & va & Hva & Hobs & Hown). apply Hset.
    exists a, va. split; [|auto]. apply occlusion_observers_In. eauto.
  - intros w Hnot. rewrite Hkeep; [reflexivity|].
    intros a va Ha Hva Hown. apply Hnot.
    apply occlusion_observers_In in Ha as (va' & Hva' & Hobs).
    exists a, va. assert (va' = va) as -> by congruence. auto.
Qed.

Lemma a_window_follows_the_occlusion_it_observes_witness :
  let s := process_with_standalone_window in
  returns (occlusionStateChanged 3%positive 0) s (fun _ s' =>
    (forall w, observed_by s 3%positive w ->
               visible_in s' w = Some (occlusion_visible 0))
    /\ (forall w, ~ observed_by s 3%positive w -> visible_in s' w = visible_in s w)).
Proof.
  apply (a_window_follows_the_occlusion_it_observes
           3%positive the_native_window 0 process_with_standalone_window
           standalone_native_window_lookup).
  intros w (a & va & Hva & _ & Hown). rewrite standalone_views in Hva.
  apply lookup_singleton_Some in Hva as [<- <-]. injection Hown as <-.
  exists the_standalone_window. exact standalone_window_lookup.
Defined.

(** ** The scale of a new window *)

(** X25: the scale passed to the constructor of a standalone window only
    turns the pixel rectangle into the content rectangle in points.  The
    DPI scale of the constructed window is the backing scale of its
    native window, and the client size reported to the framework is the
    content size times that scale, rounded. *)
Theorem the_constructor_takes_the_scale_of_the_display
        (x y width height : Z) (scale : f32) (decoration : Decoration) (s : World) :
  returns (WindowMac_standalone x y width height scale decoration) s
    (fun this s1 =>
       let points (z : Z) : f64 := to_f64 (div32 (of_Z32 z) scale) in
       let dpi := to_f32 (screen_scale s) in
       exists wm,
         windows s1 !! this = Some wm
         /\ dpi_scale_ wm = dpi
         /\ last_content_rect_ wm
            = NSMakeRect (points x) (points y) (points width) (points height)
         /\ In (HandleResized this
                  (round_to_Z (mul64 (points width) (to_f64 dpi)))
                  (round_to_Z (mul64 (points height) (to_f64 dpi))))
               (trace s1)).
Proof.
  unfold WindowMac_standalone, alloc. steps.
  eapply initWithFrame_spec. intros v s1 Hown Hquit Hwin Hobs Hsize Hmatch Hq1.
  steps.
  eapply createWindow_spec;
    [lookup | reflexivity | reflexivity | lookup | simpl; exact Hown |].
  intros s2 Hq2. steps.
  pose proof (quiet_windows _ _ Hq2) as Hws.
  pose proof (quiet_trace _ _ Hq2) as Htr.
  pose proof (quiet_screen_scale _ _ Hq1) as Hsc1.
  unfold after_createWindow in *. simpl in *.
  eexists. split; [rewrite Hws; apply lookup_insert_eq|]. simpl.
  rewrite Hsc1. split; [reflexivity|]. split; [reflexivity|].
  rewrite Htr, Hsc1. apply in_app_iff. right. left. reflexivity.
Qed.
